(** * BLAKE-256 / BLAKE-224 (package blake256): a shallow embedding

    The Go package keeps several revisions of one algorithm.  Two of them
    are embedded here:

    - the revision with a two-word bit counter [t [2]uint32], the bit-sized
      [buflen] and the [update] routine (top level of this file), and
    - the revision with a single [uint64] counter advanced inside the block
      function and a byte-sized [nx] (module [Rev64]).

    Unsigned 32-bit and 64-bit integers are integers of [Z] reduced modulo
    [2^32] and [2^64] at every operation that can leave the range; bytes are
    [Byte.byte]; Go arrays are lists of the array's length; slices are lists
    whose capacity is their length.  A run-time panic of Go (the explicit
    panic of [setSalt], a slice expression or an index out of range) is a
    value [Panic] of the [result] type. *)

From Stdlib Require Import ZArith Bool Lia String Ascii List.
From Stdlib Require Import Strings.Byte.
Import ListNotations.

#[local] Open Scope Z_scope.

(** ** Machine integers and bytes *)

Definition wrap32 (x : Z) : Z := x mod 2 ^ 32.
Definition wrap64 (x : Z) : Z := x mod 2 ^ 64.

Definition add32 (a b : Z) : Z := wrap32 (a + b).
Definition sub32 (a b : Z) : Z := wrap32 (a - b).
Definition shl32 (x n : Z) : Z := wrap32 (Z.shiftl x n).

(** [x<<(32-n) | x>>n] on a [uint32]. *)
Definition rot (x n : Z) : Z := Z.lor (shl32 x (32 - n)) (Z.shiftr x n).

(** [uint32(b)] for a byte [b]. *)
Definition u8 (b : byte) : Z := Z.of_N (Byte.to_N b).

(** [byte(v)]: the low eight bits of [v]. *)
Definition byte_of_Z (v : Z) : byte :=
  match Byte.of_N (Z.to_N (v mod 256)) with
  | Some b => b
  | None => x00
  end.

(** [uint32(p[0])<<24 | uint32(p[1])<<16 | uint32(p[2])<<8 | uint32(p[3])] *)
Definition be32 (b0 b1 b2 b3 : byte) : Z :=
  Z.lor (Z.lor (Z.lor (shl32 (u8 b0) 24) (shl32 (u8 b1) 16))
               (shl32 (u8 b2) 8))
        (u8 b3).

(** [u32to8]: the four bytes written to [p[0..3]]. *)
Definition u32to8 (v : Z) : list byte :=
  [byte_of_Z (Z.shiftr v 24); byte_of_Z (Z.shiftr v 16);
   byte_of_Z (Z.shiftr v 8); byte_of_Z v].

(** ** Run-time failures *)

Inductive panic : Set :=
| InvalidSaltLength   (* panic("salt length must be 16 bytes") *)
| OutOfRange.         (* slice bounds or index out of range *)

Inductive result (A : Type) : Type :=
| Ok (a : A)
| Panic (e : panic).

Arguments Ok {A} a.
Arguments Panic {A} e.

Definition bind {A B : Type} (r : result A) (k : A -> result B) : result B :=
  match r with
  | Ok a => k a
  | Panic e => Panic e
  end.

Notation "x <- c ;; k" := (bind c (fun x => k))
  (at level 61, c at next level, right associativity).
Notation "' p <- c ;; k" := (bind c (fun x => let 'p := x in k))
  (at level 61, p pattern, c at next level, right associativity).

Definition is_ok {A : Type} (r : result A) : bool :=
  match r with Ok _ => true | Panic _ => false end.

(** ** Slices *)

Section Slices.
Context {A : Type}.

Definition len (s : list A) : Z := Z.of_nat (length s).

(** [s[:n]] *)
Definition slice_to (s : list A) (n : Z) : result (list A) :=
  if (0 <=? n) && (n <=? len s) then Ok (firstn (Z.to_nat n) s)
  else Panic OutOfRange.

(** [s[n:]] *)
Definition slice_from (s : list A) (n : Z) : result (list A) :=
  if (0 <=? n) && (n <=? len s) then Ok (skipn (Z.to_nat n) s)
  else Panic OutOfRange.

(** [copy(dst[off:], src)]: the slice expression fails outside
    [0..len dst]; [copy] itself moves [min (len dst - off) (len src)]
    elements and never fails. *)
Definition copy_at (dst : list A) (off : Z) (src : list A) : result (list A) :=
  if (0 <=? off) && (off <=? len dst) then
    let o := Z.to_nat off in
    let moved := firstn (length dst - o) src in
    Ok (firstn o dst ++ moved ++ skipn (o + length moved) dst)
  else Panic OutOfRange.

(** [s[i] = x] *)
Definition store (s : list A) (i : Z) (x : A) : result (list A) :=
  if (0 <=? i) && (i <? len s) then
    Ok (firstn (Z.to_nat i) s ++ x :: skipn (S (Z.to_nat i)) s)
  else Panic OutOfRange.
End Slices.

(** ** Tables *)

(** Permutations of {0, ..., 15}. *)
Definition sigma : list (list nat) :=
  [[0; 1; 2; 3; 4; 5; 6; 7; 8; 9; 10; 11; 12; 13; 14; 15];
   [14; 10; 4; 8; 9; 15; 13; 6; 1; 12; 0; 2; 11; 7; 5; 3];
   [11; 8; 12; 0; 5; 2; 15; 13; 10; 14; 3; 6; 7; 1; 9; 4];
   [7; 9; 3; 1; 13; 12; 11; 14; 2; 6; 5; 10; 4; 0; 15; 8];
   [9; 0; 5; 7; 2; 4; 10; 15; 14; 1; 11; 12; 6; 8; 3; 13];
   [2; 12; 6; 10; 0; 11; 8; 3; 4; 13; 7; 5; 15; 14; 1; 9];
   [12; 5; 1; 15; 14; 13; 4; 10; 0; 7; 6; 3; 9; 2; 8; 11];
   [13; 11; 7; 14; 12; 1; 3; 9; 5; 0; 15; 4; 8; 6; 2; 10];
   [6; 15; 14; 9; 11; 3; 0; 8; 12; 2; 13; 7; 1; 4; 10; 5];
   [10; 2; 8; 4; 7; 6; 1; 5; 15; 11; 9; 14; 3; 12; 13; 0];
   [0; 1; 2; 3; 4; 5; 6; 7; 8; 9; 10; 11; 12; 13; 14; 15];
   [14; 10; 4; 8; 9; 15; 13; 6; 1; 12; 0; 2; 11; 7; 5; 3];
   [11; 8; 12; 0; 5; 2; 15; 13; 10; 14; 3; 6; 7; 1; 9; 4];
   [7; 9; 3; 1; 13; 12; 11; 14; 2; 6; 5; 10; 4; 0; 15; 8]]%nat.

(** Constants. *)
Definition cst : list Z :=
  [0x243F6A88; 0x85A308D3; 0x13198A2E; 0x03707344;
   0xA4093822; 0x299F31D0; 0x082EFA98; 0xEC4E6C89;
   0x452821E6; 0x38D01377; 0xBE5466CF; 0x34E90C6C;
   0xC0AC29B7; 0xC97C50DD; 0x3F84D5B5; 0xB5470917].

(** Initialization values. *)
Definition iv256 : list Z :=
  [0x6A09E667; 0xBB67AE85; 0x3C6EF372; 0xA54FF53A;
   0x510E527F; 0x9B05688C; 0x1F83D9AB; 0x5BE0CD19].

Definition iv224 : list Z :=
  [0xC1059ED8; 0x367CD507; 0x3070DD17; 0xF70E5939;
   0xFFC00B31; 0x68581511; 0x64F98FA7; 0xBEFA4FA4].

(** The block size of the hash algorithm in bytes. *)
Definition BlockSize : Z := 64.

(** ** The round body shared by the revisions

    Both revisions unroll the same eight mixing steps in the body of
    [for i := 0; i < 14; i++].  One step, for the local variables
    [a, b, c, d] and the table positions [k] and [k+1] of [si]:
<<
    a += (m[si[k]] ^ cst[si[k+1]]) + b
    d = (d^a)<<(32-16) | (d^a)>>16
    c += d
    b = (b^c)<<(32-12) | (b^c)>>12
    a += (m[si[k+1]] ^ cst[si[k]]) + b
    d = (d^a)<<(32-8) | (d^a)>>8
    c += d
    b = (b^c)<<(32-7) | (b^c)>>7
>> *)

Definition word (l : list Z) (i : nat) : Z := nth i l 0.

Definition G (m : list Z) (si : list nat) (k : nat) (a b c d : Z)
  : Z * Z * Z * Z :=
  let x := nth k si 0%nat in
  let y := nth (k + 1) si 0%nat in
  let a := add32 a (add32 (Z.lxor (word m x) (word cst y)) b) in
  let d := rot (Z.lxor d a) 16 in
  let c := add32 c d in
  let b := rot (Z.lxor b c) 12 in
  let a := add32 a (add32 (Z.lxor (word m y) (word cst x)) b) in
  let d := rot (Z.lxor d a) 8 in
  let c := add32 c d in
  let b := rot (Z.lxor b c) 7 in
  (a, b, c, d).

(** The sixteen local variables [v0 .. v15]. *)
Record vars : Set := mkVars {
  v0 : Z; v1 : Z; v2 : Z; v3 : Z; v4 : Z; v5 : Z; v6 : Z; v7 : Z;
  v8 : Z; v9 : Z; v10 : Z; v11 : Z; v12 : Z; v13 : Z; v14 : Z; v15 : Z
}.

(** One pass of the loop body, in the order of the source. *)
Definition round (m : list Z) (si : list nat) (v : vars) : vars :=
  let '(mkVars v0 v1 v2 v3 v4 v5 v6 v7 v8 v9 v10 v11 v12 v13 v14 v15) := v in
  let '(v0, v4, v8, v12) := G m si 0 v0 v4 v8 v12 in
  let '(v1, v5, v9, v13) := G m si 2 v1 v5 v9 v13 in
  let '(v2, v6, v10, v14) := G m si 4 v2 v6 v10 v14 in
  let '(v3, v7, v11, v15) := G m si 6 v3 v7 v11 v15 in
  let '(v3, v4, v9, v14) := G m si 14 v3 v4 v9 v14 in
  let '(v2, v7, v8, v13) := G m si 12 v2 v7 v8 v13 in
  let '(v0, v5, v10, v15) := G m si 8 v0 v5 v10 v15 in
  let '(v1, v6, v11, v12) := G m si 10 v1 v6 v11 v12 in
  mkVars v0 v1 v2 v3 v4 v5 v6 v7 v8 v9 v10 v11 v12 v13 v14 v15.

(** [for i := 0; i < 14; i++ { si := &sigma[i]; ... }] *)
Definition rounds (m : list Z) (v : vars) : vars :=
  fold_left (fun v si => round m si v) sigma v.

(** [m[i] = uint32(p[j])<<24 | uint32(p[j+1])<<16 | uint32(p[j+2])<<8 |
    uint32(p[j+3])] for [i = 0 .. 15], [j = i * 4]. *)
Definition load_m (p : list byte) : list Z :=
  map (fun i : nat =>
         let j := (i * 4)%nat in
         be32 (nth j p x00) (nth (j + 1) p x00)
              (nth (j + 2) p x00) (nth (j + 3) p x00))
      (seq 0 16).

(** The initial values of [v0 .. v15] from the chain value, the salt and
    the two counter words; the counter is skipped when [nullt] is set. *)
Definition init_vars (h s : list Z) (t0 t1 : Z) (nullt : bool) : vars :=
  let v12 := word cst 4 in
  let v13 := word cst 5 in
  let v14 := word cst 6 in
  let v15 := word cst 7 in
  let '(v12, v13, v14, v15) :=
    if negb nullt
    then (Z.lxor v12 t0, Z.lxor v13 t0, Z.lxor v14 t1, Z.lxor v15 t1)
    else (v12, v13, v14, v15) in
  mkVars (word h 0) (word h 1) (word h 2) (word h 3)
         (word h 4) (word h 5) (word h 6) (word h 7)
         (Z.lxor (word s 0) (word cst 0)) (Z.lxor (word s 1) (word cst 1))
         (Z.lxor (word s 2) (word cst 2)) (Z.lxor (word s 3) (word cst 3))
         v12 v13 v14 v15.

(** [h[0] ^= v0 ^ v8 ^ salt[0]] ... [h[7] ^= v7 ^ v15 ^ salt[3]] *)
Definition feed_forward (h s : list Z) (v : vars) : list Z :=
  [Z.lxor (word h 0) (Z.lxor (Z.lxor (v0 v) (v8 v)) (word s 0));
   Z.lxor (word h 1) (Z.lxor (Z.lxor (v1 v) (v9 v)) (word s 1));
   Z.lxor (word h 2) (Z.lxor (Z.lxor (v2 v) (v10 v)) (word s 2));
   Z.lxor (word h 3) (Z.lxor (Z.lxor (v3 v) (v11 v)) (word s 3));
   Z.lxor (word h 4) (Z.lxor (Z.lxor (v4 v) (v12 v)) (word s 0));
   Z.lxor (word h 5) (Z.lxor (Z.lxor (v5 v) (v13 v)) (word s 1));
   Z.lxor (word h 6) (Z.lxor (Z.lxor (v6 v) (v14 v)) (word s 2));
   Z.lxor (word h 7) (Z.lxor (Z.lxor (v7 v) (v15 v)) (word s 3))].

(** The chain value after one 64-byte block. *)
Definition compress (h s : list Z) (t0 t1 : Z) (nullt : bool) (p : list byte)
  : list Z :=
  feed_forward h s (rounds (load_m p) (init_vars h s t0 t1 nullt)).

(** ** The digest state (two-word counter) *)

Record digest : Type := mkDigest {
  hashSize : Z;        (* hash output size in bits (224 or 256) *)
  h : list Z;          (* current chain value, [8]uint32 *)
  salt : list Z;       (* salt (zero by default), [4]uint32 *)
  t : Z * Z;           (* counter of hashed bits, (t[0], t[1]) *)
  nullt : bool;        (* special case for finalization *)
  buf : list byte;     (* cache for data not yet compressed, [64]uint8 *)
  buflen : Z           (* cache length in bits *)
}.

Definition set_h (d : digest) (x : list Z) : digest :=
  mkDigest (hashSize d) x (salt d) (t d) (nullt d) (buf d) (buflen d).
Definition set_salt (d : digest) (x : list Z) : digest :=
  mkDigest (hashSize d) (h d) x (t d) (nullt d) (buf d) (buflen d).
Definition set_t (d : digest) (x : Z * Z) : digest :=
  mkDigest (hashSize d) (h d) (salt d) x (nullt d) (buf d) (buflen d).
Definition set_nullt (d : digest) (x : bool) : digest :=
  mkDigest (hashSize d) (h d) (salt d) (t d) x (buf d) (buflen d).
Definition set_buf (d : digest) (x : list byte) : digest :=
  mkDigest (hashSize d) (h d) (salt d) (t d) (nullt d) x (buflen d).
Definition set_buflen (d : digest) (x : Z) : digest :=
  mkDigest (hashSize d) (h d) (salt d) (t d) (nullt d) (buf d) x.

(** [func (d *digest) _Block(p []uint8)] *)
Definition _Block (d : digest) (p : list byte) : digest :=
  set_h d (compress (h d) (salt d) (fst (t d)) (snd (t d)) (nullt d) p).

(** [func (d *digest) Reset()]: resets the state of digest.  It leaves salt
    intact. *)
Definition Reset (d : digest) : digest :=
  let d := if hashSize d =? 224 then set_h d iv224 else set_h d iv256 in
  let d := set_t d (0, snd (t d)) in
  let d := set_t d (fst (t d), 0) in
  let d := set_nullt d false in
  set_buflen d 0.

(** [func (d *digest) Size() int { return d.hashSize >> 3 }] *)
Definition Size (d : digest) : Z := Z.shiftr (hashSize d) 3.

(** [d.t[0] += 512; if d.t[0] == 0 { d.t[1]++ }] *)
Definition bump (d : digest) : digest :=
  let d := set_t d (add32 (fst (t d)) 512, snd (t d)) in
  if fst (t d) =? 0 then set_t d (fst (t d), add32 (snd (t d)) 1) else d.

(** [d.t[0] -= n] *)
Definition back_off (d : digest) (n : Z) : digest :=
  set_t d (sub32 (fst (t d)) n, snd (t d)).

(** The loop [for datalen >= 512 { ... }] of [update].  It runs
    [datalen / 512] times at most; [n] is that number of passes. *)
Fixpoint update_loop (n : nat) (d : digest) (data : list byte) (datalen : Z)
  : result (digest * list byte * Z) :=
  match n with
  | O => Ok (d, data, datalen)
  | S n' =>
      if 512 <=? datalen then
        let d := bump d in
        blk <- slice_to data 64 ;;
        let d := _Block d blk in
        data <- slice_from data 64 ;;
        update_loop n' d data (wrap64 (datalen - 512))
      else Ok (d, data, datalen)
  end.

(** [func (d *digest) update(data []byte, datalen uint64)]: updates the
    internal state of digest with the given data, of the given length in
    bits. *)
Definition update (d : digest) (data : list byte) (datalen : Z) : result digest :=
  let left := Z.shiftr (buflen d) 3 in
  let fill := 64 - left in
  '(d, data, datalen, left) <-
    (if negb (left =? 0) && (fill <=? Z.land (Z.shiftr datalen 3) 0x3F) then
       src <- slice_to data fill ;;
       b <- copy_at (buf d) left src ;;
       let d := set_buf d b in
       let d := bump d in
       let d := _Block d (buf d) in
       data <- slice_from data fill ;;
       Ok (d, data, wrap64 (datalen - wrap64 (Z.shiftl fill 3)), 0)
     else Ok (d, data, datalen, left)) ;;
  '(d, data, datalen) <- update_loop (Z.to_nat (datalen / 512)) d data datalen ;;
  if 0 <? datalen then
    b <- copy_at (buf d) left data ;;
    let d := set_buf d b in
    Ok (set_buflen d (Z.shiftl left 3 + datalen))
  else Ok (set_buflen d 0).

(** [func (d *digest) Write(p []byte) (nn int, err error)]: the state after
    the call and [nn]. *)
Definition Write (p : list byte) (d : digest) : result (digest * Z) :=
  let nn := len p in
  d <- update d p (wrap64 (wrap64 nn * 8)) ;;
  Ok (d, nn).

(** ** Finalization *)

(** The eight length bytes of [Sum]:
<<
    ubuflen := uint32(d.buflen)
    lo := d.t[0] + ubuflen
    hi := d.t[1]
    if lo < ubuflen { hi++ }
    msglen := make([]byte, 8)
    u32to8(msglen[0:4], hi)
    u32to8(msglen[4:8], lo)
>> *)
Definition msglen (d : digest) : list byte :=
  let ubuflen := wrap32 (buflen d) in
  let lo := add32 (fst (t d)) ubuflen in
  let hi := snd (t d) in
  let hi := if lo <? ubuflen then add32 hi 1 else hi in
  u32to8 hi ++ u32to8 lo.

(** [pad := [64]byte{0x80}] *)
Definition pad : list byte := x80 :: repeat x00 63.

(** The padding of [Sum], from [if d.buflen == 440] to the end of its
    [else] branch: the state before the length bytes are written. *)
Definition Sum_pad (d : digest) : result digest :=
  let ubuflen := wrap32 (buflen d) in
  if buflen d =? 440 then (* one padding byte *)
    let d := back_off d 8 in
    if hashSize d =? 224 then update d [x80] 8 else update d [x81] 8
  else
    d <- (if buflen d <? 440 then (* enough space to fill the block *)
            let d := if buflen d =? 0 then set_nullt d true else d in
            let d := back_off d (sub32 440 ubuflen) in
            update d pad (wrap64 (440 - buflen d))
          else (* need 2 compressions *)
            let d := back_off d (sub32 512 ubuflen) in
            d <- update d pad (wrap64 (512 - buflen d)) ;;
            let d := back_off d 440 in
            pad1 <- slice_from pad 1 ;;
            d <- update d pad1 440 ;;
            Ok (set_nullt d true)) ;;
    d <- (if hashSize d =? 224 then update d [x00] 8 else update d [x01] 8) ;;
    Ok (back_off d 8).

(** [make([]byte, n)] *)
Definition make_bytes (n : Z) : result (list byte) :=
  if 0 <=? n then Ok (repeat x00 (Z.to_nat n)) else Panic OutOfRange.

(** The body of [for _, s := range ... { out[j+0] = byte(s >> 24); ...;
    j += 4 }]. *)
Fixpoint put_words (out : list byte) (j : Z) (ws : list Z) : result (list byte) :=
  match ws with
  | [] => Ok out
  | s :: ws' =>
      out <- store out (j + 0) (byte_of_Z (Z.shiftr s 24)) ;;
      out <- store out (j + 1) (byte_of_Z (Z.shiftr s 16)) ;;
      out <- store out (j + 2) (byte_of_Z (Z.shiftr s 8)) ;;
      out <- store out (j + 3) (byte_of_Z (Z.shiftr s 0)) ;;
      put_words out (j + 4) ws'
  end.

(** The serialization at the end of [Sum]:
    [out := make([]byte, d.Size())] filled from [d.h[:d.hashSize>>5]]. *)
Definition Sum_out (d : digest) : result (list byte) :=
  out <- make_bytes (Size d) ;;
  ws <- slice_to (h d) (Z.shiftr (hashSize d) 5) ;;
  put_words out 0 ws.

(** The private copy [d] of [Sum] when its last [update] has returned. *)
Definition Sum_state (d0 : digest) : result digest :=
  let d := d0 in
  let ml := msglen d in
  d <- Sum_pad d ;;
  let d := back_off d 64 in
  update d ml 64.

(** [func (d0 *digest) Sum(in []byte) []byte]: returns the calculated
    checksum.  The method works on [d := *d0], a copy of the whole struct
    (its arrays included), and never assigns through [d0]; the state that
    the caller holds after the call is the first component. *)
Definition Sum (in_ : list byte) (d0 : digest) : result (digest * list byte) :=
  d <- Sum_state d0 ;;
  out <- Sum_out d ;;
  Ok (d0, in_ ++ out).

(** ** Construction *)

(** [func (d *digest) setSalt(s []byte)] *)
Definition setSalt (d : digest) (s : list byte) : result digest :=
  if negb (len s =? 16) then Panic InvalidSaltLength
  else
    let b (i : nat) := nth i s x00 in
    Ok (set_salt d [be32 (b 0%nat) (b 1%nat) (b 2%nat) (b 3%nat);
                    be32 (b 4%nat) (b 5%nat) (b 6%nat) (b 7%nat);
                    be32 (b 8%nat) (b 9%nat) (b 10%nat) (b 11%nat);
                    be32 (b 12%nat) (b 13%nat) (b 14%nat) (b 15%nat)]).

(** [new(digest)]: the zero value of the struct. *)
Definition zero_digest : digest :=
  mkDigest 0 (repeat 0 8) (repeat 0 4) (0, 0) false (repeat x00 64) 0.

(** [func newDigest(bitSize int) (d *digest)] *)
Definition newDigest (bitSize : Z) : digest :=
  let d := zero_digest in
  let d := mkDigest bitSize (h d) (salt d) (t d) (nullt d) (buf d) (buflen d) in
  Reset d.

(** [New] returns a new hash.Hash computing the BLAKE-256 checksum. *)
Definition New : digest := newDigest 256.

(** [New224] returns a new hash.Hash computing the BLAKE-224 checksum. *)
Definition New224 : digest := newDigest 224.

(** [NewSalt] is like [New] but initializes salt with the given 16-byte
    slice. *)
Definition NewSalt (s : list byte) : result digest :=
  let d := newDigest 256 in
  setSalt d s.

(** [New224Salt] is like [New224] but initializes salt with the given
    16-byte slice. *)
Definition New224Salt (s : list byte) : result digest :=
  let d := newDigest 224 in
  setSalt d s.

(** ** Test helpers *)

(** [fmt.Sprintf("%x", bytes)] of the tests: two lower-case hexadecimal
    digits per byte. *)
Definition hex_digit (n : N) : ascii :=
  nth (N.to_nat n)
      ["0"; "1"; "2"; "3"; "4"; "5"; "6"; "7";
       "8"; "9"; "a"; "b"; "c"; "d"; "e"; "f"]%char "0"%char.

Fixpoint hex (l : list byte) : string :=
  match l with
  | [] => EmptyString
  | b :: l' =>
      String (hex_digit (N.div (Byte.to_N b) 16))
             (String (hex_digit (N.modulo (Byte.to_N b) 16)) (hex l'))
  end.

(** [[]byte(s)] for a string of the tests. *)
Definition bytes_of (s : string) : list byte := list_byte_of_string s.

(** [h.Write(p); h.Sum(nil)] on a state [d]: the digest bytes. *)
Definition write_sum (d : digest) (p : list byte) : result (list byte) :=
  '(d, _) <- Write p d ;;
  '(_, out) <- Sum [] d ;;
  Ok out.

(** The state after writing the chunks [ps] one call at a time. *)
Fixpoint write_all (ps : list (list byte)) (d : digest) : result digest :=
  match ps with
  | [] => Ok d
  | p :: ps' => '(d, _) <- Write p d ;; write_all ps' d
  end.

Definition hex_result (r : result (list byte)) : result string :=
  out <- r ;; Ok (hex out).


(** The digest of the chunks [ps] written one call at a time to [d]. *)
Definition sum_chunks (d : digest) (ps : list (list byte)) : result (list byte) :=
  d <- write_all ps d ;;
  '(_, out) <- Sum [] d ;;
  Ok out.

(** ** The revision with a [uint64] counter *)

Module Rev64.

Record digest : Type := mkDigest {
  hashSize : Z;      (* hash output size in bits (224 or 256) *)
  h : list Z;        (* current chain value, [8]uint32 *)
  s : list Z;        (* salt (zero by default), [4]uint32 *)
  t : Z;             (* message length counter in bits, uint64 *)
  nullt : bool;      (* special case for finalization: skip counter *)
  x : list byte;     (* buffer for data not yet compressed, [64]byte *)
  nx : Z             (* number of bytes in buffer *)
}.

Definition set_h (d : digest) (v : list Z) : digest :=
  mkDigest (hashSize d) v (s d) (t d) (nullt d) (x d) (nx d).
Definition set_s (d : digest) (v : list Z) : digest :=
  mkDigest (hashSize d) (h d) v (t d) (nullt d) (x d) (nx d).
Definition set_t (d : digest) (v : Z) : digest :=
  mkDigest (hashSize d) (h d) (s d) v (nullt d) (x d) (nx d).
Definition set_nullt (d : digest) (v : bool) : digest :=
  mkDigest (hashSize d) (h d) (s d) (t d) v (x d) (nx d).
Definition set_x (d : digest) (v : list byte) : digest :=
  mkDigest (hashSize d) (h d) (s d) (t d) (nullt d) v (nx d).
Definition set_nx (d : digest) (v : Z) : digest :=
  mkDigest (hashSize d) (h d) (s d) (t d) (nullt d) (x d) v.

(** [func _Block(d *digest, p []uint8) int]: compresses every whole block
    of [p], advancing [d.t] by 512 before each; returns the state and the
    number [n] of bytes consumed.  The loop [for len(p) >= BlockSize] runs
    [len(p) / 64] times; [k] is that number of passes. *)
Fixpoint block_loop (k : nat) (d : digest) (p : list byte) (n : Z)
  : result (digest * Z) :=
  match k with
  | O => Ok (d, n)
  | S k' =>
      if BlockSize <=? len p then
        let d := set_t d (wrap64 (t d + 512)) in
        let d := set_h d (compress (h d) (s d) (wrap32 (t d))
                                   (wrap32 (Z.shiftr (t d) 32)) (nullt d) p) in
        p <- slice_from p BlockSize ;;
        block_loop k' d p (n + BlockSize)
      else Ok (d, n)
  end.

Definition _Block (d : digest) (p : list byte) : result (digest * Z) :=
  block_loop (Z.to_nat (len p / BlockSize)) d p 0.

(** [Reset] resets the state of digest.  It leaves salt intact. *)
Definition Reset (d : digest) : digest :=
  let d := if hashSize d =? 224 then set_h d iv224 else set_h d iv256 in
  let d := set_t d 0 in
  let d := set_nx d 0 in
  set_nullt d false.

Definition Size (d : digest) : Z := Z.shiftr (hashSize d) 3.

(** [func (d *digest) Write(p []byte) (nn int, err error)] *)
Definition Write (p : list byte) (d : digest) : result (digest * Z) :=
  let nn := len p in
  '(d, p) <-
    (if 0 <? nx d then
       let n := len p in
       let n := if BlockSize - nx d <? n then BlockSize - nx d else n in
       dst <- slice_from (x d) (nx d) ;;
       b <- copy_at (x d) (nx d) p ;;
       let d := set_x d b in
       let d := set_nx d (nx d + Z.min (len dst) (len p)) in
       d <- (if nx d =? BlockSize then
               '(d, _) <- _Block d (x d) ;;
               Ok (set_nx d 0)
             else Ok d) ;;
       p <- slice_from p n ;;
       Ok (d, p)
     else Ok (d, p)) ;;
  '(d, n) <- _Block d p ;;
  p <- slice_from p n ;;
  if 0 <? len p then
    b <- copy_at (x d) 0 p ;;
    let d := set_x d b in
    Ok (set_nx d (Z.min (len (x d)) (len p)), nn)
  else Ok (d, nn).

(** [d.t -= n] *)
Definition back_off (d : digest) (n : Z) : digest :=
  set_t d (wrap64 (t d - n)).

(** [s[a:b]] *)
Definition slice (l : list byte) (a b : Z) : result (list byte) :=
  if (0 <=? a) && (a <=? b) && (b <=? len l)
  then Ok (firstn (Z.to_nat (b - a)) (skipn (Z.to_nat a) l))
  else Panic OutOfRange.

Definition write (p : list byte) (d : digest) : result digest :=
  '(d, _) <- Write p d ;; Ok d.

(** The eight bytes [len[0] = byte(l >> 56) ... len[7] = byte(l)] for
    [l := d.t + nx<<3]. *)
Definition msglen (d : digest) : list byte :=
  let nx := wrap64 (nx d) in
  let l := wrap64 (t d + wrap64 (Z.shiftl nx 3)) in
  [byte_of_Z (Z.shiftr l 56); byte_of_Z (Z.shiftr l 48);
   byte_of_Z (Z.shiftr l 40); byte_of_Z (Z.shiftr l 32);
   byte_of_Z (Z.shiftr l 24); byte_of_Z (Z.shiftr l 16);
   byte_of_Z (Z.shiftr l 8); byte_of_Z l].

(** The padding of [Sum], from [if nx == 55] to the end of its [else]
    branch. *)
Definition Sum_pad (d : digest) : result digest :=
  let nx := wrap64 (nx d) in
  if nx =? 55 then (* One padding byte. *)
    let d := back_off d 8 in
    if hashSize d =? 224 then write [x80] d else write [x81] d
  else
    d <- (if nx <? 55 then (* Enough space to fill the block. *)
            let d := if nx =? 0 then set_nullt d true else d in
            let d := back_off d (wrap64 (440 - wrap64 (Z.shiftl nx 3))) in
            p <- slice pad 0 (wrap64 (55 - nx)) ;;
            write p d
          else (* Need 2 compressions. *)
            let d := back_off d (wrap64 (512 - wrap64 (Z.shiftl nx 3))) in
            p <- slice pad 0 (wrap64 (64 - nx)) ;;
            d <- write p d ;;
            let d := back_off d 440 in
            p <- slice pad 1 56 ;;
            d <- write p d ;;
            Ok (set_nullt d true)) ;;
    d <- (if hashSize d =? 224 then write [x00] d else write [x01] d) ;;
    Ok (back_off d 8).

Definition Sum_out (d : digest) : result (list byte) :=
  out <- make_bytes (Size d) ;;
  ws <- slice_to (h d) (Z.shiftr (hashSize d) 5) ;;
  put_words out 0 ws.

(** [func (d0 *digest) Sum(in []byte) []byte] *)
Definition Sum (in_ : list byte) (d0 : digest) : result (digest * list byte) :=
  let d := d0 in
  let ml := msglen d in
  d <- Sum_pad d ;;
  let d := back_off d 64 in
  d <- write ml d ;;
  out <- Sum_out d ;;
  Ok (d0, in_ ++ out).

(** [&digest{hashSize: 256, h: iv256}] *)
Definition New : digest :=
  mkDigest 256 iv256 (repeat 0 4) 0 false (repeat x00 64) 0.

(** [&digest{hashSize: 224, h: iv224}] *)
Definition New224 : digest :=
  mkDigest 224 iv224 (repeat 0 4) 0 false (repeat x00 64) 0.

Fixpoint write_all (ps : list (list byte)) (d : digest) : result digest :=
  match ps with
  | [] => Ok d
  | p :: ps' => d <- write p d ;; write_all ps' d
  end.

Definition sum_chunks (d : digest) (ps : list (list byte)) : result (list byte) :=
  d <- write_all ps d ;;
  '(_, out) <- Sum [] d ;;
  Ok out.

(** [func (d *digest) setSalt(s []byte)] *)
Definition setSalt (d : digest) (sl : list byte) : result digest :=
  if negb (len sl =? 16) then Panic InvalidSaltLength
  else
    let b (i : nat) := nth i sl x00 in
    Ok (set_s d [be32 (b 0%nat) (b 1%nat) (b 2%nat) (b 3%nat);
                 be32 (b 4%nat) (b 5%nat) (b 6%nat) (b 7%nat);
                 be32 (b 8%nat) (b 9%nat) (b 10%nat) (b 11%nat);
                 be32 (b 12%nat) (b 13%nat) (b 14%nat) (b 15%nat)]).

(** [NewSalt] is like [New] but initializes salt with the given 16-byte
    slice. *)
Definition NewSalt (sl : list byte) : result digest := setSalt New sl.

(** [New224Salt] is like [New224] but initializes salt with the given
    16-byte slice. *)
Definition New224Salt (sl : list byte) : result digest := setSalt New224 sl.

(** The instances that the four constructors return. *)
Definition constructed (d : digest) : Prop :=
  d = New \/ d = New224 \/
  (exists sl, NewSalt sl = Ok d) \/ (exists sl, New224Salt sl = Ok d).

(** [h.Sum(in)] on [d]: the bytes returned. *)
Definition Sum_bytes (in_ : list byte) (d : digest) : result (list byte) :=
  '(_, out) <- Sum in_ d ;; Ok out.

(** The fields that a compression reads and writes. *)
Definition core (d : digest) : Z * list Z * list Z * Z * bool :=
  (hashSize d, h d, s d, t d, nullt d).

(** The buffered bytes: the first [nx] bytes of the buffer. *)
Definition pending (d : digest) : list byte := firstn (Z.to_nat (nx d)) (x d).

(** Well-formed buffer: the array holds 64 bytes, fewer than 64 of them
    buffered. *)
Definition Wf (d : digest) : Prop :=
  length (x d) = 64%nat /\ 0 <= nx d < 64.

(** The state of a session between two calls. *)
Definition Inv (d : digest) : Prop :=
  Wf d /\ (hashSize d = 224 \/ hashSize d = 256) /\ length (h d) = 8%nat
  /\ 0 <= t d < 2 ^ 64 /\ t d mod 512 = 0 /\ nullt d = false.

(** One pass of the loop of [_Block] on the block [b]. *)
Definition step (d : digest) (b : list byte) : digest :=
  let d := set_t d (wrap64 (t d + 512)) in
  set_h d (compress (h d) (s d) (wrap32 (t d))
                    (wrap32 (Z.shiftr (t d) 32)) (nullt d) b).

Definition compress_all (bs : list (list byte)) (d : digest) : digest :=
  fold_left step bs d.

(** What a state shows to the calls that follow. *)
Definition same_view (d1 d2 : digest) : Prop :=
  core d1 = core d2 /\ nx d1 = nx d2 /\ pending d1 = pending d2.

(** The shape that every call keeps: a well-formed buffer, the width [hs]
    (one of the two), eight chain words. *)
Definition Shape (hs : Z) (d : digest) : Prop :=
  Wf d /\ hashSize d = hs /\ (hs = 224 \/ hs = 256) /\ length (h d) = 8%nat.

Definition ok_same (hs : Z) (r1 r2 : result digest) : Prop :=
  exists e1 e2,
    r1 = Ok e1 /\ r2 = Ok e2 /\ Shape hs e1 /\ Shape hs e2 /\ same_view e1 e2.

End Rev64.

(** ** Sessions *)

(** The calls a caller can make on an instance. *)
Inductive op : Type :=
| OpWrite (p : list byte)
| OpSum (in_ : list byte)
| OpReset.

(** The caller's state after one call. *)
Definition run_op (o : op) (d : digest) : result digest :=
  match o with
  | OpWrite p => '(d, _) <- Write p d ;; Ok d
  | OpSum in_ => '(d, _) <- Sum in_ d ;; Ok d
  | OpReset => Ok (Reset d)
  end.

Fixpoint run (os : list op) (d : digest) : result digest :=
  match os with
  | [] => Ok d
  | o :: os' => d <- run_op o d ;; run os' d
  end.

(** The 64-bit value of the two counter words. *)
Definition counter64 (d : digest) : Z := snd (t d) * 2 ^ 32 + fst (t d).

(** The first [n] 64-byte chunks of [data]. *)
Fixpoint chunks (n : nat) (data : list byte) : list (list byte) :=
  match n with
  | O => []
  | S n' => firstn 64 data :: chunks n' (skipn 64 data)
  end.

(** Compressing the blocks [bs] in order, the counter advanced before each
    as [update] does. *)
Definition compress_all (bs : list (list byte)) (d : digest) : digest :=
  fold_left (fun d b => _Block (bump d) b) bs d.

(** The blocks that [update d data datalen] hands to [_Block], in order:
    the completed buffer when the first branch is taken, then the whole
    blocks of the loop. *)
Definition update_blocks (d : digest) (data : list byte) (datalen : Z)
  : list (list byte) :=
  let left := Z.shiftr (buflen d) 3 in
  let fill := 64 - left in
  if negb (left =? 0) && (fill <=? Z.land (Z.shiftr datalen 3) 0x3F) then
    (firstn (Z.to_nat left) (buf d) ++ firstn (Z.to_nat fill) data)
      :: chunks (Z.to_nat ((datalen - 8 * fill) / 512))
                (skipn (Z.to_nat fill) data)
  else chunks (Z.to_nat (datalen / 512)) data.

(** Well-formed buffer: the array holds 64 bytes and [buflen] counts the
    bits of fewer than 64 whole bytes. *)
Definition Wf (d : digest) : Prop :=
  length (buf d) = 64%nat /\ 0 <= buflen d < 512 /\ buflen d mod 8 = 0.

(** The state of a session between two calls. *)
Record Inv (d : digest) : Prop := mkInv {
  inv_size : hashSize d = 224 \/ hashSize d = 256;
  inv_h : length (h d) = 8%nat;
  inv_wf : Wf d;
  inv_t0 : 0 <= fst (t d) < 2 ^ 32 /\ fst (t d) mod 512 = 0;
  inv_t1 : 0 <= snd (t d) < 2 ^ 32;
  inv_nullt : nullt d = false
}.

(** ** Notions used in the statements *)

Definition core (d : digest) : Z * list Z * list Z * (Z * Z) * bool :=
  (hashSize d, h d, salt d, t d, nullt d).

(** The domain byte of the output width, alone ([dom]) and folded into the
    single padding byte ([dom1]). *)
Definition dom (d : digest) : byte := if hashSize d =? 224 then x00 else x01.
Definition dom1 (d : digest) : byte := if hashSize d =? 224 then x80 else x81.

(** The counter of a session between calls: two words in range, the low one
    a multiple of 512. *)
Definition Tok (d : digest) : Prop :=
  (0 <= fst (t d) < 2 ^ 32 /\ fst (t d) mod 512 = 0) /\ 0 <= snd (t d) < 2 ^ 32.

(** The four salt words of [setSalt] for the bytes [s]. *)
Definition salt_words (s : list byte) : list Z :=
  let b (i : nat) := nth i s x00 in
  [be32 (b 0%nat) (b 1%nat) (b 2%nat) (b 3%nat);
   be32 (b 4%nat) (b 5%nat) (b 6%nat) (b 7%nat);
   be32 (b 8%nat) (b 9%nat) (b 10%nat) (b 11%nat);
   be32 (b 12%nat) (b 13%nat) (b 14%nat) (b 15%nat)].

(** The instances that the four constructors return. *)
Definition constructed (d : digest) : Prop :=
  d = New \/ d = New224 \/
  (exists s, NewSalt s = Ok d) \/ (exists s, New224Salt s = Ok d).

(** [write(m); sum(); write(m2); sum()] on [d]: the second digest. *)
Definition write_sum_write_sum (d : digest) (m m2 : list byte)
  : result (list byte) :=
  '(d, _) <- Write m d ;;
  '(d, _) <- Sum [] d ;;
  '(d, _) <- Write m2 d ;;
  '(_, out) <- Sum [] d ;;
  Ok out.

Definition ex_salt : list byte := bytes_of "SALTsaltSaltSALT".

Definition ex_session : list op :=
  [OpWrite (bytes_of "It's so salty out there!"); OpSum [];
   OpWrite (repeat x01 100); OpReset; OpWrite (bytes_of "Go")].

Definition ex_salted : digest :=
  Eval vm_compute in
    match NewSalt ex_salt with Ok d => d | Panic _ => New end.

Definition ex_state : digest :=
  Eval vm_compute in
    match run ex_session ex_salted with Ok d => d | Panic _ => New end.

(** The state of a fresh 224-bit instance after 55 zero bytes, and its
    private copy after the padding of [Sum]. *)
Definition ex224_55 : digest :=
  Eval vm_compute in
    match run [OpWrite (repeat x00 55)] New224 with
    | Ok d => d
    | Panic _ => New224
    end.

Definition ex224_55_padded : digest :=
  Eval vm_compute in
    match Sum_pad ex224_55 with Ok d => d | Panic _ => New224 end.

(** The state of a fresh 256-bit instance after 55 zero bytes. *)
Definition ex256_55 : digest :=
  Eval vm_compute in
    match run [OpWrite (repeat x00 55)] New with
    | Ok d => d
    | Panic _ => New
    end.

(** ** Notions used in the further properties *)

(** [h.Sum(in)] on [d]: the bytes returned. *)
Definition Sum_bytes (in_ : list byte) (d : digest) : result (list byte) :=
  '(_, out) <- Sum in_ d ;; Ok out.

(** The buffered bytes: the first [buflen / 8] bytes of the buffer. *)
Definition pending (d : digest) : list byte :=
  firstn (Z.to_nat (Z.shiftr (buflen d) 3)) (buf d).

(** The state of a fresh 256-bit instance after the three bytes "abc". *)
Definition ex_abc : digest :=
  Eval vm_compute in
    match run [OpWrite (bytes_of "abc")] New with
    | Ok d => d
    | Panic _ => New
    end.

(** What a state shows to the calls that follow: the fields read by the
    compression, the buffer length and the buffered bytes. *)
Definition same_view (d1 d2 : digest) : Prop :=
  core d1 = core d2 /\ buflen d1 = buflen d2 /\ pending d1 = pending d2.

(** The buffer length and the buffered bytes after
    [update d data datalen], from the buffer length and the buffered bytes
    before it. *)
Definition update_view (d : digest) (data : list byte) (datalen : Z)
  : Z * list byte :=
  let left := Z.shiftr (buflen d) 3 in
  let fill := 64 - left in
  if negb (left =? 0) && (fill <=? Z.land (Z.shiftr datalen 3) 0x3F) then
    let dl := datalen - 8 * fill in
    let rest := skipn (64 * Z.to_nat (dl / 512)) (skipn (Z.to_nat fill) data) in
    (dl mod 512, firstn (Z.to_nat (dl mod 512 / 8)) rest)
  else
    let rest := skipn (64 * Z.to_nat (datalen / 512)) data in
    if 0 <? datalen mod 512
    then (8 * left + datalen mod 512,
          pending d ++ firstn (Z.to_nat (datalen mod 512 / 8)) rest)
    else (0, []).

(** Two results that are both states, well formed and alike to the calls
    that follow. *)
Definition ok_same (r1 r2 : result digest) : Prop :=
  exists e1 e2,
    r1 = Ok e1 /\ r2 = Ok e2 /\ Wf e1 /\ Wf e2 /\ same_view e1 e2.

(** The whole 64-byte blocks of a byte string, and what is left behind
    them. *)
Definition blocks_of (x : list byte) : list (list byte) :=
  chunks (Z.to_nat (len x / 64)) x.

Definition rest_of (x : list byte) : list byte :=
  skipn (64 * Z.to_nat (len x / 64)) x.

(** The writes on which [update] neither loses nor reorders bytes, by the
    number [left] of buffered bytes and the length [n] of the write: the
    buffer is empty, or the length modulo 64 completes the buffer, or the
    bytes only join the buffer. *)
Definition safe_write (left n : Z) : bool :=
  (left =? 0) || (64 - left <=? n mod 64) || ((0 <? n) && (n <? 64 - left)).

(** A sequence of chunks all of whose writes are safe, starting with
    [left] buffered bytes. *)
Fixpoint safe_chunks (left : Z) (ps : list (list byte)) : bool :=
  match ps with
  | [] => true
  | p :: ps' =>
      safe_write left (len p) && safe_chunks ((left + len p) mod 64) ps'
  end.

(** The caller's state after one call, for the revision with the [uint64]
    counter. *)
Definition run_op64 (o : op) (d : Rev64.digest) : result Rev64.digest :=
  match o with
  | OpWrite p => Rev64.write p d
  | OpSum in_ => '(d, _) <- Rev64.Sum in_ d ;; Ok d
  | OpReset => Ok (Rev64.Reset d)
  end.

Fixpoint run64 (os : list op) (d : Rev64.digest) : result Rev64.digest :=
  match os with
  | [] => Ok d
  | o :: os' => d <- run_op64 o d ;; run64 os' d
  end.

(** The two halves of [Write] in the revision with the [uint64] counter:
    the part under [if d.nx > 0], which returns the state and what is left
    of [p], and the part from [n := _Block(d, p)] on. *)
Definition Write_head64 (d : Rev64.digest) (p : list byte)
  : result (Rev64.digest * list byte) :=
  if 0 <? Rev64.nx d then
    let n := len p in
    let n := if BlockSize - Rev64.nx d <? n then BlockSize - Rev64.nx d else n in
    dst <- slice_from (Rev64.x d) (Rev64.nx d) ;;
    b <- copy_at (Rev64.x d) (Rev64.nx d) p ;;
    let d := Rev64.set_x d b in
    let d := Rev64.set_nx d (Rev64.nx d + Z.min (len dst) (len p)) in
    d <- (if Rev64.nx d =? BlockSize then
            '(d, _) <- Rev64._Block d (Rev64.x d) ;;
            Ok (Rev64.set_nx d 0)
          else Ok d) ;;
    p <- slice_from p n ;;
    Ok (d, p)
  else Ok (d, p).

Definition Write_tail64 (nn : Z) (d : Rev64.digest) (p : list byte)
  : result (Rev64.digest * Z) :=
  '(d, n) <- Rev64._Block d p ;;
  p <- slice_from p n ;;
  if 0 <? len p then
    b <- copy_at (Rev64.x d) 0 p ;;
    let d := Rev64.set_x d b in
    Ok (Rev64.set_nx d (Z.min (len (Rev64.x d)) (len p)), nn)
  else Ok (d, nn).

(** A salted 224-bit instance of the revision with the [uint64] counter,
    and its state after a few calls. *)
Definition ex64_salted : Rev64.digest :=
  Eval vm_compute in
    match Rev64.New224Salt ex_salt with Ok d => d | Panic _ => Rev64.New224 end.

Definition ex64_state : Rev64.digest :=
  Eval vm_compute in
    match run64 ex_session ex64_salted with
    | Ok d => d
    | Panic _ => Rev64.New224
    end.

(** [write(m); sum(); write(m2); sum()] on [d] in the revision with the
    [uint64] counter: the second digest. *)
Definition write_sum_write_sum64 (d : Rev64.digest) (m m2 : list byte)
  : result (list byte) :=
  d <- Rev64.write m d ;;
  '(d, _) <- Rev64.Sum [] d ;;
  d <- Rev64.write m2 d ;;
  Rev64.Sum_bytes [] d.

(** ** The two revisions side by side *)

(** The same constructor, with the same salt, in the two revisions. *)
Definition same_constructor (d : digest) (c : Rev64.digest) : Prop :=
  (d = New /\ c = Rev64.New) \/ (d = New224 /\ c = Rev64.New224) \/
  (exists s, NewSalt s = Ok d /\ Rev64.NewSalt s = Ok c) \/
  (exists s, New224Salt s = Ok d /\ Rev64.New224Salt s = Ok c).

(** Two states of a session, one of each revision, that hold the same
    chain value, salt, counter and buffered bytes. *)
Definition agree (d : digest) (c : Rev64.digest) : Prop :=
  Inv d /\ Rev64.Shape (hashSize d) c
  /\ h d = Rev64.h c /\ salt d = Rev64.s c /\ Rev64.nullt c = false
  /\ counter64 d = Rev64.t c /\ pending d = Rev64.pending c.

(** Two private copies inside [Sum], one of each revision: the message
    length is [L] bits, [off] bits of it backed off the counter and not yet
    buffered.  The low counter words agree; the high word matters only
    while the counter is not skipped. *)
Definition alike (L off : Z) (d : digest) (c : Rev64.digest) : Prop :=
  Wf d /\ Rev64.Wf c
  /\ hashSize d = Rev64.hashSize c /\ h d = Rev64.h c /\ salt d = Rev64.s c
  /\ nullt d = Rev64.nullt c /\ pending d = Rev64.pending c
  /\ wrap64 (Rev64.t c + 8 * Rev64.nx c + off) = L
  /\ fst (t d) = wrap32 (Rev64.t c)
  /\ (nullt d = false -> snd (t d) = Z.shiftr L 32 /\ wrap32 L <> 0).

(** ** The first revision of blake256.go

    BLAKE-256 only: no [hashSize], no way to set a salt, [Sum()] without
    an argument.  Its block function unrolls the sixteen message words and
    writes the constants [cst[0] .. cst[7]] as literals; the computation is
    [compress].  It reads [p[0] .. p[63]] and so fails on a shorter
    slice. *)

Module Old.

Record digest : Type := mkDigest {
  h : list Z;          (* [8]uint32 *)
  salt : list Z;       (* [4]uint32 *)
  t : Z * Z;           (* [2]uint32 *)
  nullt : bool;
  buf : list byte;     (* [BlockSize]uint8 *)
  buflen : Z           (* buffer length in bits *)
}.

Definition set_h (d : digest) (x : list Z) : digest :=
  mkDigest x (salt d) (t d) (nullt d) (buf d) (buflen d).
Definition set_t (d : digest) (x : Z * Z) : digest :=
  mkDigest (h d) (salt d) x (nullt d) (buf d) (buflen d).
Definition set_nullt (d : digest) (x : bool) : digest :=
  mkDigest (h d) (salt d) (t d) x (buf d) (buflen d).
Definition set_buf (d : digest) (x : list byte) : digest :=
  mkDigest (h d) (salt d) (t d) (nullt d) x (buflen d).
Definition set_buflen (d : digest) (x : Z) : digest :=
  mkDigest (h d) (salt d) (t d) (nullt d) (buf d) x.

(** [const Size = 32] *)
Definition Size : Z := 32.

(** [func (d *digest) _Block(p []uint8)] *)
Definition _Block (d : digest) (p : list byte) : result digest :=
  if 64 <=? len p then
    Ok (set_h d (compress (h d) (salt d) (fst (t d)) (snd (t d)) (nullt d) p))
  else Panic OutOfRange.

(** [func (d *digest) Reset()]: the eight words of the IV, and zero for
    the counter, the flag, the salt and the buffer length. *)
Definition Reset (d : digest) : digest :=
  mkDigest [0x6A09E667; 0xBB67AE85; 0x3C6EF372; 0xA54FF53A;
            0x510E527F; 0x9B05688C; 0x1F83D9AB; 0x5BE0CD19]
           [0; 0; 0; 0] (0, 0) false (buf d) 0.

(** [d.t[0] += 512; if d.t[0] == 0 { d.t[1]++ }] *)
Definition bump (d : digest) : digest :=
  let d := set_t d (add32 (fst (t d)) 512, snd (t d)) in
  if fst (t d) =? 0 then set_t d (fst (t d), add32 (snd (t d)) 1) else d.

(** [d.t[0] -= n] *)
Definition back_off (d : digest) (n : Z) : digest :=
  set_t d (sub32 (fst (t d)) n, snd (t d)).

(** The loop [for datalen >= 512 { ... d._Block(data); data = data[64:];
    datalen -= 512 }]. *)
Fixpoint update_loop (n : nat) (d : digest) (data : list byte) (datalen : Z)
  : result (digest * list byte * Z) :=
  match n with
  | O => Ok (d, data, datalen)
  | S n' =>
      if 512 <=? datalen then
        let d := bump d in
        d <- _Block d data ;;
        data <- slice_from data 64 ;;
        update_loop n' d data (wrap64 (datalen - 512))
      else Ok (d, data, datalen)
  end.

(** [func (d *digest) update(data []byte, datalen uint64)] *)
Definition update (d : digest) (data : list byte) (datalen : Z) : result digest :=
  let left := Z.shiftr (buflen d) 3 in
  let fill := 64 - left in
  '(d, data, datalen, left) <-
    (if negb (left =? 0) && (fill <=? Z.land (Z.shiftr datalen 3) 0x3F) then
       src <- slice_to data fill ;;
       b <- copy_at (buf d) left src ;;
       let d := set_buf d b in
       let d := bump d in
       d <- _Block d (buf d) ;;
       data <- slice_from data fill ;;
       Ok (d, data, wrap64 (datalen - wrap64 (Z.shiftl fill 3)), 0)
     else Ok (d, data, datalen, left)) ;;
  '(d, data, datalen) <- update_loop (Z.to_nat (datalen / 512)) d data datalen ;;
  if 0 <? datalen then
    b <- copy_at (buf d) left data ;;
    let d := set_buf d b in
    Ok (set_buflen d (Z.shiftl left 3 + datalen))
  else Ok (set_buflen d 0).

(** [func (d *digest) Write(p []byte) (nn int, err os.Error)] *)
Definition Write (p : list byte) (d : digest) : result (digest * Z) :=
  let nn := len p in
  d <- update d p (wrap64 (wrap64 nn * 8)) ;;
  Ok (d, nn).

(** The eight length bytes of [Sum]. *)
Definition msglen (d : digest) : list byte :=
  let ubuflen := wrap32 (buflen d) in
  let lo := add32 (fst (t d)) ubuflen in
  let hi := snd (t d) in
  let hi := if lo <? ubuflen then add32 hi 1 else hi in
  u32to8 hi ++ u32to8 lo.

(** [var padding = []uint8{0x80, 0, ..., 0}], 64 bytes. *)
Definition padding : list byte := x80 :: repeat x00 63.

(** The padding of [Sum], from [if d.buflen == 440] to the end of its
    [else] branch. *)
Definition Sum_pad (d : digest) : result digest :=
  let ubuflen := wrap32 (buflen d) in
  if buflen d =? 440 then (* one padding byte *)
    let d := back_off d 8 in
    update d [x81] 8
  else
    d <- (if buflen d <? 440 then (* enough space to fill the block *)
            let d := if buflen d =? 0 then set_nullt d true else d in
            let d := back_off d (sub32 440 ubuflen) in
            update d padding (wrap64 (440 - buflen d))
          else (* need 2 compressions *)
            let d := back_off d (sub32 512 ubuflen) in
            d <- update d padding (wrap64 (512 - buflen d)) ;;
            let d := back_off d 440 in
            pad1 <- slice_from padding 1 ;;
            d <- update d pad1 440 ;;
            Ok (set_nullt d true)) ;;
    d <- update d [x01] 8 ;;
    Ok (back_off d 8).

(** [func (d0 *digest) Sum() []byte]: works on a copy [d] of [*d0]; the
    state the caller holds after the call is the first component. *)
Definition Sum (d0 : digest) : result (digest * list byte) :=
  let d := d0 in
  let ml := msglen d in
  d <- Sum_pad d ;;
  let d := back_off d 64 in
  d <- update d ml 64 ;;
  out <- make_bytes 32 ;;
  out <- put_words out 0 (h d) ;;
  Ok (d0, out).

(** [func New() hash.Hash]: [d := new(digest); d.Reset()] *)
Definition New : digest :=
  Reset (mkDigest (repeat 0 8) (repeat 0 4) (0, 0) false (repeat x00 64) 0).

(** The calls a caller can make on an instance of this revision. *)
Inductive op : Type :=
| OWrite (p : list byte)
| OSum
| OReset.

Definition run_op (o : op) (d : digest) : result digest :=
  match o with
  | OWrite p => '(d, _) <- Write p d ;; Ok d
  | OSum => '(d, _) <- Sum d ;; Ok d
  | OReset => Ok (Reset d)
  end.

Fixpoint run (os : list op) (d : digest) : result digest :=
  match os with
  | [] => Ok d
  | o :: os' => d <- run_op o d ;; run os' d
  end.

(** [h.Sum()] on [d]: the bytes returned. *)
Definition Sum_bytes (d : digest) : result (list byte) :=
  '(_, out) <- Sum d ;; Ok out.

End Old.

(** The same call on an instance of the canonical revision: [Sum()] is
    [Sum(nil)]. *)
Definition as_op (o : Old.op) : op :=
  match o with
  | Old.OWrite p => OpWrite p
  | Old.OSum => OpSum []
  | Old.OReset => OpReset
  end.

(** A state of the first revision as a state of the canonical one of
    width 256. *)
Definition lift (d : Old.digest) : digest :=
  mkDigest 256 (Old.h d) (Old.salt d) (Old.t d) (Old.nullt d) (Old.buf d)
           (Old.buflen d).

(** * Properties *)

(** ** Integers and bytes *)

Lemma wrap32_range x : 0 <= wrap32 x < 2 ^ 32.
Proof. unfold wrap32. apply Z.mod_pos_bound. lia. Qed.

Lemma wrap32_small x : 0 <= x < 2 ^ 32 -> wrap32 x = x.
Proof. intros. unfold wrap32. apply Z.mod_small. assumption. Qed.

Lemma wrap64_small x : 0 <= x < 2 ^ 64 -> wrap64 x = x.
Proof. intros. unfold wrap64. apply Z.mod_small. assumption. Qed.

Lemma shiftr3 x : Z.shiftr x 3 = x / 8.
Proof. rewrite Z.shiftr_div_pow2 by lia. reflexivity. Qed.

Lemma shiftl3 x : Z.shiftl x 3 = x * 8.
Proof. rewrite Z.shiftl_mul_pow2 by lia. reflexivity. Qed.

Lemma land63 x : Z.land x 0x3F = x mod 64.
Proof. change 0x3F with (Z.ones 6). rewrite Z.land_ones by lia. reflexivity. Qed.

Lemma u8_range b : 0 <= u8 b < 256.
Proof.
  unfold u8. pose proof (Byte.to_N_bounded b) as Hb.
  split; [apply N2Z.is_nonneg|]. lia.
Qed.

Lemma byte_of_u8 b : byte_of_Z (u8 b) = b.
Proof.
  unfold byte_of_Z. rewrite Z.mod_small by apply u8_range.
  unfold u8. rewrite N2Z.id, Byte.of_to_N. reflexivity.
Qed.

Lemma u8_byte_of_Z v : u8 (byte_of_Z v) = v mod 256.
Proof.
  unfold byte_of_Z, u8.
  assert (Hr : 0 <= v mod 256 < 256) by (apply Z.mod_pos_bound; lia).
  destruct (Byte.of_N (Z.to_N (v mod 256))) as [b|] eqn:E.
  - apply Byte.to_of_N in E. rewrite E. rewrite Z2N.id by lia. reflexivity.
  - exfalso. apply Byte.of_N_None_iff in E. lia.
Qed.

Lemma byte_of_Z_eq v b : v mod 256 = u8 b -> byte_of_Z v = b.
Proof.
  intros E. rewrite <- (byte_of_u8 b). unfold byte_of_Z.
  rewrite E. rewrite (Z.mod_small (u8 b)) by apply u8_range. reflexivity.
Qed.

(** A value below [2^k] put under a multiple of [2^k]: [|] is [+]. *)
Lemma lor_high_low x y k :
  0 <= k -> 0 <= y < 2 ^ k -> Z.lor (x * 2 ^ k) y = x * 2 ^ k + y.
Proof.
  intros Hk Hy.
  assert (Hland : Z.land (x * 2 ^ k) y = 0).
  { apply Z.bits_inj'. intros n Hn.
    rewrite Z.land_spec, Z.bits_0.
    destruct (Z.lt_ge_cases n k) as [Hlt|Hge].
    - rewrite Z.mul_pow2_bits_low by assumption. reflexivity.
    - rewrite <- (Z.mod_small y (2 ^ k)) by assumption.
      rewrite Z.mod_pow2_bits_high by lia. apply andb_false_r. }
  rewrite <- Z.lxor_lor by assumption.
  symmetry. apply Z.add_nocarry_lxor. assumption.
Qed.

(** The word assembled from four bytes, most significant first. *)
Lemma be32_value b0 b1 b2 b3 :
  be32 b0 b1 b2 b3 = u8 b0 * 2 ^ 24 + u8 b1 * 2 ^ 16 + u8 b2 * 2 ^ 8 + u8 b3.
Proof.
  pose proof (u8_range b0). pose proof (u8_range b1).
  pose proof (u8_range b2). pose proof (u8_range b3).
  unfold be32, shl32.
  rewrite !Z.shiftl_mul_pow2 by lia.
  rewrite !wrap32_small by lia.
  rewrite <- !Z.lor_assoc.
  rewrite (lor_high_low (u8 b2) (u8 b3) 8) by lia.
  rewrite (lor_high_low (u8 b1) _ 16) by lia.
  rewrite (lor_high_low (u8 b0) _ 24) by lia.
  lia.
Qed.

Lemma be32_range b0 b1 b2 b3 : 0 <= be32 b0 b1 b2 b3 < 2 ^ 32.
Proof.
  rewrite be32_value.
  pose proof (u8_range b0). pose proof (u8_range b1).
  pose proof (u8_range b2). pose proof (u8_range b3). lia.
Qed.

(** Serializing an assembled word gives the four bytes back. *)
Lemma u32to8_be32 b0 b1 b2 b3 : u32to8 (be32 b0 b1 b2 b3) = [b0; b1; b2; b3].
Proof.
  pose proof (u8_range b0). pose proof (u8_range b1).
  pose proof (u8_range b2). pose proof (u8_range b3).
  unfold u32to8. rewrite be32_value, !Z.shiftr_div_pow2 by lia.
  f_equal; [|f_equal; [|f_equal; [|f_equal]]]; apply byte_of_Z_eq.
  - replace (u8 b0 * 2 ^ 24 + u8 b1 * 2 ^ 16 + u8 b2 * 2 ^ 8 + u8 b3)
      with (u8 b0 * 2 ^ 24 + (u8 b1 * 2 ^ 16 + u8 b2 * 2 ^ 8 + u8 b3)) by lia.
    rewrite Z.div_add_l by lia. rewrite (Z.div_small (_ + _)) by lia.
    rewrite Z.mod_small; lia.
  - replace (u8 b0 * 2 ^ 24 + u8 b1 * 2 ^ 16 + u8 b2 * 2 ^ 8 + u8 b3)
      with ((u8 b0 * 2 ^ 8 + u8 b1) * 2 ^ 16 + (u8 b2 * 2 ^ 8 + u8 b3)) by lia.
    rewrite Z.div_add_l by lia. rewrite (Z.div_small (_ + _)) by lia.
    rewrite Z.add_0_r. rewrite Z.add_comm, Z.mod_add by lia.
    apply Z.mod_small. lia.
  - replace (u8 b0 * 2 ^ 24 + u8 b1 * 2 ^ 16 + u8 b2 * 2 ^ 8 + u8 b3)
      with ((u8 b0 * 2 ^ 16 + u8 b1 * 2 ^ 8 + u8 b2) * 2 ^ 8 + u8 b3) by lia.
    rewrite Z.div_add_l by lia. rewrite (Z.div_small (u8 b3)) by lia.
    rewrite Z.add_0_r.
    replace (u8 b0 * 2 ^ 16 + u8 b1 * 2 ^ 8 + u8 b2)
      with (u8 b2 + (u8 b0 * 2 ^ 8 + u8 b1) * 256) by lia.
    rewrite Z.mod_add by lia. apply Z.mod_small. lia.
  - replace (u8 b0 * 2 ^ 24 + u8 b1 * 2 ^ 16 + u8 b2 * 2 ^ 8 + u8 b3)
      with (u8 b3 + (u8 b0 * 2 ^ 16 + u8 b1 * 2 ^ 8 + u8 b2) * 256) by lia.
    rewrite Z.mod_add by lia. apply Z.mod_small. lia.
Qed.

(** ** Slices *)

Arguments compress : simpl never.

Section SliceFacts.
Context {A : Type}.
Implicit Types s dst src : list A.

Lemma len_nonneg s : 0 <= len s.
Proof. unfold len. lia. Qed.

Lemma slice_to_ok s n :
  0 <= n <= len s -> slice_to s n = Ok (firstn (Z.to_nat n) s).
Proof.
  intros H. unfold slice_to.
  replace (0 <=? n) with true by (symmetry; apply Z.leb_le; lia).
  replace (n <=? len s) with true by (symmetry; apply Z.leb_le; lia).
  reflexivity.
Qed.

Lemma slice_from_ok s n :
  0 <= n <= len s -> slice_from s n = Ok (skipn (Z.to_nat n) s).
Proof.
  intros H. unfold slice_from.
  replace (0 <=? n) with true by (symmetry; apply Z.leb_le; lia).
  replace (n <=? len s) with true by (symmetry; apply Z.leb_le; lia).
  reflexivity.
Qed.

Lemma copy_at_ok dst off src :
  0 <= off <= len dst ->
  copy_at dst off src =
  Ok (firstn (Z.to_nat off) dst
      ++ firstn (length dst - Z.to_nat off) src
      ++ skipn (Z.to_nat off + length (firstn (length dst - Z.to_nat off) src)) dst).
Proof.
  intros H. unfold copy_at.
  replace (0 <=? off) with true by (symmetry; apply Z.leb_le; lia).
  replace (off <=? len dst) with true by (symmetry; apply Z.leb_le; lia).
  reflexivity.
Qed.

(** [copy] keeps the length of the destination array. *)
Lemma copy_at_length dst off src b :
  copy_at dst off src = Ok b -> length b = length dst.
Proof.
  unfold copy_at.
  destruct ((0 <=? off) && (off <=? len dst)) eqn:E; [|discriminate].
  apply andb_prop in E. destruct E as [E1 E2].
  apply Z.leb_le in E1, E2. unfold len in E2.
  intros [= <-]. rewrite !length_app, length_skipn, !length_firstn. lia.
Qed.

Lemma len_firstn s n : 0 <= n <= len s -> len (firstn (Z.to_nat n) s) = n.
Proof. unfold len. intros H. rewrite length_firstn. lia. Qed.

Lemma len_skipn s n : 0 <= n <= len s -> len (skipn (Z.to_nat n) s) = len s - n.
Proof. unfold len. intros H. rewrite length_skipn. lia. Qed.
End SliceFacts.

(** ** The fields that a compression reads and writes *)

Lemma core_step d1 d2 b :
  core d1 = core d2 -> core (_Block (bump d1) b) = core (_Block (bump d2) b).
Proof.
  destruct d1, d2. unfold core. simpl. intros [= -> -> -> -> ->].
  unfold _Block, bump. simpl.
  destruct (add32 _ 512 =? 0); reflexivity.
Qed.

Lemma core_compress_all bs : forall d1 d2,
  core d1 = core d2 -> core (compress_all bs d1) = core (compress_all bs d2).
Proof.
  induction bs as [|b bs IH]; intros d1 d2 E; simpl; [assumption|].
  apply IH. apply core_step. assumption.
Qed.

Lemma buf_compress_all bs : forall d,
  buf (compress_all bs d) = buf d /\ buflen (compress_all bs d) = buflen d.
Proof.
  induction bs as [|b bs IH]; intros d; simpl; [split; reflexivity|].
  destruct (IH (_Block (bump d) b)) as [-> ->].
  unfold _Block, bump. destruct d. simpl.
  destruct (add32 _ 512 =? 0); split; reflexivity.
Qed.

Lemma compress_all_app bs1 bs2 d :
  compress_all (bs1 ++ bs2) d = compress_all bs2 (compress_all bs1 d).
Proof. unfold compress_all. apply fold_left_app. Qed.

(** ** The loop of [update] *)

Lemma update_loop_spec n : forall d data datalen,
  n = Z.to_nat (datalen / 512) ->
  0 <= datalen < 2 ^ 64 ->
  datalen <= 8 * len data ->
  update_loop n d data datalen =
  Ok (compress_all (chunks n data) d,
      skipn (64 * n) data,
      datalen mod 512).
Proof.
  induction n as [|n IH]; intros d data datalen Hn Hd Hlen.
  - simpl. f_equal. f_equal.
    assert (datalen / 512 <= 0) by lia.
    assert (0 <= datalen / 512) by (apply Z.div_pos; lia).
    symmetry. rewrite Z.mod_small; [reflexivity|].
    pose proof (Z.div_mod datalen 512 ltac:(lia)).
    pose proof (Z.mod_pos_bound datalen 512 ltac:(lia)). lia.
  - assert (Hq : datalen / 512 = Z.of_nat (S n)) by lia.
    pose proof (Z.div_mod datalen 512 ltac:(lia)) as Hdm.
    pose proof (Z.mod_pos_bound datalen 512 ltac:(lia)) as Hm.
    assert (H512 : 512 <= datalen) by lia.
    cbn [update_loop].
    replace (512 <=? datalen) with true by (symmetry; apply Z.leb_le; lia).
    rewrite slice_to_ok by lia. cbn [bind].
    rewrite slice_from_ok by lia. cbn [bind].
    rewrite wrap64_small by lia.
    assert (Hdiv : (datalen - 512) / 512 = datalen / 512 - 1).
    { replace (datalen - 512) with (datalen + (-1) * 512) by lia.
      rewrite Z.div_add by lia. lia. }
    assert (Hmod : (datalen - 512) mod 512 = datalen mod 512).
    { replace (datalen - 512) with (datalen + (-1) * 512) by lia.
      apply Z.mod_add. lia. }
    rewrite IH.
    + rewrite Hmod. change (Z.to_nat 64) with 64%nat.
      cbn [chunks compress_all fold_left].
      rewrite skipn_skipn. do 4 f_equal. lia.
    + lia.
    + lia.
    + rewrite len_skipn by lia. lia.
Qed.

(** ** [update] on a well-formed state *)

Lemma Wf_left d :
  Wf d -> 0 <= Z.shiftr (buflen d) 3 < 64 /\ buflen d = 8 * Z.shiftr (buflen d) 3.
Proof.
  intros (_ & Hr & Hm). rewrite shiftr3.
  pose proof (Z.div_mod (buflen d) 8 ltac:(lia)). lia.
Qed.

Lemma mod512_mod8 x : (x mod 512) mod 8 = x mod 8.
Proof. apply Z.mod_mod_divide. exists 64. reflexivity. Qed.

Lemma buf_bump d : buf (bump d) = buf d.
Proof. unfold bump. cbn. destruct (add32 _ 512 =? 0); reflexivity. Qed.

Lemma buflen_bump d : buflen (bump d) = buflen d.
Proof. unfold bump. cbn. destruct (add32 _ 512 =? 0); reflexivity. Qed.

Lemma update_spec d data datalen :
  Wf d ->
  0 <= datalen < 2 ^ 64 -> datalen mod 8 = 0 -> datalen <= 8 * len data ->
  exists d',
    update d data datalen = Ok d' /\ Wf d' /\
    core d' = core (compress_all (update_blocks d data datalen) d).
Proof.
  intros HWf Hd Hd8 Hlen.
  destruct (Wf_left d HWf) as [Hl Hbl]. destruct HWf as (Hbuf & Hr & Hm).
  unfold update, update_blocks.
  set (left := Z.shiftr (buflen d) 3) in *.
  assert (Hk : datalen = 8 * (datalen / 8)).
  { pose proof (Z.div_mod datalen 8 ltac:(lia)). lia. }
  rewrite shiftr3, land63.
  set (k := datalen / 8) in *.
  assert (Hk0 : 0 <= k) by lia.
  pose proof (Z.mod_pos_bound k 64 ltac:(lia)) as Hk64.
  pose proof (Z.div_mod k 64 ltac:(lia)) as Hkdm.
  assert (Hkq : 0 <= k / 64) by (apply Z.div_pos; lia).
  destruct (negb (left =? 0) && (64 - left <=? k mod 64)) eqn:E.
  - apply andb_prop in E. destruct E as [E1 E2].
    apply negb_true_iff, Z.eqb_neq in E1. apply Z.leb_le in E2.
    assert (Hfill : 64 - left <= k) by lia.
    rewrite slice_to_ok by (unfold len in *; lia). cbn [bind].
    rewrite copy_at_ok by (unfold len; lia). cbn [bind].
    rewrite slice_from_ok by (unfold len in *; lia). cbn [bind].
    rewrite shiftl3. rewrite (wrap64_small ((64 - left) * 8)) by lia.
    rewrite wrap64_small by lia.
    rewrite update_loop_spec; [| | lia |].
    2:{ reflexivity. }
    2:{ rewrite len_skipn by (unfold len in *; lia). lia. }
    cbn [bind].
    set (b := firstn (Z.to_nat left) (buf d) ++ _).
    assert (Hb : b = firstn (Z.to_nat left) (buf d)
                     ++ firstn (Z.to_nat (64 - left)) data).
    { subst b. f_equal.
      rewrite Hbuf.
      replace (64 - Z.to_nat left)%nat with (Z.to_nat (64 - left)) by lia.
      rewrite firstn_firstn, Nat.min_id.
      rewrite length_firstn.
      rewrite skipn_all2; [apply app_nil_r|].
      unfold len in *. lia. }
    assert (Hlb : length b = 64%nat).
    { rewrite Hb, length_app, !length_firstn. unfold len in *. lia. }
    replace (8 * (64 - left)) with ((64 - left) * 8) by lia.
    set (blocks := chunks _ _).
    set (d1 := compress_all blocks _).
    assert (Hc1 : core d1 = core (compress_all (b :: blocks) d)).
    { subst d1. cbn [compress_all fold_left].
      apply core_compress_all. rewrite buf_bump. cbn [buf set_buf].
      apply core_step. reflexivity. }
    assert (Hb1 : buf d1 = b /\ buflen d1 = buflen d).
    { subst d1. destruct (buf_compress_all blocks
        (_Block (bump (set_buf d b)) (buf (bump (set_buf d b))))) as [-> ->].
      cbn [_Block set_h buf buflen]. rewrite buf_bump, buflen_bump.
      split; reflexivity. }
    rewrite <- Hb. destruct Hb1 as [Hb1 Hb2].
    pose proof (Z.mod_pos_bound (datalen - (64 - left) * 8) 512 ltac:(lia)) as Hr1.
    assert (Hr8 : ((datalen - (64 - left) * 8) mod 512) mod 8 = 0).
    { rewrite mod512_mod8, Hk.
      replace (8 * k - (64 - left) * 8) with ((k - (64 - left)) * 8) by lia.
      apply Z.mod_mul. lia. }
    destruct (0 <? (datalen - (64 - left) * 8) mod 512) eqn:E3.
    + rewrite copy_at_ok by (unfold len; rewrite Hb1, Hlb; lia). cbn [bind].
      eexists. split; [reflexivity|]. split.
      * unfold Wf; cbn [buf buflen set_buf set_buflen]. split; [|split].
        -- rewrite Hb1. rewrite !length_app, length_skipn, !length_firstn.
           rewrite Hlb. lia.
        -- rewrite shiftl3. lia.
        -- rewrite shiftl3. assumption.
      * rewrite <- Hc1. destruct d1; reflexivity.
    + eexists. split; [reflexivity|]. split.
      * unfold Wf; cbn [buf buflen set_buf set_buflen]. rewrite Hb1, Hlb. repeat split; lia.
      * rewrite <- Hc1. destruct d1; reflexivity.
  - cbn [bind].
    rewrite update_loop_spec; [| reflexivity | lia | lia]. cbn [bind].
    set (blocks := chunks _ _).
    set (d1 := compress_all blocks d).
    destruct (buf_compress_all blocks d) as [Hb1 Hb2]. fold d1 in Hb1, Hb2.
    pose proof (Z.mod_pos_bound datalen 512 ltac:(lia)) as Hr1.
    assert (Hr8 : (datalen mod 512) mod 8 = 0).
    { rewrite mod512_mod8. assumption. }
    assert (Hsmall : Z.shiftl left 3 + datalen mod 512 < 512).
    { rewrite shiftl3.
      assert (Hdm : datalen mod 512 = 8 * (k mod 64)).
      { rewrite Hk. replace 512 with (8 * 64) by lia.
        rewrite Zmult_mod_distr_l. reflexivity. }
      apply andb_false_iff in E. destruct E as [E|E].
      - apply negb_false_iff, Z.eqb_eq in E. lia.
      - apply Z.leb_gt in E. lia. }
    destruct (0 <? datalen mod 512) eqn:E3.
    + rewrite copy_at_ok by (unfold len; rewrite Hb1, Hbuf; lia). cbn [bind].
      eexists. split; [reflexivity|]. split.
      * unfold Wf; cbn [buf buflen set_buf set_buflen]. split; [|split].
        -- rewrite Hb1. rewrite !length_app, length_skipn, !length_firstn.
           rewrite Hbuf. lia.
        -- rewrite shiftl3 in *. lia.
        -- rewrite shiftl3. rewrite Z.add_comm, Z.mod_add by lia. assumption.
      * destruct d1; reflexivity.
    + eexists. split; [reflexivity|]. split.
      * unfold Wf; cbn [buf buflen set_buf set_buflen]. rewrite Hb1, Hbuf. repeat split; lia.
      * destruct d1; reflexivity.
Qed.

(** Fewer bytes than the buffer has room for: they are copied, nothing is
    compressed.  [copy] moves as much of [data] as the array takes, also
    beyond the [n] bytes that [datalen] counts. *)
Lemma update_buffer d data n :
  Wf d -> 0 < n -> Z.shiftr (buflen d) 3 + n < 64 ->
  update d data (8 * n) =
  Ok (set_buflen
        (set_buf d
           (firstn (Z.to_nat (Z.shiftr (buflen d) 3)) (buf d)
            ++ firstn (64 - Z.to_nat (Z.shiftr (buflen d) 3)) data
            ++ skipn (Z.to_nat (Z.shiftr (buflen d) 3)
                      + length (firstn (64 - Z.to_nat (Z.shiftr (buflen d) 3)) data))
                     (buf d)))
        (buflen d + 8 * n)).
Proof.
  intros HWf Hn Hroom.
  destruct (Wf_left d HWf) as [Hl Hbl]. destruct HWf as (Hbuf & Hr & Hm).
  unfold update.
  set (left := Z.shiftr (buflen d) 3) in *.
  rewrite shiftr3, land63.
  replace (8 * n / 8) with n by (rewrite Z.mul_comm, Z.div_mul; lia).
  rewrite (Z.mod_small n 64) by lia.
  replace (negb (left =? 0) && (64 - left <=? n)) with false.
  2:{ symmetry. apply andb_false_iff. right. apply Z.leb_gt. lia. }
  cbn [bind].
  rewrite (Z.div_small (8 * n) 512) by lia.
  cbn [Z.to_nat update_loop bind].
  replace (0 <? 8 * n) with true by (symmetry; apply Z.ltb_lt; lia).
  rewrite copy_at_ok by (unfold len; lia). cbn [bind].
  rewrite Hbuf, shiftl3. do 2 f_equal. lia.
Qed.

(** Exactly the bytes that complete the buffer: one block is compressed and
    the buffer is empty again. *)
Lemma update_fill d data :
  Wf d -> Z.shiftr (buflen d) 3 <> 0 -> 64 - Z.shiftr (buflen d) 3 <= len data ->
  update d data (8 * (64 - Z.shiftr (buflen d) 3)) =
  let b := firstn (Z.to_nat (Z.shiftr (buflen d) 3)) (buf d)
           ++ firstn (Z.to_nat (64 - Z.shiftr (buflen d) 3)) data in
  Ok (set_buflen (_Block (bump (set_buf d b)) b) 0).
Proof.
  intros HWf Hne Hdata.
  destruct (Wf_left d HWf) as [Hl Hbl]. destruct HWf as (Hbuf & Hr & Hm).
  unfold update.
  set (left := Z.shiftr (buflen d) 3) in *.
  rewrite shiftr3, land63.
  replace (8 * (64 - left) / 8) with (64 - left)
    by (rewrite Z.mul_comm, Z.div_mul; lia).
  rewrite (Z.mod_small (64 - left) 64) by lia.
  replace (negb (left =? 0) && (64 - left <=? 64 - left)) with true.
  2:{ symmetry. apply andb_true_iff. split.
      - apply negb_true_iff, Z.eqb_neq. assumption.
      - apply Z.leb_refl. }
  rewrite slice_to_ok by lia. cbn [bind].
  rewrite copy_at_ok by (unfold len; lia). cbn [bind].
  rewrite slice_from_ok by lia. cbn [bind].
  rewrite shiftl3, (wrap64_small ((64 - left) * 8)) by lia.
  replace (8 * (64 - left) - (64 - left) * 8) with 0 by lia.
  rewrite wrap64_small by lia.
  cbn [Z.div Z.div_eucl fst Z.to_nat update_loop bind Z.ltb Z.compare].
  rewrite buf_bump. cbn [buf set_buf].
  set (b := firstn (Z.to_nat left) (buf d) ++ _).
  assert (Hb : b = firstn (Z.to_nat left) (buf d)
                   ++ firstn (Z.to_nat (64 - left)) data).
  { subst b. f_equal. rewrite Hbuf.
    replace (64 - Z.to_nat left)%nat with (Z.to_nat (64 - left)) by lia.
    rewrite firstn_firstn, Nat.min_id, length_firstn.
    rewrite skipn_all2; [apply app_nil_r|]. unfold len in *. lia. }
  rewrite Hb. reflexivity.
Qed.

(** ** The padding of [Sum] *)

Lemma Wf_back_off d n : Wf d -> Wf (back_off d n).
Proof. intros H. exact H. Qed.

Lemma Wf_set_nullt d b : Wf d -> Wf (set_nullt d b).
Proof. intros H. exact H. Qed.

Lemma shiftr3_8 x : Z.shiftr (8 * x) 3 = x.
Proof. rewrite shiftr3, Z.mul_comm, Z.div_mul; lia. Qed.

(** A buffer of 55 bytes: one padding byte, after the counter has been
    decremented by 8. *)
Lemma Sum_pad_440 d :
  Wf d -> buflen d = 440 ->
  Sum_pad d =
  Ok (set_buflen
        (set_buf (back_off d 8)
                 (firstn 55 (buf d) ++ [dom1 d] ++ skipn 56 (buf d)))
        448).
Proof.
  intros HWf H440. unfold Sum_pad, dom1. rewrite H440. cbn [Z.eqb Pos.eqb].
  cbn [hashSize back_off set_t].
  assert (HWf' : Wf (back_off d 8)) by (apply Wf_back_off; assumption).
  assert (E : forall x, update (back_off d 8) [x] 8 =
    Ok (set_buflen (set_buf (back_off d 8)
                      (firstn 55 (buf d) ++ [x] ++ skipn 56 (buf d))) 448)).
  { intros x. change 8 with (8 * 1) at 2.
    rewrite update_buffer;
      cbn [buflen buf back_off set_t]; rewrite ?H440; try assumption;
      [reflexivity | lia | reflexivity]. }
  destruct (hashSize d =? 224); apply E.
Qed.

Lemma update_buffer_props d data n :
  Wf d -> 0 < n -> Z.shiftr (buflen d) 3 + n < 64 ->
  exists d',
    update d data (8 * n) = Ok d' /\ Wf d' /\
    buflen d' = buflen d + 8 * n /\ core d' = core d /\
    firstn (Z.to_nat (Z.shiftr (buflen d) 3)) (buf d')
    = firstn (Z.to_nat (Z.shiftr (buflen d) 3)) (buf d).
Proof.
  intros HWf Hn Hroom. rewrite update_buffer by assumption.
  destruct (Wf_left d HWf) as [Hl Hbl]. destruct HWf as (Hbuf & Hr & Hm).
  set (left := Z.shiftr (buflen d) 3) in *.
  eexists. split; [reflexivity|].
  unfold Wf. cbn [buf buflen set_buf set_buflen].
  split; [split; [|split]|split; [|split]].
  - rewrite !length_app, length_skipn, !length_firstn. lia.
  - lia.
  - replace (buflen d + 8 * n) with (buflen d + n * 8) by lia.
    rewrite Z.mod_add by lia. assumption.
  - reflexivity.
  - reflexivity.
  - rewrite firstn_app, firstn_firstn, Nat.min_id, length_firstn.
    replace (Z.to_nat left - Nat.min (Z.to_nat left) (length (buf d)))%nat
      with 0%nat by lia.
    apply app_nil_r.
Qed.

(** One byte written into a buffer with room for it lands right after the
    buffered bytes. *)
Lemma update_byte d x :
  Wf d -> Z.shiftr (buflen d) 3 + 1 < 64 ->
  exists d',
    update d [x] 8 = Ok d' /\ Wf d' /\
    buflen d' = buflen d + 8 /\ core d' = core d /\
    nth (Z.to_nat (Z.shiftr (buflen d) 3)) (buf d') x00 = x /\
    firstn (Z.to_nat (Z.shiftr (buflen d) 3)) (buf d')
    = firstn (Z.to_nat (Z.shiftr (buflen d) 3)) (buf d).
Proof.
  intros HWf Hroom.
  pose proof (update_buffer d [x] 1 HWf ltac:(lia) Hroom) as Hu.
  destruct (update_buffer_props d [x] 1 HWf ltac:(lia) Hroom)
    as (d' & Hu2 & HWf' & Hbl' & Hc & Hpre).
  assert (Hu3 := Hu2). rewrite Hu in Hu2.
  apply (f_equal (fun r => match r with Ok e => buf e | Panic _ => [] end))
    in Hu2.
  cbn [buf set_buf set_buflen] in Hu2.
  exists d'.
  split; [exact Hu3|]. split; [assumption|]. split; [lia|].
  split; [assumption|]. split; [|assumption].
  rewrite <- Hu2.
  destruct (Wf_left d HWf) as [Hl _]. destruct HWf as (Hbuf & _).
  set (left := Z.shiftr (buflen d) 3) in *.
  rewrite app_nth2 by (rewrite length_firstn; lia).
  rewrite length_firstn.
  replace (Z.to_nat left - Nat.min (Z.to_nat left) (length (buf d)))%nat
    with 0%nat by lia.
  replace (64 - Z.to_nat left)%nat with (S (63 - Z.to_nat left)) by lia.
  reflexivity.
Qed.

Lemma length_compress hh s t0 t1 n p : length (compress hh s t0 t1 n p) = 8%nat.
Proof. reflexivity. Qed.

Lemma core_bump_frame d :
  hashSize (bump d) = hashSize d /\ salt (bump d) = salt d /\
  nullt (bump d) = nullt d /\ h (bump d) = h d.
Proof. unfold bump. cbn. destruct (add32 _ 512 =? 0); repeat split. Qed.

Lemma update_fill_props d data :
  Wf d -> Z.shiftr (buflen d) 3 <> 0 -> 64 - Z.shiftr (buflen d) 3 <= len data ->
  exists d',
    update d data (8 * (64 - Z.shiftr (buflen d) 3)) = Ok d' /\ Wf d' /\
    buflen d' = 0 /\ hashSize d' = hashSize d /\ salt d' = salt d /\
    nullt d' = nullt d /\ length (h d') = 8%nat.
Proof.
  intros HWf Hne Hdata. rewrite update_fill by assumption. cbv zeta.
  destruct (Wf_left d HWf) as [Hl Hbl]. destruct HWf as (Hbuf & Hr & Hm).
  set (left := Z.shiftr (buflen d) 3) in *.
  set (b := firstn _ _ ++ _).
  eexists. split; [reflexivity|].
  destruct (core_bump_frame (set_buf d b)) as (Hs & Hsalt & Hnull & _).
  unfold Wf. cbn [buf buflen set_buflen _Block set_h hashSize salt nullt h].
  rewrite buf_bump, Hs, Hsalt, Hnull. cbn [buf set_buf hashSize salt nullt].
  repeat split; try lia.
  subst b. rewrite length_app, !length_firstn. unfold len in *. lia.
Qed.

Lemma core_fields d1 d2 :
  core d1 = core d2 ->
  hashSize d1 = hashSize d2 /\ h d1 = h d2 /\ salt d1 = salt d2 /\
  t d1 = t d2 /\ nullt d1 = nullt d2.
Proof. unfold core. intros [= -> -> -> -> ->]. repeat split. Qed.

Lemma update_dom d :
  (if hashSize d =? 224 then update d [x00] 8 else update d [x01] 8)
  = update d [dom d] 8.
Proof. unfold dom. destruct (hashSize d =? 224); reflexivity. Qed.

(** Any other buffer: after the padding the buffer holds 55 bytes and the
    domain byte of the width is written behind them. *)
Lemma Sum_pad_other d :
  Wf d -> buflen d <> 440 ->
  exists dp,
    Sum_pad d = Ok dp /\ Wf dp /\ buflen dp = 448 /\
    nth 55 (buf dp) x00 = dom d /\
    hashSize dp = hashSize d /\ salt dp = salt d /\
    (length (h d) = 8%nat -> length (h dp) = 8%nat).
Proof.
  intros HWf Hne.
  destruct (Wf_left d HWf) as [Hl Hbl].
  pose proof HWf as (Hbuf & Hr & Hm).
  unfold Sum_pad.
  replace (buflen d =? 440) with false by (symmetry; apply Z.eqb_neq; assumption).
  rewrite (wrap32_small (buflen d)) by lia.
  set (left := Z.shiftr (buflen d) 3) in *.
  assert (Hfin : forall dA,
    Wf dA -> buflen dA = 440 -> hashSize dA = hashSize d -> salt dA = salt d ->
    (length (h d) = 8%nat -> length (h dA) = 8%nat) ->
    exists dp,
      (d0 <- (if hashSize dA =? 224 then update dA [x00] 8 else update dA [x01] 8) ;;
       Ok (back_off d0 8)) = Ok dp /\ Wf dp /\ buflen dp = 448 /\
      nth 55 (buf dp) x00 = dom d /\
      hashSize dp = hashSize d /\ salt dp = salt d /\
      (length (h d) = 8%nat -> length (h dp) = 8%nat)).
  { intros dA HWfA HblA HsA HsaltA HhA.
    rewrite update_dom.
    destruct (update_byte dA (dom dA) HWfA) as (dB & Hu & HWfB & HblB & Hc & Hn & _).
    { rewrite HblA. reflexivity. }
    rewrite Hu. cbn [bind]. eexists. split; [reflexivity|].
    apply core_fields in Hc. destruct Hc as (Hc1 & Hc2 & Hc3 & _).
    rewrite HblA in Hn. change (Z.to_nat (Z.shiftr 440 3)) with 55%nat in Hn.
    cbn [back_off set_t buf buflen hashSize salt h].
    split; [exact HWfB|]. split; [lia|].
    split; [rewrite Hn; unfold dom; rewrite HsA; reflexivity|].
    split; [congruence|]. split; [congruence|].
    intros H8. rewrite Hc2. auto. }
  destruct (buflen d <? 440) eqn:E.
  - apply Z.ltb_lt in E.
    set (d1 := if buflen d =? 0 then set_nullt d true else d).
    assert (Hd1 : Wf d1 /\ buflen d1 = buflen d /\ hashSize d1 = hashSize d /\
                  salt d1 = salt d /\ h d1 = h d).
    { subst d1. destruct (buflen d =? 0);
        (split; [exact HWf|]); repeat split; reflexivity. }
    destruct Hd1 as (HWf1 & Hbl1 & Hs1 & Hsalt1 & Hh1).
    set (d2 := back_off d1 _).
    assert (HWf2 : Wf d2) by (apply Wf_back_off; assumption).
    assert (Hbl2 : buflen d2 = buflen d) by exact Hbl1.
    rewrite Hbl2, (wrap64_small (440 - buflen d)) by lia.
    replace (440 - buflen d) with (8 * (55 - left)) by lia.
    destruct (update_buffer_props d2 pad (55 - left) HWf2)
      as (dA & Hu & HWfA & HblA & Hc & _).
    { lia. }
    { rewrite Hbl2. fold left. lia. }
    rewrite Hu. cbn [bind].
    apply core_fields in Hc. destruct Hc as (Hc1 & Hc2 & Hc3 & _).
    cbn [d2 back_off set_t buflen hashSize salt h] in *.
    apply Hfin; try assumption; try congruence.
    rewrite HblA, Hbl1. lia.
  - apply Z.ltb_ge in E.
    set (d2 := back_off d _).
    assert (HWf2 : Wf d2) by (apply Wf_back_off; assumption).
    assert (Hbl2 : buflen d2 = buflen d) by reflexivity.
    rewrite Hbl2, (wrap64_small (512 - buflen d)) by lia.
    replace (512 - buflen d) with (8 * (64 - Z.shiftr (buflen d2) 3))
      by (rewrite Hbl2; fold left; lia).
    destruct (update_fill_props d2 pad HWf2)
      as (dA & Hu & HWfA & HblA & HsA & HsaltA & _ & HhA).
    { rewrite Hbl2. fold left. lia. }
    { rewrite Hbl2. fold left. change (len pad) with 64. lia. }
    change (hashSize d2) with (hashSize d) in HsA.
    change (salt d2) with (salt d) in HsaltA.
    rewrite Hu. cbn [bind].
    change (slice_from pad 1) with (Ok (repeat x00 63)). cbn [bind].
    assert (HWfA' : Wf (back_off dA 440)) by (apply Wf_back_off; assumption).
    change 440 with (8 * 55) at 2.
    destruct (update_buffer_props (back_off dA 440) (repeat x00 63) 55 HWfA')
      as (dB & HuB & HWfB & HblB & HcB & _).
    { lia. }
    { cbn [back_off set_t buflen]. rewrite HblA. reflexivity. }
    rewrite HuB. cbn [bind].
    apply core_fields in HcB. destruct HcB as (Hc1 & Hc2 & Hc3 & _).
    cbn [back_off set_t buflen hashSize salt h] in *.
    apply Hfin.
    + apply Wf_set_nullt. assumption.
    + cbn [set_nullt buflen]. lia.
    + cbn [set_nullt hashSize]. congruence.
    + cbn [set_nullt salt]. congruence.
    + intros _. cbn [set_nullt h]. congruence.
Qed.

(** ** The last block and the serialization *)

Lemma length_msglen d : length (msglen d) = 8%nat.
Proof. reflexivity. Qed.

(** The length bytes complete the block that holds the 55 padded bytes and
    the domain byte, and that block is compressed. *)
Lemma Sum_final dp ml :
  Wf dp -> buflen dp = 448 -> length ml = 8%nat ->
  update (back_off dp 64) ml 64 =
  let b := firstn 56 (buf dp) ++ ml in
  Ok (set_buflen (_Block (bump (set_buf (back_off dp 64) b)) b) 0).
Proof.
  intros HWf Hbl Hml.
  pose proof (update_fill (back_off dp 64) ml (Wf_back_off dp 64 HWf)) as H.
  cbn [back_off set_t buflen buf] in H. rewrite Hbl in H.
  change (Z.shiftr 448 3) with 56 in H.
  specialize (H ltac:(lia) ltac:(unfold len; lia)).
  change (8 * (64 - 56)) with 64 in H. rewrite H. cbv zeta.
  change (Z.to_nat 56) with 56%nat. change (Z.to_nat (64 - 56)) with 8%nat.
  rewrite <- Hml, firstn_all. reflexivity.
Qed.

Lemma list8 (A : Type) (l : list A) :
  length l = 8%nat ->
  exists a b c d e f g i, l = [a; b; c; d; e; f; g; i].
Proof.
  intros H.
  destruct l as [|a [|b [|c [|d [|e [|f [|g [|i [|]]]]]]]]]; try discriminate.
  repeat eexists.
Qed.

(** All eight chain words for the 256-bit width. *)
Lemma Sum_out_256 d :
  hashSize d = 256 -> length (h d) = 8%nat ->
  Sum_out d = Ok (flat_map u32to8 (h d)).
Proof.
  intros Hs Hh. unfold Sum_out, Size. rewrite Hs.
  destruct (list8 _ _ Hh) as (a & b & c & e & f & g & i & j & ->).
  reflexivity.
Qed.

(** The first seven chain words for the 224-bit width. *)
Lemma Sum_out_224 d :
  hashSize d = 224 -> length (h d) = 8%nat ->
  Sum_out d = Ok (flat_map u32to8 (firstn 7 (h d))).
Proof.
  intros Hs Hh. unfold Sum_out, Size. rewrite Hs.
  destruct (list8 _ _ Hh) as (a & b & c & e & f & g & i & j & ->).
  reflexivity.
Qed.

Lemma length_flat_u32to8 ws :
  length (flat_map u32to8 ws) = (4 * length ws)%nat.
Proof. induction ws as [|w ws IH]; simpl; lia. Qed.

(** ** The counter *)

(** [d.t[0] += 512; if d.t[0] == 0 { d.t[1]++ }]: the low word wraps to 0
    exactly when it overflows, and then the high word is incremented. *)
Lemma bump_t d :
  Tok d ->
  t (bump d) =
  if fst (t d) + 512 <? 2 ^ 32 then (fst (t d) + 512, snd (t d))
  else (0, wrap32 (snd (t d) + 1)).
Proof.
  intros [[Hr Hm] Hr1]. unfold bump, add32. cbn [t set_t fst snd].
  pose proof (Z.div_mod (fst (t d)) 512 ltac:(lia)) as Hdm.
  destruct (fst (t d) + 512 <? 2 ^ 32) eqn:E.
  - apply Z.ltb_lt in E. rewrite wrap32_small by lia.
    replace (fst (t d) + 512 =? 0) with false by (symmetry; apply Z.eqb_neq; lia).
    reflexivity.
  - apply Z.ltb_ge in E.
    assert (Ht : fst (t d) = 2 ^ 32 - 512).
    { assert (fst (t d) / 512 < 2 ^ 23) by (apply Z.div_lt_upper_bound; lia).
      lia. }
    rewrite Ht. reflexivity.
Qed.

Lemma bump_counter64 d :
  Tok d -> Tok (bump d) /\ counter64 (bump d) = (counter64 d + 512) mod 2 ^ 64.
Proof.
  intros HT. pose proof (bump_t d HT) as Hb.
  destruct HT as [[Hr Hm] Hr1]. unfold Tok, counter64. rewrite Hb.
  destruct (fst (t d) + 512 <? 2 ^ 32) eqn:E; cbn [fst snd].
  - apply Z.ltb_lt in E. repeat split; try lia.
    + rewrite <- Z.add_mod_idemp_r by lia. rewrite Z.mod_same by lia.
      rewrite Z.add_0_r. assumption.
    + rewrite Z.mod_small by nia. lia.
  - apply Z.ltb_ge in E. pose proof (wrap32_range (snd (t d) + 1)).
    assert (Ht : fst (t d) = 2 ^ 32 - 512).
    { pose proof (Z.div_mod (fst (t d)) 512 ltac:(lia)) as Hdm.
      assert (fst (t d) / 512 < 2 ^ 23) by (apply Z.div_lt_upper_bound; lia).
      lia. }
    repeat split; try lia.
    rewrite Ht. unfold wrap32.
    replace (snd (t d) * 2 ^ 32 + (2 ^ 32 - 512) + 512)
      with ((snd (t d) + 1) * 2 ^ 32) by lia.
    change (2 ^ 64) with (2 ^ 32 * 2 ^ 32).
    rewrite Z.add_0_r, Z.mul_mod_distr_r by lia. reflexivity.
Qed.

Lemma t_Block d b : t (_Block d b) = t d.
Proof. reflexivity. Qed.

(** The counter advances by exactly 512 for each block compressed. *)
Lemma compress_all_counter bs : forall d,
  Tok d ->
  Tok (compress_all bs d) /\
  counter64 (compress_all bs d) = (counter64 d + 512 * len bs) mod 2 ^ 64.
Proof.
  induction bs as [|b bs IH]; intros d HT.
  - split; [assumption|]. cbn. rewrite Z.add_0_r.
    destruct HT as [[Hr Hm] Hr1]. unfold counter64.
    symmetry. apply Z.mod_small. nia.
  - destruct (bump_counter64 d HT) as [HT' Hc].
    cbn [compress_all fold_left].
    destruct (IH (_Block (bump d) b) HT') as [HT'' Hc'].
    split; [exact HT''|].
    unfold compress_all in Hc'. rewrite Hc'.
    unfold counter64 in *. rewrite t_Block, Hc.
    rewrite Z.add_mod_idemp_l by lia.
    f_equal. unfold len. cbn [length]. lia.
Qed.

Lemma compress_all_frame bs : forall d,
  hashSize (compress_all bs d) = hashSize d /\
  salt (compress_all bs d) = salt d /\
  nullt (compress_all bs d) = nullt d /\
  (length (h d) = 8%nat -> length (h (compress_all bs d)) = 8%nat).
Proof.
  induction bs as [|b bs IH]; intros d.
  - repeat split. auto.
  - cbn [compress_all fold_left].
    destruct (IH (_Block (bump d) b)) as (H1 & H2 & H3 & H4).
    destruct (core_bump_frame d) as (B1 & B2 & B3 & _).
    unfold compress_all in *. rewrite H1, H2, H3.
    cbn [_Block set_h hashSize salt nullt]. rewrite B1, B2, B3.
    repeat split. intros _. apply H4. reflexivity.
Qed.

(** ** Calls on a session state never fail *)

Lemma Sum_pad_ok d :
  Wf d ->
  exists dp,
    Sum_pad d = Ok dp /\ Wf dp /\ buflen dp = 448 /\
    hashSize dp = hashSize d /\ salt dp = salt d /\
    (length (h d) = 8%nat -> length (h dp) = 8%nat).
Proof.
  intros HWf. destruct (Z.eq_dec (buflen d) 440) as [E|E].
  - rewrite Sum_pad_440 by assumption. eexists. split; [reflexivity|].
    destruct HWf as (Hbuf & _).
    unfold Wf. cbn [buf buflen set_buf set_buflen back_off set_t hashSize salt h].
    repeat split; try lia; auto.
    rewrite !length_app, length_skipn, length_firstn. cbn [length]. lia.
  - destruct (Sum_pad_other d HWf E) as (dp & H1 & H2 & H3 & _ & H5 & H6 & H7).
    exists dp. split; [assumption|]. split; [assumption|].
    split; [assumption|]. split; [assumption|]. split; assumption.
Qed.

(** The state of the private copy after the last [update] of [Sum]: the
    last block is the padded buffer followed by the eight length bytes. *)
Lemma Sum_state_spec d :
  Wf d ->
  exists dp,
    Sum_pad d = Ok dp /\ Wf dp /\ buflen dp = 448 /\
    Sum_state d =
    Ok (set_buflen
          (_Block (bump (set_buf (back_off dp 64)
                                 (firstn 56 (buf dp) ++ msglen d)))
                  (firstn 56 (buf dp) ++ msglen d)) 0) /\
    hashSize dp = hashSize d /\ salt dp = salt d.
Proof.
  intros HWf.
  destruct (Sum_pad_ok d HWf) as (dp & Hp & HWfp & Hblp & Hs & Hsalt & _).
  exists dp. split; [assumption|]. split; [assumption|]. split; [assumption|].
  split; [|split; assumption].
  unfold Sum_state. rewrite Hp. cbn [bind].
  rewrite Sum_final by (assumption || apply length_msglen). reflexivity.
Qed.

Lemma Sum_out_ok d :
  hashSize d = 224 \/ hashSize d = 256 -> length (h d) = 8%nat ->
  Sum_out d =
  Ok (flat_map u32to8 (firstn (if hashSize d =? 224 then 7 else 8) (h d))).
Proof.
  intros [Hs|Hs] Hh.
  - rewrite Sum_out_224 by assumption. rewrite Hs. reflexivity.
  - rewrite Sum_out_256 by assumption. rewrite Hs. cbn [Z.eqb Pos.eqb].
    rewrite <- Hh, firstn_all. reflexivity.
Qed.

(** [Sum] returns a digest, and the caller's state is the one it had. *)
Lemma Sum_ok d in_ :
  Inv d ->
  exists dfin,
    Sum_state d = Ok dfin /\ length (h dfin) = 8%nat /\
    Sum in_ d =
    Ok (d, in_ ++ flat_map u32to8
                    (firstn (if hashSize d =? 224 then 7 else 8) (h dfin))).
Proof.
  intros [Hsize Hh HWf _ _ _].
  destruct (Sum_state_spec d HWf) as (dp & _ & _ & _ & Hst & Hs & _).
  eexists. split; [exact Hst|]. split; [reflexivity|].
  unfold Sum. rewrite Hst. cbn [bind].
  rewrite Sum_out_ok.
  - cbn [bind set_buflen hashSize _Block set_h].
    destruct (core_bump_frame (set_buf (back_off dp 64)
                (firstn 56 (buf dp) ++ msglen d))) as (-> & _).
    cbn [set_buf back_off set_t hashSize]. rewrite Hs. reflexivity.
  - cbn [set_buflen hashSize _Block set_h].
    destruct (core_bump_frame (set_buf (back_off dp 64)
                (firstn 56 (buf dp) ++ msglen d))) as (-> & _).
    cbn [set_buf back_off set_t hashSize]. rewrite Hs. assumption.
  - reflexivity.
Qed.

Lemma datalen_of_len (p : list byte) :
  0 <= wrap64 (wrap64 (len p) * 8) < 2 ^ 64 /\
  wrap64 (wrap64 (len p) * 8) mod 8 = 0 /\
  wrap64 (wrap64 (len p) * 8) <= 8 * len p.
Proof.
  unfold wrap64. pose proof (len_nonneg p) as Hp.
  pose proof (Z.mod_pos_bound (len p) (2 ^ 64) ltac:(lia)) as H1.
  pose proof (Z.mod_le (len p) (2 ^ 64) Hp ltac:(lia)) as H2.
  pose proof (Z.mod_pos_bound (len p mod 2 ^ 64 * 8) (2 ^ 64) ltac:(lia)) as H3.
  pose proof (Z.mod_le (len p mod 2 ^ 64 * 8) (2 ^ 64) ltac:(lia) ltac:(lia)) as H4.
  split; [assumption|]. split; [|lia].
  rewrite Z.mod_mod_divide by (exists (2 ^ 61); reflexivity).
  apply Z.mod_mul. lia.
Qed.

(** [Write] consumes its argument and keeps the session well formed. *)
Lemma Write_ok d p :
  Inv d ->
  exists d',
    Write p d = Ok (d', len p) /\ Inv d' /\
    salt d' = salt d /\ hashSize d' = hashSize d /\
    core d' =
    core (compress_all (update_blocks d p (wrap64 (wrap64 (len p) * 8))) d).
Proof.
  intros [Hsize Hh HWf Ht0 Ht1 Hnull].
  destruct (datalen_of_len p) as (D1 & D2 & D3).
  destruct (update_spec d p _ HWf D1 D2 D3) as (d' & Hu & HWf' & Hc).
  exists d'. unfold Write. rewrite Hu. cbn [bind].
  split; [reflexivity|].
  set (bs := update_blocks d p _) in *.
  destruct (compress_all_frame bs d) as (F1 & F2 & F3 & F4).
  destruct (compress_all_counter bs d) as [[HT0 HT1] _]; [split; assumption|].
  pose proof (core_fields _ _ Hc) as (C1 & C2 & C3 & C4 & C5).
  split; [|split; [congruence|split; [congruence|assumption]]].
  constructor.
  - rewrite C1, F1. assumption.
  - rewrite C2. auto.
  - assumption.
  - rewrite C4. assumption.
  - rewrite C4. assumption.
  - rewrite C5, F3. assumption.
Qed.

Lemma Reset_Inv d :
  length (buf d) = 64%nat -> hashSize d = 224 \/ hashSize d = 256 ->
  Inv (Reset d).
Proof.
  intros Hbuf Hs. unfold Reset.
  destruct Hs as [Hs|Hs]; rewrite Hs; cbn [Z.eqb Pos.eqb];
    constructor; unfold Wf;
    cbn [hashSize h t nullt buf buflen set_h set_t set_nullt set_buflen fst snd];
    repeat split; try assumption; try lia; try reflexivity; auto.
Qed.

Lemma Reset_salt d : salt (Reset d) = salt d /\ hashSize (Reset d) = hashSize d.
Proof. unfold Reset. destruct (hashSize d =? 224); split; reflexivity. Qed.

Lemma run_op_ok o d :
  Inv d ->
  exists d',
    run_op o d = Ok d' /\ Inv d' /\ salt d' = salt d /\ hashSize d' = hashSize d.
Proof.
  intros HI. destruct o as [p|in_|]; cbn [run_op].
  - destruct (Write_ok d p HI) as (d' & Hw & HI' & Hs & Hh & _).
    exists d'. rewrite Hw. cbn [bind]. auto.
  - destruct (Sum_ok d in_ HI) as (dfin & _ & _ & Hs).
    exists d. rewrite Hs. cbn [bind]. auto.
  - exists (Reset d). destruct (Reset_salt d) as [Hs Hh].
    split; [reflexivity|]. split; [|split; assumption].
    destruct HI as [Hsize _ (Hbuf & _) _ _ _]. apply Reset_Inv; assumption.
Qed.

(** Every sequence of calls on a session state runs to the end, keeps the
    state well formed and keeps the salt and the width. *)
Lemma run_ok os : forall d,
  Inv d ->
  exists d',
    run os d = Ok d' /\ Inv d' /\ salt d' = salt d /\ hashSize d' = hashSize d.
Proof.
  induction os as [|o os IH]; intros d HI.
  - exists d. cbn [run]. auto.
  - destruct (run_op_ok o d HI) as (d1 & H1 & HI1 & Hs1 & Hh1).
    destruct (IH d1 HI1) as (d2 & H2 & HI2 & Hs2 & Hh2).
    exists d2. cbn [run]. rewrite H1. cbn [bind].
    split; [assumption|]. split; [assumption|]. split; congruence.
Qed.

Lemma Inv_newDigest n : n = 224 \/ n = 256 -> Inv (newDigest n).
Proof. intros H. unfold newDigest. apply Reset_Inv; [reflexivity|exact H]. Qed.

Lemma setSalt_spec d s :
  setSalt d s =
  if len s =? 16 then Ok (set_salt d (salt_words s))
  else Panic InvalidSaltLength.
Proof. unfold setSalt. destruct (len s =? 16); reflexivity. Qed.

Lemma Inv_set_salt d w : Inv d -> Inv (set_salt d w).
Proof. intros [H1 H2 H3 H4 H5 H6]. constructor; assumption. Qed.

Lemma constructed_Inv d : constructed d -> Inv d.
Proof.
  intros [->|[->|[[s H]|[s H]]]].
  - apply Inv_newDigest. tauto.
  - apply Inv_newDigest. tauto.
  - unfold NewSalt in H. rewrite setSalt_spec in H.
    destruct (len s =? 16); [|discriminate]. injection H as <-.
    apply Inv_set_salt, Inv_newDigest. tauto.
  - unfold New224Salt in H. rewrite setSalt_spec in H.
    destruct (len s =? 16); [|discriminate]. injection H as <-.
    apply Inv_set_salt, Inv_newDigest. tauto.
Qed.

(** Serializing the stored salt words gives the sixteen salt bytes back. *)
Lemma salt_words_bytes s :
  length s = 16%nat -> flat_map u32to8 (salt_words s) = s.
Proof.
  intros H.
  do 16 (destruct s as [|? s]; [discriminate|]).
  destruct s; [|discriminate].
  unfold salt_words. cbn [flat_map nth app].
  rewrite !u32to8_be32. reflexivity.
Qed.

(** The defect behind the diverging digests: when bytes are buffered and a
    write brings a positive multiple of 64 bytes, the first branch of
    [update] is skipped (the length modulo 64 is 0, below the free room),
    the loop compresses the new bytes alone, and [buflen] is set to 0: the
    buffered bytes are never compressed. *)
Lemma update_drops_buffer d data :
  Wf d -> Z.shiftr (buflen d) 3 <> 0 ->
  0 < len data < 2 ^ 61 -> len data mod 64 = 0 ->
  exists d',
    update d data (8 * len data) = Ok d' /\ buflen d' = 0 /\
    core d' = core (compress_all (chunks (Z.to_nat (len data / 64)) data) d).
Proof.
  intros HWf Hne Hlen Hmod.
  destruct (Wf_left d HWf) as [Hl Hbl].
  unfold update.
  set (left := Z.shiftr (buflen d) 3) in *.
  rewrite shiftr3_8, land63, Hmod.
  replace (negb (left =? 0) && (64 - left <=? 0)) with false
    by (symmetry; apply andb_false_iff; right; apply Z.leb_gt; lia).
  cbn [bind].
  rewrite update_loop_spec; [| reflexivity | lia | lia]. cbn [bind].
  assert (Hq : 8 * len data / 512 = len data / 64).
  { replace 512 with (8 * 64) by reflexivity.
    rewrite Z.div_mul_cancel_l by lia. reflexivity. }
  assert (Hr : (8 * len data) mod 512 = 0).
  { replace 512 with (8 * 64) by reflexivity.
    rewrite Zmult_mod_distr_l, Hmod. reflexivity. }
  rewrite Hr, Hq. cbn [Z.ltb Z.compare].
  eexists. split; [reflexivity|]. split; reflexivity.
Qed.

(** * The claims *)

(** C1.  Known-answer vectors: a fresh 256-bit instance hashing the empty
    string, "BLAKE" and "The quick brown fox jumps over the lazy dog", a
    fresh 224-bit instance hashing the empty string, and a 256-bit instance
    salted with "1234567890123456" hashing the empty string give the
    literal digests of the test tables. *)
Theorem known_answer_vectors :
  hex_result (write_sum New (bytes_of "")) =
    Ok "716f6e863f744b9ac22c97ec7b76ea5f5908bc5b2f67c61510bfc4751384ea7a"%string
  /\ hex_result (write_sum New (bytes_of "BLAKE")) =
    Ok "07663e00cf96fbc136cf7b1ee099c95346ba3920893d18cc8851f22ee2e36aa6"%string
  /\ hex_result
       (write_sum New (bytes_of "The quick brown fox jumps over the lazy dog")) =
    Ok "7576698ee9cad30173080678e5965916adbb11cb5245d386bf1ffda1cb26c9d7"%string
  /\ hex_result (write_sum New224 (bytes_of "")) =
    Ok "7dc5313b1c04512a174bd6503b89607aecbee0903d40a8a569c94eed"%string
  /\ hex_result (d <- NewSalt (bytes_of "1234567890123456") ;;
                 write_sum d (bytes_of "")) =
    Ok "561d6d0cfa3d31d5eedaf2d575f3942539b03522befc2a1196ba0e51af8992a8"%string.
Proof. repeat split; vm_compute; reflexivity. Qed.

(** C2.  Streaming equivalence fails: one zero byte written first and 64
    zero bytes written next give the digest of the 64 bytes alone, the
    buffered byte being dropped, and not the digest of the 65 bytes written
    in one call. *)
Theorem streaming_drops_buffered_byte :
  hex_result (sum_chunks New [[x00]; repeat x00 64]) =
    Ok "6d994042954f8dc5633626cd50b2bc66d733a313d67fd9702c5a8149a8028c98"%string
  /\ hex_result (sum_chunks New [repeat x00 64]) =
    Ok "6d994042954f8dc5633626cd50b2bc66d733a313d67fd9702c5a8149a8028c98"%string
  /\ hex_result (sum_chunks New [[x00] ++ repeat x00 64]) =
    Ok "081e5d10c8f46e140db4587366c4718462709d000419c1b00ca05a5763cab5cc"%string
  /\ sum_chunks New [[x00]; repeat x00 64]
     <> sum_chunks New [[x00] ++ repeat x00 64].
Proof.
  split; [vm_compute; reflexivity|].
  split; [vm_compute; reflexivity|].
  split; [vm_compute; reflexivity|].
  vm_compute. discriminate.
Qed.

(** [Sum] hands the caller's state back as it was. *)
Lemma Sum_keeps_state in_ d d' out : Sum in_ d = Ok (d', out) -> d' = d.
Proof.
  unfold Sum. destruct (Sum_state d) as [d1|]; [|discriminate].
  cbn [bind]. destruct (Sum_out d1) as [o|]; [|discriminate].
  cbn [bind]. intros [= <- _]. reflexivity.
Qed.

(** Two calls of [Sum] with no write between them return the same bytes. *)
Lemma Sum_twice in_ d d1 out1 d2 out2 :
  Sum in_ d = Ok (d1, out1) -> Sum in_ d1 = Ok (d2, out2) -> out2 = out1.
Proof.
  intros H1 H2. pose proof (Sum_keeps_state _ _ _ _ H1) as ->. congruence.
Qed.

(** C4.  [Sum] does not touch the caller's state, but the second digest of
    write(m); sum(); write(m2); sum() is not the digest of m + m2 for m one
    zero byte and m2 64 zero bytes: the second write drops the buffered
    byte. *)
Theorem sum_write_sum_diverges :
  hex_result (write_sum_write_sum New [x00] (repeat x00 64)) =
    Ok "6d994042954f8dc5633626cd50b2bc66d733a313d67fd9702c5a8149a8028c98"%string
  /\ hex_result (write_sum New ([x00] ++ repeat x00 64)) =
    Ok "081e5d10c8f46e140db4587366c4718462709d000419c1b00ca05a5763cab5cc"%string
  /\ write_sum_write_sum New [x00] (repeat x00 64)
     <> write_sum New ([x00] ++ repeat x00 64).
Proof.
  split; [vm_compute; reflexivity|].
  split; [vm_compute; reflexivity|].
  vm_compute. discriminate.
Qed.

(** C9.  The two revisions disagree on a chunked message: for one zero byte
    followed by 64 zero bytes the revision with the [uint64] counter returns
    the digest of the 65 bytes, the revision with the two-word counter the
    digest of the last 64. *)
Theorem revisions_diverge_on_chunks :
  hex_result (Rev64.sum_chunks Rev64.New [[x00]; repeat x00 64]) =
    Ok "081e5d10c8f46e140db4587366c4718462709d000419c1b00ca05a5763cab5cc"%string
  /\ hex_result (sum_chunks New [[x00]; repeat x00 64]) =
    Ok "6d994042954f8dc5633626cd50b2bc66d733a313d67fd9702c5a8149a8028c98"%string
  /\ Rev64.sum_chunks Rev64.New [[x00]; repeat x00 64]
     <> sum_chunks New [[x00]; repeat x00 64].
Proof.
  split; [vm_compute; reflexivity|].
  split; [vm_compute; reflexivity|].
  vm_compute. discriminate.
Qed.

(** With a zero salt the salt words leave [v8 .. v11] equal to the first
    four constants and drop out of the feed-forward. *)
Lemma zero_salt_core hh t0 t1 n v :
  (let i := init_vars hh (repeat 0 4) t0 t1 n in
   (v8 i, v9 i, v10 i, v11 i) = (word cst 0, word cst 1, word cst 2, word cst 3))
  /\ feed_forward hh (repeat 0 4) v =
     [Z.lxor (word hh 0) (Z.lxor (v0 v) (v8 v));
      Z.lxor (word hh 1) (Z.lxor (v1 v) (v9 v));
      Z.lxor (word hh 2) (Z.lxor (v2 v) (v10 v));
      Z.lxor (word hh 3) (Z.lxor (v3 v) (v11 v));
      Z.lxor (word hh 4) (Z.lxor (v4 v) (v12 v));
      Z.lxor (word hh 5) (Z.lxor (v5 v) (v13 v));
      Z.lxor (word hh 6) (Z.lxor (v6 v) (v14 v));
      Z.lxor (word hh 7) (Z.lxor (v7 v) (v15 v))].
Proof.
  split.
  - unfold init_vars. destruct (negb n); reflexivity.
  - unfold feed_forward. cbn [repeat word nth]. rewrite !Z.lxor_0_r. reflexivity.
Qed.

(** C10.  Zero salt is the identity salt: constructing with sixteen zero
    bytes gives the very state of the unsalted constructor, for both widths,
    so every sequence of chunks has the same digest. *)
Theorem zero_salt_identity :
  NewSalt (repeat x00 16) = Ok New
  /\ New224Salt (repeat x00 16) = Ok New224
  /\ (forall ps,
        (d <- NewSalt (repeat x00 16) ;; sum_chunks d ps) = sum_chunks New ps)
  /\ (forall ps,
        (d <- New224Salt (repeat x00 16) ;; sum_chunks d ps)
        = sum_chunks New224 ps).
Proof.
  assert (H256 : NewSalt (repeat x00 16) = Ok New) by reflexivity.
  assert (H224 : New224Salt (repeat x00 16) = Ok New224) by reflexivity.
  split; [exact H256|]. split; [exact H224|].
  split; intros ps; [rewrite H256|rewrite H224]; reflexivity.
Qed.

(** C5.  For an instance constructed with a 16-byte salt, after any sequence
    of writes, sums and resets, [Reset] restores the IV of the width and
    zeroes the counter, the buffer length and the no-counter flag, and the
    salt words are those set at construction. *)
Theorem Reset_keeps_salt s d0 os d :
  NewSalt s = Ok d0 \/ New224Salt s = Ok d0 ->
  run os d0 = Ok d ->
  h (Reset d) = (if hashSize d0 =? 224 then iv224 else iv256)
  /\ t (Reset d) = (0, 0)
  /\ buflen (Reset d) = 0
  /\ nullt (Reset d) = false
  /\ hashSize (Reset d) = hashSize d0
  /\ salt d0 = salt_words s
  /\ salt (Reset d) = salt d0.
Proof.
  intros Hc Hrun.
  assert (HI : Inv d0).
  { apply constructed_Inv. destruct Hc; [right; right; left|right; right; right];
      exists s; assumption. }
  destruct (run_ok os d0 HI) as (d' & Hrun' & _ & Hsalt & Hsize).
  rewrite Hrun in Hrun'. injection Hrun' as <-.
  destruct (Reset_salt d) as [Rs Rh].
  assert (Hw : salt d0 = salt_words s).
  { destruct Hc as [Hc|Hc]; [unfold NewSalt in Hc|unfold New224Salt in Hc];
      rewrite setSalt_spec in Hc;
      (destruct (len s =? 16); [|discriminate]); injection Hc as <-; reflexivity. }
  split; [|split; [|split; [|split; [|split; [|split]]]]].
  - unfold Reset. rewrite <- Hsize.
    destruct (hashSize d =? 224); reflexivity.
  - unfold Reset. destruct (hashSize d =? 224); reflexivity.
  - unfold Reset. destruct (hashSize d =? 224); reflexivity.
  - unfold Reset. destruct (hashSize d =? 224); reflexivity.
  - congruence.
  - exact Hw.
  - congruence.
Qed.

Lemma Reset_keeps_salt_witness :
  (NewSalt ex_salt = Ok ex_salted \/ New224Salt ex_salt = Ok ex_salted)
  /\ run ex_session ex_salted = Ok ex_state
  /\ salt (Reset ex_state) = salt ex_salted.
Proof.
  assert (H1 : NewSalt ex_salt = Ok ex_salted \/ New224Salt ex_salt = Ok ex_salted)
    by (left; vm_compute; reflexivity).
  assert (H2 : run ex_session ex_salted = Ok ex_state)
    by (vm_compute; reflexivity).
  split; [exact H1|]. split; [exact H2|].
  apply (Reset_keeps_salt ex_salt ex_salted ex_session ex_state H1 H2).
Defined.

(** C6.  Constructing with a salt fails with [InvalidSaltLength] exactly
    when the salt is not 16 bytes long; a 16-byte salt is stored as four
    big-endian words (serializing them gives the salt back); and on an
    instance that a constructor returned no sequence of writes, sums and
    resets fails. *)
Theorem salt_length_is_the_only_failure s :
  NewSalt s = (if len s =? 16 then Ok (set_salt New (salt_words s))
               else Panic InvalidSaltLength)
  /\ New224Salt s = (if len s =? 16 then Ok (set_salt New224 (salt_words s))
                     else Panic InvalidSaltLength)
  /\ (len s = 16 ->
      flat_map u32to8 (salt_words s) = s
      /\ forall i, (i < 4)%nat ->
           word (salt_words s) i =
           u8 (nth (4 * i) s x00) * 2 ^ 24 + u8 (nth (4 * i + 1) s x00) * 2 ^ 16
           + u8 (nth (4 * i + 2) s x00) * 2 ^ 8 + u8 (nth (4 * i + 3) s x00))
  /\ (forall d os, constructed d -> exists d', run os d = Ok d')
  /\ (forall d os in_ d',
        constructed d -> run os d = Ok d' ->
        exists out, Sum in_ d' = Ok (d', out)).
Proof.
  split; [apply setSalt_spec|]. split; [apply setSalt_spec|].
  split; [|split].
  - intros H. split.
    + apply salt_words_bytes. unfold len in H. lia.
    + intros i Hi.
      destruct i as [|[|[|[|i]]]]; try lia;
        unfold salt_words, word; cbn [nth Nat.mul Nat.add]; apply be32_value.
  - intros d os Hc.
    destruct (run_ok os d (constructed_Inv d Hc)) as (d' & H & _).
    exists d'. assumption.
  - intros d os in_ d' Hc Hrun.
    destruct (run_ok os d (constructed_Inv d Hc)) as (d1 & H & HI & _).
    rewrite Hrun in H. injection H as <-.
    destruct (Sum_ok d' in_ HI) as (dfin & _ & _ & Hs).
    eexists. exact Hs.
Qed.

Lemma salt_length_is_the_only_failure_witness :
  NewSalt [x01; x02; x03; x04; x05; x06; x07; x08] = Panic InvalidSaltLength
  /\ len ex_salt = 16
  /\ flat_map u32to8 (salt_words ex_salt) = ex_salt
  /\ constructed ex_salted
  /\ exists d', run ex_session ex_salted = Ok d'.
Proof.
  assert (Hl : len ex_salt = 16) by reflexivity.
  assert (Hc : constructed ex_salted)
    by (right; right; left; exists ex_salt; vm_compute; reflexivity).
  split; [exact (proj1 (salt_length_is_the_only_failure
                          [x01; x02; x03; x04; x05; x06; x07; x08]))|].
  split; [exact Hl|].
  destruct (salt_length_is_the_only_failure ex_salt) as (_ & _ & Hw & Hrun & _).
  split; [exact (proj1 (Hw Hl))|]. split; [exact Hc|].
  exact (Hrun ex_salted ex_session Hc).
Defined.

(** The states of a session: what a constructor returned, after any calls. *)
Lemma session_Inv d0 os d :
  constructed d0 -> run os d0 = Ok d ->
  Inv d /\ hashSize d = hashSize d0 /\ salt d = salt d0.
Proof.
  intros Hc Hrun.
  destruct (run_ok os d0 (constructed_Inv d0 Hc)) as (d' & H & HI & Hs & Hh).
  rewrite Hrun in H. injection H as <-. auto.
Qed.

Lemma wrap32_add_l x y : wrap32 (wrap32 x + y) = wrap32 (x + y).
Proof. unfold wrap32. apply Z.add_mod_idemp_l. lia. Qed.

Lemma wrap32_sub_l x y : wrap32 (wrap32 x - y) = wrap32 (x - y).
Proof. unfold wrap32. apply Zminus_mod_idemp_l. Qed.

Lemma divmod32 q r :
  0 <= r < 2 ^ 32 ->
  (q * 2 ^ 32 + r) / 2 ^ 32 = q /\ (q * 2 ^ 32 + r) mod 2 ^ 32 = r.
Proof.
  intros Hr. split.
  - rewrite Z.div_add_l, (Z.div_small r) by lia. lia.
  - rewrite Z.add_comm, Z.mod_add by lia. apply Z.mod_small. assumption.
Qed.

(** The eight length bytes: the high word, then the low word, of the 64-bit
    sum of the counter and the buffered bits. *)
Lemma msglen_value d :
  0 <= fst (t d) < 2 ^ 32 -> 0 <= snd (t d) < 2 ^ 32 ->
  0 <= buflen d < 2 ^ 32 ->
  msglen d =
  u32to8 (((counter64 d + buflen d) mod 2 ^ 64) / 2 ^ 32)
  ++ u32to8 (((counter64 d + buflen d) mod 2 ^ 64) mod 2 ^ 32).
Proof.
  intros H0 H1 Hb. unfold msglen, counter64, add32.
  rewrite (wrap32_small (buflen d)) by assumption.
  set (a := fst (t d)) in *. set (b := snd (t d)) in *. set (n := buflen d) in *.
  destruct (Z.lt_ge_cases (a + n) (2 ^ 32)) as [Hs|Hs].
  - rewrite (wrap32_small (a + n)) by lia.
    replace (a + n <? n) with false by (symmetry; apply Z.ltb_ge; lia).
    rewrite (Z.mod_small (b * 2 ^ 32 + a + n)) by nia.
    replace (b * 2 ^ 32 + a + n) with (b * 2 ^ 32 + (a + n)) by lia.
    destruct (divmod32 b (a + n) ltac:(lia)) as [-> ->]. reflexivity.
  - assert (Hlo : wrap32 (a + n) = a + n - 2 ^ 32).
    { unfold wrap32. symmetry. apply (Z.mod_unique _ _ 1); lia. }
    rewrite Hlo.
    replace (a + n - 2 ^ 32 <? n) with true by (symmetry; apply Z.ltb_lt; lia).
    replace (b * 2 ^ 32 + a + n)
      with ((b + 1) * 2 ^ 32 + (a + n - 2 ^ 32)) by lia.
    destruct (Z.lt_ge_cases (b + 1) (2 ^ 32)) as [Hb1|Hb1].
    + rewrite (wrap32_small (b + 1)) by lia.
      rewrite (Z.mod_small (_ + _) (2 ^ 64)) by nia.
      destruct (divmod32 (b + 1) (a + n - 2 ^ 32) ltac:(lia)) as [-> ->].
      reflexivity.
    + assert (Hb2 : b + 1 = 2 ^ 32) by lia. rewrite Hb2.
      change (wrap32 (2 ^ 32)) with 0.
      replace (2 ^ 32 * 2 ^ 32 + (a + n - 2 ^ 32))
        with (a + n - 2 ^ 32 + 1 * 2 ^ 64) by lia.
      rewrite Z.mod_add, (Z.mod_small _ (2 ^ 64)) by lia.
      rewrite Z.div_small, Z.mod_small by lia. reflexivity.
Qed.

(** C7.  Counter bookkeeping, for every state [d] of a session.  A write
    compresses the blocks [bs] that [update] hands to [_Block] (the chain
    value and the counter after the write are those of compressing [bs] in
    order), the 64-bit counter is then 512 times their number further,
    modulo 2^64, and unchanged when nothing is compressed; each single
    advance carries from the low word into the high word.  At finalization
    the length bytes are the high word and then the low word, each
    big-endian, of the counter plus eight times the buffered byte count,
    and they end the last block compressed. *)
Theorem counter_bookkeeping d0 os d p :
  constructed d0 -> run os d0 = Ok d ->
  exists d',
    Write p d = Ok (d', len p) /\
    (let bs := update_blocks d p (wrap64 (wrap64 (len p) * 8)) in
     core d' = core (compress_all bs d) /\
     counter64 d' = (counter64 d + 512 * len bs) mod 2 ^ 64 /\
     (bs = [] -> t d' = t d /\ h d' = h d)) /\
    (forall b,
       t (_Block (bump d) b) =
       if fst (t d) + 512 <? 2 ^ 32 then (fst (t d) + 512, snd (t d))
       else (0, wrap32 (snd (t d) + 1))) /\
    (let L := (counter64 d + 8 * Z.shiftr (buflen d) 3) mod 2 ^ 64 in
     msglen d = u32to8 (L / 2 ^ 32) ++ u32to8 (L mod 2 ^ 32) /\
     exists dp,
       Sum_pad d = Ok dp /\
       Sum_state d =
       Ok (set_buflen
             (_Block (bump (set_buf (back_off dp 64)
                                    (firstn 56 (buf dp) ++ msglen d)))
                     (firstn 56 (buf dp) ++ msglen d)) 0)).
Proof.
  intros Hc Hrun.
  destruct (session_Inv d0 os d Hc Hrun) as (HI & _ & _).
  destruct (Write_ok d p HI) as (d' & Hw & HI' & _ & _ & Hcore).
  destruct HI as [Hsize Hh HWf Ht0 Ht1 Hnull].
  assert (HT : Tok d) by (split; assumption).
  exists d'. split; [exact Hw|]. split; [|split].
  - cbv zeta. set (bs := update_blocks d p _) in *.
    destruct (compress_all_counter bs d HT) as [_ Hcnt].
    pose proof (core_fields _ _ Hcore) as (_ & C2 & _ & C4 & _).
    split; [exact Hcore|]. split.
    + unfold counter64 in *. rewrite C4. exact Hcnt.
    + intros E. rewrite E in C2, C4. cbn in C2, C4. split; assumption.
  - intros b. rewrite t_Block. apply bump_t. exact HT.
  - cbv zeta. destruct (Wf_left d HWf) as [Hl Hbl]. rewrite <- Hbl.
    split.
    + apply msglen_value; try tauto. destruct HWf as (_ & Hr & _). lia.
    + destruct (Sum_state_spec d HWf) as (dp & Hp & _ & _ & Hst & _).
      exists dp. split; assumption.
Qed.

Lemma counter_bookkeeping_witness :
  constructed ex_salted
  /\ run ex_session ex_salted = Ok ex_state
  /\ exists d',
       Write (repeat x02 200) ex_state = Ok (d', 200)
       /\ counter64 d' = 1536.
Proof.
  assert (Hc : constructed ex_salted)
    by (right; right; left; exists ex_salt; vm_compute; reflexivity).
  assert (Hrun : run ex_session ex_salted = Ok ex_state)
    by (vm_compute; reflexivity).
  split; [exact Hc|]. split; [exact Hrun|].
  destruct (counter_bookkeeping ex_salted ex_session ex_state (repeat x02 200)
              Hc Hrun) as (d' & Hw & (_ & Hcnt & _) & _).
  exists d'. split; [exact Hw|]. rewrite Hcnt. vm_compute. reflexivity.
Defined.

(** C8.  For every state of a session whose buffer does not hold exactly 55
    bytes: the padding leaves 55 bytes in the buffer and writes behind them
    the domain byte, [0x00] for the 224-bit width and [0x01] for the
    256-bit width; the last block compressed is those 56 bytes and the
    length bytes; and [Sum] returns the chain value after that block as
    big-endian words, all eight (32 bytes) for 256 bits and the first seven
    (28 bytes) for 224 bits. *)
Theorem domain_byte_and_serialization d0 os d in_ :
  constructed d0 -> run os d0 = Ok d -> buflen d <> 440 ->
  exists dp dfin,
    Sum_pad d = Ok dp
    /\ buflen dp = 448
    /\ nth 55 (buf dp) x00 = (if hashSize d =? 224 then x00 else x01)
    /\ dfin = set_buflen
                (_Block (bump (set_buf (back_off dp 64)
                                       (firstn 56 (buf dp) ++ msglen d)))
                        (firstn 56 (buf dp) ++ msglen d)) 0
    /\ Sum_state d = Ok dfin
    /\ Sum in_ d =
       Ok (d, in_ ++ flat_map u32to8
                       (firstn (if hashSize d =? 224 then 7 else 8) (h dfin)))
    /\ length (flat_map u32to8
                 (firstn (if hashSize d =? 224 then 7 else 8) (h dfin)))
       = if hashSize d =? 224 then 28%nat else 32%nat.
Proof.
  intros Hc Hrun Hne.
  destruct (session_Inv d0 os d Hc Hrun) as (HI & _ & _).
  pose proof HI as [Hsize Hh HWf _ _ _].
  destruct (Sum_pad_other d HWf Hne) as (dp & Hp & HWfp & Hblp & Hdom & _).
  destruct (Sum_state_spec d HWf) as (dp' & Hp' & _ & _ & Hst & _).
  rewrite Hp in Hp'. injection Hp' as <-.
  destruct (Sum_ok d in_ HI) as (dfin & Hst' & Hh' & Hsum).
  exists dp, dfin.
  split; [exact Hp|]. split; [exact Hblp|]. split; [exact Hdom|].
  split; [congruence|]. split; [exact Hst'|]. split; [exact Hsum|].
  rewrite length_flat_u32to8, length_firstn, Hh'.
  destruct (hashSize d =? 224); reflexivity.
Qed.

Lemma domain_byte_and_serialization_witness :
  constructed ex_salted
  /\ run ex_session ex_salted = Ok ex_state
  /\ buflen ex_state <> 440
  /\ exists dp, Sum_pad ex_state = Ok dp /\ nth 55 (buf dp) x00 = x01.
Proof.
  assert (Hc : constructed ex_salted)
    by (right; right; left; exists ex_salt; vm_compute; reflexivity).
  assert (Hrun : run ex_session ex_salted = Ok ex_state)
    by (vm_compute; reflexivity).
  assert (Hne : buflen ex_state <> 440) by (vm_compute; discriminate).
  split; [exact Hc|]. split; [exact Hrun|]. split; [exact Hne|].
  destruct (domain_byte_and_serialization ex_salted ex_session ex_state []
              Hc Hrun Hne) as (dp & dfin & Hp & _ & Hdom & _).
  exists dp. split; [exact Hp|exact Hdom].
Defined.

(** C3, as stated, fails for the 224-bit width: with exactly 55 bytes in
    the buffer the single padding byte is [0x80], not [0x81]. *)
Lemma one_padding_byte_224_is_0x80 :
  run [OpWrite (repeat x00 55)] New224 = Ok ex224_55
  /\ hashSize ex224_55 = 224
  /\ buflen ex224_55 = 440
  /\ Sum_pad ex224_55 = Ok ex224_55_padded
  /\ nth 55 (buf ex224_55_padded) x00 = x80
  /\ nth 55 (buf ex224_55_padded) x00 <> x81.
Proof.
  split; [vm_compute; reflexivity|]. split; [reflexivity|].
  split; [reflexivity|]. split; [vm_compute; reflexivity|].
  split; [reflexivity|]. vm_compute. discriminate.
Qed.

(** C3, amended.  For every state of a session whose buffer holds exactly
    55 bytes, finalization decrements the low counter word by 8 and then
    writes one padding byte behind the 55 bytes: [0x81] for the 256-bit
    width and [0x80] for the 224-bit width (the bit 1 and the domain bit in
    one byte).  Nothing is compressed by that write, and the counter that
    enters the last compression is the counter plus the 440 buffered bits:
    the padding byte is not counted. *)
Theorem one_padding_byte d0 os d :
  constructed d0 -> run os d0 = Ok d -> buflen d = 440 ->
  Sum_pad d =
    update (back_off d 8) [if hashSize d =? 224 then x80 else x81] 8
  /\ exists dp dfin,
       Sum_pad d = Ok dp
       /\ buf dp = firstn 55 (buf d)
                   ++ [if hashSize d =? 224 then x80 else x81]
                   ++ skipn 56 (buf d)
       /\ buflen dp = 448
       /\ t dp = (sub32 (fst (t d)) 8, snd (t d))
       /\ h dp = h d
       /\ Sum_state d = Ok dfin
       /\ t dfin = (fst (t d) + 440, snd (t d)).
Proof.
  intros Hc Hrun H440.
  destruct (session_Inv d0 os d Hc Hrun) as (HI & _ & _).
  destruct HI as [Hsize Hh HWf [Ht0 Hm] Ht1 Hnull].
  pose proof (Sum_pad_440 d HWf H440) as Hp. unfold dom1 in Hp.
  split.
  - unfold Sum_pad. rewrite H440. cbn [Z.eqb Pos.eqb].
    change (hashSize (back_off d 8)) with (hashSize d).
    destruct (hashSize d =? 224); reflexivity.
  - destruct (Sum_state_spec d HWf) as (dp & Hp' & _ & _ & Hst & _).
    rewrite Hp in Hp'. injection Hp' as Hdp.
    eexists. eexists. split; [exact Hp|].
    split; [reflexivity|]. split; [reflexivity|]. split; [reflexivity|].
    split; [reflexivity|]. rewrite <- Hdp in Hst. split; [exact Hst|].
    cbn [t set_buflen _Block set_h].
    unfold bump. cbn [t set_t set_buf back_off set_buflen fst snd].
    unfold add32, sub32. rewrite !wrap32_sub_l, wrap32_add_l.
    pose proof (Z.div_mod (fst (t d)) 512 ltac:(lia)) as Hdm.
    assert (fst (t d) / 512 < 2 ^ 23) by (apply Z.div_lt_upper_bound; lia).
    replace (fst (t d) - 8 - 64 + 512) with (fst (t d) + 440) by lia.
    rewrite wrap32_small by lia.
    replace (fst (t d) + 440 =? 0) with false
      by (symmetry; apply Z.eqb_neq; lia).
    reflexivity.
Qed.

Lemma one_padding_byte_witness :
  constructed New
  /\ run [OpWrite (repeat x00 55)] New = Ok ex256_55
  /\ buflen ex256_55 = 440
  /\ Sum_pad ex256_55 = update (back_off ex256_55 8) [x81] 8.
Proof.
  assert (Hc : constructed New) by (left; reflexivity).
  assert (Hrun : run [OpWrite (repeat x00 55)] New = Ok ex256_55)
    by (vm_compute; reflexivity).
  assert (H440 : buflen ex256_55 = 440) by reflexivity.
  split; [exact Hc|]. split; [exact Hrun|]. split; [exact H440|].
  exact (proj1 (one_padding_byte New [OpWrite (repeat x00 55)] ex256_55
                  Hc Hrun H440)).
Defined.

(** * Further properties of the revision with the two-word counter *)

(** ** [Sum], [Size] and the session invariant *)

(** X1.  On every state of a session, [Sum(in)] returns [in] followed by
    exactly [Size()] digest bytes, 28 for the 224-bit width and 32 for the
    256-bit width, and hands the state back unchanged. *)
Theorem Sum_appends_Size_bytes d0 os d in_ :
  constructed d0 -> run os d0 = Ok d ->
  exists out,
    Sum in_ d = Ok (d, in_ ++ out)
    /\ len out = Size d
    /\ Size d = (if hashSize d0 =? 224 then 28 else 32).
Proof.
  intros Hc Hrun.
  destruct (session_Inv d0 os d Hc Hrun) as (HI & Hs & _).
  destruct (Sum_ok d in_ HI) as (dfin & _ & Hh & Hsum).
  eexists. split; [exact Hsum|].
  unfold len, Size. rewrite length_flat_u32to8, length_firstn, Hh, <- Hs.
  destruct HI as [[E|E] _ _ _ _ _]; rewrite E; split; reflexivity.
Qed.

Lemma Sum_appends_Size_bytes_witness :
  constructed ex_salted
  /\ run ex_session ex_salted = Ok ex_state
  /\ exists out,
       Sum (bytes_of "prefix") ex_state = Ok (ex_state, bytes_of "prefix" ++ out)
       /\ len out = 32.
Proof.
  assert (Hc : constructed ex_salted)
    by (right; right; left; exists ex_salt; vm_compute; reflexivity).
  assert (Hrun : run ex_session ex_salted = Ok ex_state)
    by (vm_compute; reflexivity).
  split; [exact Hc|]. split; [exact Hrun|].
  destruct (Sum_appends_Size_bytes ex_salted ex_session ex_state
              (bytes_of "prefix") Hc Hrun) as (out & H1 & H2 & H3).
  exists out. split; [exact H1|]. rewrite H2, H3. reflexivity.
Defined.

(** X2.  The invariant of a session: after any sequence of calls on an
    instance that a constructor returned, the buffer length is a multiple of
    8 below 512 bits, the low counter word is a multiple of 512, both
    counter words and the no-counter flag are as [update] left them (the
    flag unset), and width, salt and the sizes of the arrays are those of
    the construction. *)
Theorem session_invariant d0 os d :
  constructed d0 -> run os d0 = Ok d ->
  buflen d mod 8 = 0 /\ 0 <= buflen d < 512
  /\ length (buf d) = 64%nat /\ length (h d) = 8%nat
  /\ fst (t d) mod 512 = 0
  /\ 0 <= fst (t d) < 2 ^ 32 /\ 0 <= snd (t d) < 2 ^ 32
  /\ nullt d = false
  /\ hashSize d = hashSize d0 /\ salt d = salt d0.
Proof.
  intros Hc Hrun.
  destruct (session_Inv d0 os d Hc Hrun)
    as ([Hsize Hh (Hbuf & Hr & Hm) [Ht0 Hm0] Ht1 Hn] & Hs & Hsalt).
  repeat split; try assumption; lia.
Qed.

Lemma session_invariant_witness :
  constructed ex_salted
  /\ run ex_session ex_salted = Ok ex_state
  /\ buflen ex_state mod 8 = 0.
Proof.
  assert (Hc : constructed ex_salted)
    by (right; right; left; exists ex_salt; vm_compute; reflexivity).
  assert (Hrun : run ex_session ex_salted = Ok ex_state)
    by (vm_compute; reflexivity).
  split; [exact Hc|]. split; [exact Hrun|].
  exact (proj1 (session_invariant ex_salted ex_session ex_state Hc Hrun)).
Defined.

(** ** Writes that lose the buffered bytes *)

Lemma datalen_small (p : list byte) :
  len p < 2 ^ 61 -> wrap64 (wrap64 (len p) * 8) = 8 * len p.
Proof.
  intros H. pose proof (len_nonneg p).
  rewrite (wrap64_small (len p)) by lia. rewrite wrap64_small by lia. lia.
Qed.

(** X3.  When bytes are buffered, a write whose length is a multiple of 64,
    the empty write included, discards them: the first branch of [update]
    is skipped, the loop compresses the blocks of the new bytes alone, and
    [buflen] is set to 0. *)
Theorem Write_whole_blocks_drops_buffer d0 os d p :
  constructed d0 -> run os d0 = Ok d ->
  buflen d <> 0 -> len p mod 64 = 0 -> len p < 2 ^ 61 ->
  exists d',
    Write p d = Ok (d', len p)
    /\ buflen d' = 0
    /\ core d' = core (compress_all (chunks (Z.to_nat (len p / 64)) p) d).
Proof.
  intros Hc Hrun Hne Hmod Hlen.
  destruct (session_Inv d0 os d Hc Hrun) as (HI & _ & _).
  destruct HI as [_ _ HWf _ _ _].
  destruct (Wf_left d HWf) as [Hl Hbl].
  pose proof (len_nonneg p) as Hp.
  unfold Write. rewrite datalen_small by assumption.
  unfold update.
  set (left := Z.shiftr (buflen d) 3) in *.
  rewrite shiftr3_8, land63, Hmod.
  replace (negb (left =? 0) && (64 - left <=? 0)) with false
    by (symmetry; apply andb_false_iff; right; apply Z.leb_gt; lia).
  cbn [bind].
  rewrite update_loop_spec; [| reflexivity | lia | lia]. cbn [bind].
  assert (Hq : 8 * len p / 512 = len p / 64).
  { replace 512 with (8 * 64) by reflexivity.
    rewrite Z.div_mul_cancel_l by lia. reflexivity. }
  assert (Hr : (8 * len p) mod 512 = 0).
  { replace 512 with (8 * 64) by reflexivity.
    rewrite Zmult_mod_distr_l, Hmod. reflexivity. }
  rewrite Hr, Hq. cbn [Z.ltb Z.compare bind].
  eexists. split; [reflexivity|]. split; reflexivity.
Qed.

Lemma Write_whole_blocks_drops_buffer_witness :
  constructed New
  /\ run [OpWrite (bytes_of "abc")] New = Ok ex_abc
  /\ buflen ex_abc <> 0
  /\ len (@nil byte) mod 64 = 0
  /\ len (@nil byte) < 2 ^ 61
  /\ exists d', Write [] ex_abc = Ok (d', 0) /\ buflen d' = 0
                /\ core d' = core ex_abc.
Proof.
  assert (Hc : constructed New) by (left; reflexivity).
  assert (Hrun : run [OpWrite (bytes_of "abc")] New = Ok ex_abc)
    by (vm_compute; reflexivity).
  assert (Hne : buflen ex_abc <> 0) by (vm_compute; discriminate).
  split; [exact Hc|]. split; [exact Hrun|]. split; [exact Hne|].
  split; [reflexivity|]. split; [reflexivity|].
  exact (Write_whole_blocks_drops_buffer New [OpWrite (bytes_of "abc")]
           ex_abc [] Hc Hrun Hne eq_refl eq_refl).
Defined.

(** ** Words and bytes *)

(** X4.  The big-endian load and store are inverse to each other: storing
    a 32-bit word with [u32to8] and loading the four bytes gives the word
    back, and loading four bytes and storing the word gives the bytes
    back. *)
Theorem be32_u32to8_roundtrip (v : Z) (b0 b1 b2 b3 : byte) :
  (0 <= v < 2 ^ 32 ->
   be32 (byte_of_Z (Z.shiftr v 24)) (byte_of_Z (Z.shiftr v 16))
        (byte_of_Z (Z.shiftr v 8)) (byte_of_Z v) = v)
  /\ u32to8 (be32 b0 b1 b2 b3) = [b0; b1; b2; b3].
Proof.
  split; [|apply u32to8_be32].
  intros Hv. rewrite be32_value, !u8_byte_of_Z, !Z.shiftr_div_pow2 by lia.
  change (2 ^ 24) with 16777216. change (2 ^ 16) with 65536.
  change (2 ^ 8) with 256. change (2 ^ 32) with 4294967296 in Hv.
  Z.div_mod_to_equations. lia.
Qed.

Lemma be32_u32to8_roundtrip_witness :
  0 <= 0x243F6A88 < 2 ^ 32
  /\ be32 (byte_of_Z (Z.shiftr 0x243F6A88 24)) (byte_of_Z (Z.shiftr 0x243F6A88 16))
          (byte_of_Z (Z.shiftr 0x243F6A88 8)) (byte_of_Z 0x243F6A88)
     = 0x243F6A88.
Proof.
  assert (H : 0 <= 0x243F6A88 < 2 ^ 32) by lia.
  split; [exact H|].
  exact (proj1 (be32_u32to8_roundtrip 0x243F6A88 x00 x00 x00 x00) H).
Defined.

(** ** What the calls that follow can see of a state *)

Lemma firstn_copied (A : Type) (a b c : nat) (l m tl : list A) :
  (a <= length l)%nat -> (b <= c)%nat -> (b <= length m)%nat ->
  firstn (a + b) (firstn a l ++ firstn c m ++ tl) = firstn a l ++ firstn b m.
Proof.
  intros Ha Hb Hm.
  rewrite firstn_app, length_firstn, Nat.min_l by assumption.
  rewrite firstn_firstn.
  replace (Nat.min (a + b) a) with a by lia.
  replace (a + b - a)%nat with b by lia.
  rewrite firstn_app, firstn_firstn, length_firstn.
  replace (Nat.min b c) with b by lia.
  replace (b - Nat.min c (length m))%nat with 0%nat by lia.
  rewrite firstn_O, app_nil_r. reflexivity.
Qed.

Lemma len_pending d : Wf d -> len (pending d) = Z.shiftr (buflen d) 3.
Proof.
  intros HWf. destruct (Wf_left d HWf) as [Hl _]. destruct HWf as (Hbuf & _).
  unfold pending, len. rewrite length_firstn. lia.
Qed.

(** The buffer length and the buffered bytes after an [update]. *)
Lemma update_view_spec d data datalen d' :
  Wf d ->
  0 <= datalen < 2 ^ 64 -> datalen mod 8 = 0 -> datalen <= 8 * len data ->
  update d data datalen = Ok d' ->
  (buflen d', pending d') = update_view d data datalen.
Proof.
  intros HWf Hd Hd8 Hlen.
  destruct (Wf_left d HWf) as [Hl Hbl]. destruct HWf as (Hbuf & Hr & Hm).
  unfold update, update_view, pending.
  set (left := Z.shiftr (buflen d) 3) in *.
  assert (Hk : datalen = 8 * (datalen / 8)).
  { pose proof (Z.div_mod datalen 8 ltac:(lia)). lia. }
  rewrite shiftr3, land63.
  set (k := datalen / 8) in *.
  assert (Hk0 : 0 <= k) by lia.
  pose proof (Z.mod_pos_bound k 64 ltac:(lia)) as Hk64.
  pose proof (Z.div_mod k 64 ltac:(lia)) as Hkdm.
  assert (Hkq : 0 <= k / 64) by (apply Z.div_pos; lia).
  assert (Hdata : k <= len data) by lia.
  destruct (negb (left =? 0) && (64 - left <=? k mod 64)) eqn:E.
  - apply andb_prop in E. destruct E as [E1 E2].
    apply negb_true_iff, Z.eqb_neq in E1. apply Z.leb_le in E2.
    assert (Hfill : 64 - left <= k) by lia.
    rewrite slice_to_ok by (unfold len in *; lia). cbn [bind].
    rewrite copy_at_ok by (unfold len; lia). cbn [bind].
    rewrite slice_from_ok by (unfold len in *; lia). cbn [bind].
    rewrite shiftl3. rewrite (wrap64_small ((64 - left) * 8)) by lia.
    rewrite wrap64_small by lia.
    replace (8 * (64 - left)) with ((64 - left) * 8) by lia.
    set (dl := datalen - (64 - left) * 8) in *.
    assert (Hdl : dl = 8 * (k - (64 - left))) by (subst dl; lia).
    rewrite update_loop_spec; [| reflexivity | lia |].
    2:{ rewrite len_skipn by (unfold len in *; lia). lia. }
    cbn [bind].
    pose proof (Z.mod_pos_bound dl 512 ltac:(lia)) as Hr1.
    pose proof (Z.div_mod dl 512 ltac:(lia)) as Hdm.
    assert (Hq0 : 0 <= dl / 512) by (apply Z.div_pos; lia).
    assert (Hr8 : (dl mod 512) mod 8 = 0).
    { rewrite mod512_mod8, Hdl, Z.mul_comm. apply Z.mod_mul. lia. }
    pose proof (Z.div_mod (dl mod 512) 8 ltac:(lia)) as Hr8'.
    set (b := firstn (Z.to_nat left) (buf d) ++ _).
    set (d1 := compress_all _ _).
    assert (Hb1 : buf d1 = b).
    { subst d1. destruct (buf_compress_all
        (chunks (Z.to_nat (dl / 512)) (skipn (Z.to_nat (64 - left)) data))
        (_Block (bump (set_buf d b)) (buf (bump (set_buf d b))))) as [-> _].
      cbn [_Block set_h buf]. rewrite buf_bump. reflexivity. }
    assert (Hlb : length b = 64%nat).
    { subst b. rewrite !length_app, length_skipn, !length_firstn.
      unfold len in *. lia. }
    set (rest := skipn (64 * Z.to_nat (dl / 512))
                       (skipn (Z.to_nat (64 - left)) data)).
    assert (Hrest : (Z.to_nat (dl mod 512 / 8) <= length rest)%nat).
    { subst rest. rewrite !length_skipn. unfold len in *. lia. }
    destruct (0 <? dl mod 512) eqn:E3.
    + rewrite copy_at_ok by (unfold len; rewrite Hb1, Hlb; lia). cbn [bind].
      intros Heq; match type of Heq with Ok ?e = _ => assert (E' : d' = e) by congruence end; rewrite E'; clear Heq E'. cbn [buf buflen set_buf set_buflen].
      rewrite shiftl3, Z.mul_0_l, Z.add_0_l, shiftr3. f_equal.
      rewrite Hb1, Hlb. change (Z.to_nat 0) with 0%nat.
      replace (Z.to_nat (dl mod 512 / 8)) with (0 + Z.to_nat (dl mod 512 / 8))%nat
        at 1 by lia.
      rewrite (firstn_copied _ 0 _ (64 - 0) b rest); [reflexivity|lia|lia|assumption].
    + apply Z.ltb_ge in E3. assert (Hz : dl mod 512 = 0) by lia.
      intros Heq; match type of Heq with Ok ?e = _ => assert (E' : d' = e) by congruence end; rewrite E'; clear Heq E'. cbn [buf buflen set_buflen]. rewrite Hz. reflexivity.
  - cbn [bind].
    rewrite update_loop_spec; [| reflexivity | lia | lia]. cbn [bind].
    pose proof (Z.mod_pos_bound datalen 512 ltac:(lia)) as Hr1.
    pose proof (Z.div_mod datalen 512 ltac:(lia)) as Hdm.
    assert (Hq0 : 0 <= datalen / 512) by (apply Z.div_pos; lia).
    assert (Hr8 : (datalen mod 512) mod 8 = 0)
      by (rewrite mod512_mod8; assumption).
    pose proof (Z.div_mod (datalen mod 512) 8 ltac:(lia)) as Hr8'.
    assert (Hdm' : datalen mod 512 = 8 * (k mod 64)).
    { rewrite Hk at 1. replace 512 with (8 * 64) by lia.
      rewrite Zmult_mod_distr_l. reflexivity. }
    assert (Hsmall : left = 0 \/ k mod 64 < 64 - left).
    { apply andb_false_iff in E. destruct E as [E|E].
      - apply negb_false_iff, Z.eqb_eq in E. lia.
      - apply Z.leb_gt in E. lia. }
    set (d1 := compress_all _ d).
    destruct (buf_compress_all (chunks (Z.to_nat (datalen / 512)) data) d)
      as [Hb1 _]. fold d1 in Hb1.
    set (rest := skipn (64 * Z.to_nat (datalen / 512)) data).
    assert (Hrest : (Z.to_nat (datalen mod 512 / 8) <= length rest)%nat).
    { subst rest. rewrite !length_skipn. unfold len in *. lia. }
    destruct (0 <? datalen mod 512) eqn:E3.
    + rewrite copy_at_ok by (unfold len; rewrite Hb1, Hbuf; lia). cbn [bind].
      intros Heq; match type of Heq with Ok ?e = _ => assert (E' : d' = e) by congruence end; rewrite E'; clear Heq E'. cbn [buf buflen set_buf set_buflen].
      rewrite shiftl3, shiftr3. f_equal; [lia|].
      rewrite Hb1, Hbuf.
      replace ((left * 8 + datalen mod 512) / 8)
        with (left + datalen mod 512 / 8).
      2:{ rewrite (Z.add_comm (left * 8)), Z.div_add by lia. lia. }
      rewrite Z2Nat.inj_add by lia.
      apply firstn_copied; [lia|lia|assumption].
    + intros Heq; match type of Heq with Ok ?e = _ => assert (E' : d' = e) by congruence end; rewrite E'; clear Heq E'. reflexivity.
Qed.

Lemma update_view_cong d1 d2 data datalen :
  buflen d1 = buflen d2 -> pending d1 = pending d2 ->
  update_view d1 data datalen = update_view d2 data datalen.
Proof. intros Hb Hp. unfold update_view. rewrite Hb, Hp. reflexivity. Qed.

Lemma update_blocks_cong d1 d2 data datalen :
  buflen d1 = buflen d2 -> pending d1 = pending d2 ->
  update_blocks d1 data datalen = update_blocks d2 data datalen.
Proof.
  intros Hb Hp. unfold update_blocks. fold (pending d1). fold (pending d2).
  rewrite Hb, Hp. reflexivity.
Qed.

(** [update] on two states that look alike gives two states that look
    alike. *)
Lemma update_cong d1 d2 data datalen :
  Wf d1 -> Wf d2 -> same_view d1 d2 ->
  0 <= datalen < 2 ^ 64 -> datalen mod 8 = 0 -> datalen <= 8 * len data ->
  ok_same (update d1 data datalen) (update d2 data datalen).
Proof.
  intros HW1 HW2 (Hc & Hb & Hp) D1 D2 D3.
  destruct (update_spec d1 data datalen HW1 D1 D2 D3) as (e1 & Hu1 & HW1' & Hc1).
  destruct (update_spec d2 data datalen HW2 D1 D2 D3) as (e2 & Hu2 & HW2' & Hc2).
  pose proof (update_view_spec d1 data datalen e1 HW1 D1 D2 D3 Hu1) as Hv1.
  pose proof (update_view_spec d2 data datalen e2 HW2 D1 D2 D3 Hu2) as Hv2.
  rewrite (update_view_cong d1 d2 data datalen Hb Hp), <- Hv2 in Hv1.
  rewrite (update_blocks_cong d1 d2 data datalen Hb Hp) in Hc1.
  rewrite (core_compress_all _ d1 d2 Hc), <- Hc2 in Hc1.
  exists e1, e2. split; [assumption|]. split; [assumption|].
  split; [assumption|]. split; [assumption|]. split; [assumption|].
  split; congruence.
Qed.

Lemma update_cong_bind (B : Type) d1 d2 data datalen
      (k1 k2 : digest -> result B) (P : result B -> result B -> Prop) :
  Wf d1 -> Wf d2 -> same_view d1 d2 ->
  0 <= datalen < 2 ^ 64 -> datalen mod 8 = 0 -> datalen <= 8 * len data ->
  (forall e1 e2, Wf e1 -> Wf e2 -> same_view e1 e2 -> P (k1 e1) (k2 e2)) ->
  P (bind (update d1 data datalen) k1) (bind (update d2 data datalen) k2).
Proof.
  intros HW1 HW2 Hv D1 D2 D3 Hk.
  destruct (update_cong d1 d2 data datalen HW1 HW2 Hv D1 D2 D3)
    as (e1 & e2 & -> & -> & HW1' & HW2' & Hv').
  cbn [bind]. apply Hk; assumption.
Qed.

Lemma same_view_back_off d1 d2 n :
  same_view d1 d2 -> same_view (back_off d1 n) (back_off d2 n).
Proof.
  intros (Hc & Hb & Hp). apply core_fields in Hc.
  destruct Hc as (C1 & C2 & C3 & C4 & C5).
  unfold same_view, core, pending, back_off in *.
  cbn [hashSize h salt t nullt buf buflen set_t].
  repeat split; congruence.
Qed.

Lemma same_view_set_nullt d1 d2 b :
  same_view d1 d2 -> same_view (set_nullt d1 b) (set_nullt d2 b).
Proof.
  intros (Hc & Hb & Hp). apply core_fields in Hc.
  destruct Hc as (C1 & C2 & C3 & C4 & C5).
  unfold same_view, core, pending in *.
  cbn [hashSize h salt t nullt buf buflen set_nullt].
  repeat split; congruence.
Qed.

Lemma bind_assoc (A B C : Type) (m : result A) (f : A -> result B)
      (g : B -> result C) :
  bind (bind m f) g = bind m (fun x => bind (f x) g).
Proof. destruct m; reflexivity. Qed.

Lemma ok_same_intro e1 e2 :
  Wf e1 -> Wf e2 -> same_view e1 e2 -> ok_same (Ok e1) (Ok e2).
Proof. intros. exists e1, e2. auto. Qed.

(** The padding of [Sum] on two states that look alike. *)
Lemma Sum_pad_cong d1 d2 :
  Wf d1 -> Wf d2 -> same_view d1 d2 -> ok_same (Sum_pad d1) (Sum_pad d2).
Proof.
  intros HW1 HW2 Hv.
  pose proof Hv as (Hc & Hb & Hp).
  pose proof (core_fields _ _ Hc) as (Hs & _).
  pose proof HW1 as (_ & Hr & Hm).
  assert (Hdom : forall e1 e2, Wf e1 -> Wf e2 -> same_view e1 e2 ->
    ok_same
      (d <- (if hashSize e1 =? 224 then update e1 [x00] 8 else update e1 [x01] 8) ;;
       Ok (back_off d 8))
      (d <- (if hashSize e2 =? 224 then update e2 [x00] 8 else update e2 [x01] 8) ;;
       Ok (back_off d 8))).
  { intros e1 e2 W1 W2 V. pose proof V as (Vc & _).
    apply core_fields in Vc. destruct Vc as (Vs & _). rewrite <- Vs.
    destruct (hashSize e1 =? 224);
      (apply (update_cong_bind digest _ _ _ _ _ _ ok_same); try assumption;
       [lia | reflexivity | cbn; lia |]);
      intros f1 f2 F1 F2 FV; apply ok_same_intro;
        try apply Wf_back_off; try assumption; apply same_view_back_off; assumption. }
  unfold Sum_pad. rewrite <- Hb.
  destruct (buflen d1 =? 440) eqn:E440.
  - change (hashSize (back_off d1 8)) with (hashSize d1).
    change (hashSize (back_off d2 8)) with (hashSize d2). rewrite <- Hs.
    destruct (hashSize d1 =? 224);
      (apply update_cong;
       [apply Wf_back_off; assumption | apply Wf_back_off; assumption
       | apply same_view_back_off; assumption | lia | reflexivity | cbn; lia]).
  - apply Z.eqb_neq in E440.
    destruct (buflen d1 <? 440) eqn:Elt.
    + apply Z.ltb_lt in Elt.
      set (e1 := if buflen d1 =? 0 then set_nullt d1 true else d1).
      set (e2 := if buflen d1 =? 0 then set_nullt d2 true else d2).
      assert (He : Wf e1 /\ Wf e2 /\ same_view e1 e2
                   /\ buflen e1 = buflen d1 /\ buflen e2 = buflen d1).
      { subst e1 e2. destruct (buflen d1 =? 0);
          (split; [|split; [|split; [|split]]]);
          first [ assumption
                | apply Wf_set_nullt; assumption
                | apply same_view_set_nullt; assumption
                | cbn [buflen set_nullt]; congruence ]. }
      destruct He as (W1 & W2 & V & B1 & B2).
      change (buflen (back_off e1 (sub32 440 (wrap32 (buflen d1)))))
        with (buflen e1).
      change (buflen (back_off e2 (sub32 440 (wrap32 (buflen d1)))))
        with (buflen e2).
      rewrite B1, B2, (wrap64_small (440 - buflen d1)) by lia.
      cbn [bind].
      apply (update_cong_bind digest _ _ _ _ _ _ ok_same); try (apply Wf_back_off; assumption).
      * apply same_view_back_off. assumption.
      * lia.
      * rewrite Zminus_mod, Hm. reflexivity.
      * change (len pad) with 64. lia.
      * exact Hdom.
    + apply Z.ltb_ge in Elt.
      change (buflen (back_off d1 (sub32 512 (wrap32 (buflen d1)))))
        with (buflen d1).
      change (buflen (back_off d2 (sub32 512 (wrap32 (buflen d1)))))
        with (buflen d2).
      rewrite <- Hb, (wrap64_small (512 - buflen d1)) by lia.
      rewrite !bind_assoc.
      apply (update_cong_bind digest _ _ _ _ _ _ ok_same); try (apply Wf_back_off; assumption).
      * apply same_view_back_off. assumption.
      * lia.
      * rewrite Zminus_mod, Hm. reflexivity.
      * change (len pad) with 64. lia.
      * intros f1 f2 F1 F2 FV.
        change (slice_from pad 1) with (Ok (repeat x00 63)). cbn [bind].
        rewrite !bind_assoc.
        apply (update_cong_bind digest _ _ _ _ _ _ ok_same); try (apply Wf_back_off; assumption).
        -- apply same_view_back_off. assumption.
        -- lia.
        -- reflexivity.
        -- cbn. lia.
        -- intros g1 g2 G1 G2 GV. cbn [bind].
           apply Hdom; try (apply Wf_set_nullt; assumption).
           apply same_view_set_nullt. assumption.
Qed.

Lemma msglen_cong d1 d2 : same_view d1 d2 -> msglen d1 = msglen d2.
Proof.
  intros (Hc & Hb & _). apply core_fields in Hc.
  destruct Hc as (_ & _ & _ & Ht & _). unfold msglen. rewrite Hb, Ht.
  reflexivity.
Qed.

Lemma Sum_state_cong d1 d2 :
  Wf d1 -> Wf d2 -> same_view d1 d2 -> ok_same (Sum_state d1) (Sum_state d2).
Proof.
  intros HW1 HW2 Hv. unfold Sum_state.
  rewrite <- (msglen_cong d1 d2 Hv).
  destruct (Sum_pad_cong d1 d2 HW1 HW2 Hv)
    as (p1 & p2 & -> & -> & W1 & W2 & V).
  cbn [bind]. apply update_cong; try (apply Wf_back_off; assumption).
  - apply same_view_back_off. assumption.
  - lia.
  - reflexivity.
  - rewrite (len_firstn (msglen d1) 8) || unfold len; rewrite length_msglen; lia.
Qed.

Lemma Sum_out_cong d1 d2 : core d1 = core d2 -> Sum_out d1 = Sum_out d2.
Proof.
  intros Hc. apply core_fields in Hc. destruct Hc as (Hs & Hh & _).
  unfold Sum_out, Size. rewrite Hs, Hh. reflexivity.
Qed.

(** The digest is the same for two states that look alike: what lies in
    the buffer behind the buffered bytes never reaches a compression. *)
Lemma Sum_bytes_cong in_ d1 d2 :
  Wf d1 -> Wf d2 -> same_view d1 d2 -> Sum_bytes in_ d1 = Sum_bytes in_ d2.
Proof.
  intros HW1 HW2 Hv. unfold Sum_bytes, Sum.
  destruct (Sum_state_cong d1 d2 HW1 HW2 Hv)
    as (f1 & f2 & -> & -> & _ & _ & (Hc & _)).
  cbn [bind]. rewrite (Sum_out_cong f1 f2 Hc).
  destruct (Sum_out f2); reflexivity.
Qed.

Lemma Write_cong p d1 d2 :
  Wf d1 -> Wf d2 -> same_view d1 d2 ->
  exists e1 e2,
    Write p d1 = Ok (e1, len p) /\ Write p d2 = Ok (e2, len p)
    /\ Wf e1 /\ Wf e2 /\ same_view e1 e2.
Proof.
  intros HW1 HW2 Hv. destruct (datalen_of_len p) as (D1 & D2 & D3).
  destruct (update_cong d1 d2 p _ HW1 HW2 Hv D1 D2 D3)
    as (e1 & e2 & H1 & H2 & W1 & W2 & V).
  exists e1, e2. unfold Write. rewrite H1, H2. cbn [bind]. auto 10.
Qed.

Lemma write_all_cong ps : forall d1 d2,
  Wf d1 -> Wf d2 -> same_view d1 d2 ->
  ok_same (write_all ps d1) (write_all ps d2).
Proof.
  induction ps as [|p ps IH]; intros d1 d2 HW1 HW2 Hv.
  - apply ok_same_intro; assumption.
  - destruct (Write_cong p d1 d2 HW1 HW2 Hv)
      as (e1 & e2 & H1 & H2 & W1 & W2 & V).
    cbn [write_all]. rewrite H1, H2. cbn [bind]. apply IH; assumption.
Qed.

Lemma sum_chunks_Sum_bytes d ps :
  sum_chunks d ps = (e <- write_all ps d ;; Sum_bytes [] e).
Proof. reflexivity. Qed.

Lemma sum_chunks_cong ps d1 d2 :
  Wf d1 -> Wf d2 -> same_view d1 d2 -> sum_chunks d1 ps = sum_chunks d2 ps.
Proof.
  intros HW1 HW2 Hv. rewrite !sum_chunks_Sum_bytes.
  destruct (write_all_cong ps d1 d2 HW1 HW2 Hv)
    as (e1 & e2 & -> & -> & W1 & W2 & V).
  cbn [bind]. apply Sum_bytes_cong; assumption.
Qed.

(** ** [Reset] *)

Lemma constructed_fresh d0 :
  constructed d0 ->
  h d0 = (if hashSize d0 =? 224 then iv224 else iv256)
  /\ t d0 = (0, 0) /\ nullt d0 = false /\ buflen d0 = 0.
Proof.
  intros [->|[->|[[s H]|[s H]]]]; try (repeat split; reflexivity).
  - unfold NewSalt in H. rewrite setSalt_spec in H.
    destruct (len s =? 16); [|discriminate]. injection H as <-.
    repeat split; reflexivity.
  - unfold New224Salt in H. rewrite setSalt_spec in H.
    destruct (len s =? 16); [|discriminate]. injection H as <-.
    repeat split; reflexivity.
Qed.

(** X5.  [Reset] brings an instance back to the behaviour of the freshly
    constructed one: whatever was written, summed or reset before, the
    chunks written after [Reset] have the digest they have on the instance
    as the constructor returned it (salted or not).  The bytes left in the
    buffer array by the earlier writes are never read. *)
Theorem Reset_behaves_as_fresh d0 os d ps :
  constructed d0 -> run os d0 = Ok d ->
  sum_chunks (Reset d) ps = sum_chunks d0 ps.
Proof.
  intros Hc Hrun.
  destruct (session_Inv d0 os d Hc Hrun) as (HI & Hs & Hsalt).
  pose proof (constructed_Inv d0 Hc) as HI0.
  destruct (constructed_fresh d0 Hc) as (Hh0 & Ht0 & Hn0 & Hb0).
  assert (HIr : Inv (Reset d)).
  { destruct HI as [Hsize _ (Hbuf & _) _ _ _]. apply Reset_Inv; assumption. }
  apply sum_chunks_cong.
  - destruct HIr; assumption.
  - destruct HI0; assumption.
  - destruct (Reset_salt d) as [Rs Rh].
    assert (Hhr : h (Reset d) = h d0).
    { rewrite Hh0, <- Hs. unfold Reset.
      destruct (hashSize d =? 224); reflexivity. }
    assert (Htr : t (Reset d) = (0, 0) /\ nullt (Reset d) = false
                  /\ buflen (Reset d) = 0).
    { unfold Reset. destruct (hashSize d =? 224); repeat split. }
    destruct Htr as (Htr & Hnr & Hbr).
    unfold same_view, core, pending. rewrite Hbr, Hb0, Hhr, Htr, Hnr, Rs, Rh.
    rewrite Hs, Hsalt, Ht0, Hn0. repeat split.
Qed.

Lemma Reset_behaves_as_fresh_witness :
  constructed ex_salted
  /\ run ex_session ex_salted = Ok ex_state
  /\ sum_chunks (Reset ex_state) [bytes_of "It's so salty out there!"]
     = sum_chunks ex_salted [bytes_of "It's so salty out there!"].
Proof.
  assert (Hc : constructed ex_salted)
    by (right; right; left; exists ex_salt; vm_compute; reflexivity).
  assert (Hrun : run ex_session ex_salted = Ok ex_state)
    by (vm_compute; reflexivity).
  split; [exact Hc|]. split; [exact Hrun|].
  exact (Reset_behaves_as_fresh ex_salted ex_session ex_state _ Hc Hrun).
Defined.

(** ** Streaming over safe writes *)

Lemma len_app (A : Type) (x y : list A) : len (x ++ y) = len x + len y.
Proof. unfold len. rewrite length_app. lia. Qed.

Lemma chunks_S k x : chunks (S k) x = firstn 64 x :: chunks k (skipn 64 x).
Proof. reflexivity. Qed.

Lemma len_rest_of x : len (rest_of x) = len x mod 64.
Proof.
  unfold rest_of, len. rewrite length_skipn.
  pose proof (Z.div_mod (Z.of_nat (length x)) 64 ltac:(lia)).
  pose proof (Z.mod_pos_bound (Z.of_nat (length x)) 64 ltac:(lia)).
  assert (0 <= Z.of_nat (length x) / 64) by (apply Z.div_pos; lia).
  lia.
Qed.

(** Cutting a string that starts with a whole block. *)
Lemma blocks_rest_step x :
  64 <= len x ->
  blocks_of x = firstn 64 x :: blocks_of (skipn 64 x)
  /\ rest_of x = rest_of (skipn 64 x).
Proof.
  intros H. unfold blocks_of, rest_of.
  assert (Hl : len (skipn 64 x) = len x - 64).
  { change 64%nat with (Z.to_nat 64). apply len_skipn. pose proof (len_nonneg x). lia. }
  rewrite Hl.
  assert (Hq : len x / 64 = (len x - 64) / 64 + 1).
  { replace (len x) with (len x - 64 + 1 * 64) at 1 by lia.
    rewrite Z.div_add by lia. reflexivity. }
  assert (Hq0 : 0 <= (len x - 64) / 64) by (apply Z.div_pos; lia).
  rewrite Hq, Z2Nat.inj_add by lia. change (Z.to_nat 1) with 1%nat.
  rewrite Nat.add_1_r, chunks_S. split; [reflexivity|].
  rewrite skipn_skipn. f_equal. lia.
Qed.

Lemma blocks_rest_short x :
  len x < 64 -> blocks_of x = [] /\ rest_of x = x.
Proof.
  intros H. pose proof (len_nonneg x). unfold blocks_of, rest_of.
  rewrite Z.div_small by lia. split; reflexivity.
Qed.

(** The blocks of [x ++ y] are the blocks of [x] and then the blocks of
    what [x] leaves followed by [y]. *)
Lemma blocks_rest_app y : forall (n : nat) x,
  length x = n ->
  blocks_of x ++ blocks_of (rest_of x ++ y) = blocks_of (x ++ y)
  /\ rest_of (rest_of x ++ y) = rest_of (x ++ y).
Proof.
  induction n as [n IH] using (well_founded_induction Wf_nat.lt_wf).
  intros x Hn.
  destruct (Z.lt_ge_cases (len x) 64) as [Hs|Hs].
  - destruct (blocks_rest_short x Hs) as [-> ->]. split; reflexivity.
  - destruct (blocks_rest_step x Hs) as [Hb Hr].
    assert (Hs' : 64 <= len (x ++ y))
      by (rewrite len_app; pose proof (len_nonneg y); lia).
    destruct (blocks_rest_step (x ++ y) Hs') as [Hb' Hr'].
    assert (Hf : firstn 64 (x ++ y) = firstn 64 x).
    { rewrite firstn_app. unfold len in Hs.
      replace (64 - length x)%nat with 0%nat by lia.
      rewrite firstn_O, app_nil_r. reflexivity. }
    assert (Hk : skipn 64 (x ++ y) = skipn 64 x ++ y).
    { rewrite skipn_app. unfold len in Hs.
      replace (64 - length x)%nat with 0%nat by lia. reflexivity. }
    destruct (IH (length (skipn 64 x))) with (x := skipn 64 x) as [I1 I2].
    { rewrite length_skipn. unfold len in Hs. lia. }
    { reflexivity. }
    rewrite Hb, Hr, Hb', Hr', Hf, Hk. split.
    + cbn [app]. f_equal. exact I1.
    + exact I2.
Qed.

Lemma div512 x : 8 * x / 512 = x / 64.
Proof.
  replace 512 with (8 * 64) by reflexivity.
  rewrite Z.div_mul_cancel_l by lia. reflexivity.
Qed.

Lemma mod512 x : (8 * x) mod 512 = 8 * (x mod 64).
Proof.
  replace 512 with (8 * 64) by reflexivity.
  rewrite Zmult_mod_distr_l. reflexivity.
Qed.

Lemma firstn_rest_of x :
  firstn (Z.to_nat (len x mod 64)) (rest_of x) = rest_of x.
Proof.
  apply firstn_all2. pose proof (len_rest_of x) as H. unfold len in *. lia.
Qed.

(** On a safe write [update] compresses the whole blocks of the buffered
    bytes followed by the new ones, and buffers the rest. *)
Lemma update_safe d p :
  Wf d -> len p < 2 ^ 61 ->
  safe_write (Z.shiftr (buflen d) 3) (len p) = true ->
  update_blocks d p (8 * len p) = blocks_of (pending d ++ p)
  /\ update_view d p (8 * len p)
     = (8 * len (rest_of (pending d ++ p)), rest_of (pending d ++ p)).
Proof.
  intros HWf Hlen Hsafe.
  pose proof (len_pending d HWf) as Hlp.
  destruct (Wf_left d HWf) as [Hl Hbl].
  pose proof (len_nonneg p) as Hp.
  unfold update_blocks, update_view. fold (pending d).
  rewrite shiftr3_8, land63.
  set (left := Z.shiftr (buflen d) 3) in *.
  set (n := len p) in *.
  pose proof (Z.mod_pos_bound n 64 ltac:(lia)) as Hn64.
  pose proof (Z.div_mod n 64 ltac:(lia)) as Hndm.
  assert (Hall : len (pending d ++ p) = left + n) by (rewrite len_app; lia).
  destruct (negb (left =? 0) && (64 - left <=? n mod 64)) eqn:E.
  - apply andb_prop in E. destruct E as [E1 E2].
    apply negb_true_iff, Z.eqb_neq in E1. apply Z.leb_le in E2.
    assert (Hfill : 64 - left <= n) by lia.
    destruct (blocks_rest_step (pending d ++ p)) as [Hb Hr]; [lia|].
    assert (Hf : firstn 64 (pending d ++ p)
                 = pending d ++ firstn (Z.to_nat (64 - left)) p).
    { rewrite firstn_app. f_equal.
      - apply firstn_all2. unfold len in Hlp. lia.
      - f_equal. unfold len in Hlp. lia. }
    assert (Hk : skipn 64 (pending d ++ p) = skipn (Z.to_nat (64 - left)) p).
    { rewrite skipn_app, skipn_all2 by (unfold len in Hlp; lia).
      cbn [app]. f_equal. unfold len in Hlp. lia. }
    assert (Hlk : len (skipn (Z.to_nat (64 - left)) p) = n - (64 - left))
      by (apply len_skipn; lia).
    rewrite Hb, Hr, Hf, Hk.
    replace (8 * n - 8 * (64 - left)) with (8 * (n - (64 - left))) by lia.
    rewrite div512, mod512.
    replace (8 * ((n - (64 - left)) mod 64) / 8)
      with ((n - (64 - left)) mod 64)
      by (rewrite Z.mul_comm, Z.div_mul; lia).
    split.
    + unfold blocks_of. rewrite Hlk. reflexivity.
    + rewrite len_rest_of, Hlk. f_equal.
      pose proof (firstn_rest_of (skipn (Z.to_nat (64 - left)) p)) as Hfr.
      unfold rest_of in *. rewrite Hlk in *. exact Hfr.
  - rewrite div512, mod512.
    replace (8 * (n mod 64) / 8) with (n mod 64)
      by (rewrite Z.mul_comm, Z.div_mul; lia).
    assert (Hcase : left = 0 \/ (left <> 0 /\ 0 < n < 64 - left)).
    { unfold safe_write in Hsafe.
      apply andb_false_iff in E.
      destruct (Z.eq_dec left 0) as [Hz|Hz]; [left; assumption|right].
      split; [assumption|].
      destruct E as [E|E].
      - apply negb_false_iff, Z.eqb_eq in E. contradiction.
      - apply Z.leb_gt in E.
        apply orb_prop in Hsafe. destruct Hsafe as [Hsafe|Hsafe].
        + apply orb_prop in Hsafe. destruct Hsafe as [Hsafe|Hsafe].
          * apply Z.eqb_eq in Hsafe. contradiction.
          * apply Z.leb_le in Hsafe. lia.
        + apply andb_prop in Hsafe. destruct Hsafe as [H1 H2].
          apply Z.ltb_lt in H1, H2. lia. }
    destruct Hcase as [Hz|[Hnz Hshort]].
    + assert (Hnil : pending d = []).
      { apply length_zero_iff_nil. unfold len in Hlp. lia. }
      rewrite Hnil, Hz. cbn [app]. split; [reflexivity|].
      rewrite len_rest_of. fold n.
      destruct (0 <? 8 * (n mod 64)) eqn:E3.
      * f_equal; try lia. exact (firstn_rest_of p).
      * apply Z.ltb_ge in E3. assert (Hm0 : n mod 64 = 0) by lia.
        rewrite Hm0. f_equal.
        symmetry. apply length_zero_iff_nil.
        pose proof (len_rest_of p) as Hlr. fold n in Hlr. unfold len in Hlr. lia.
    + destruct (blocks_rest_short (pending d ++ p)) as [Hb Hr]; [lia|].
      rewrite Hb, Hr, Hall.
      rewrite (Z.div_small n 64), (Z.mod_small n 64) by lia.
      replace (0 <? 8 * n) with true by (symmetry; apply Z.ltb_lt; lia).
      change (Z.to_nat 0) with 0%nat. cbn [chunks Nat.mul skipn].
      split; [reflexivity|]. f_equal; try lia. f_equal.
      apply firstn_all2. subst n. unfold len. lia.
Qed.

Lemma Write_safe d p :
  Wf d -> len p < 2 ^ 61 ->
  safe_write (Z.shiftr (buflen d) 3) (len p) = true ->
  exists d',
    Write p d = Ok (d', len p) /\ Wf d'
    /\ core d' = core (compress_all (blocks_of (pending d ++ p)) d)
    /\ pending d' = rest_of (pending d ++ p).
Proof.
  intros HWf Hlen Hsafe.
  destruct (update_safe d p HWf Hlen Hsafe) as [Hb Hv].
  pose proof (len_nonneg p) as Hp.
  assert (D1 : 0 <= 8 * len p < 2 ^ 64) by lia.
  assert (D2 : (8 * len p) mod 8 = 0)
    by (rewrite Z.mul_comm; apply Z.mod_mul; lia).
  assert (D3 : 8 * len p <= 8 * len p) by lia.
  destruct (update_spec d p _ HWf D1 D2 D3) as (d' & Hu & HWf' & Hc).
  pose proof (update_view_spec d p _ d' HWf D1 D2 D3 Hu) as Hv'.
  rewrite Hv in Hv'. rewrite Hb in Hc.
  exists d'. unfold Write. rewrite datalen_small, Hu by assumption.
  cbn [bind]. split; [reflexivity|]. split; [assumption|].
  split; [assumption|]. congruence.
Qed.

Lemma same_view_intro d1 d2 :
  Wf d1 -> Wf d2 -> core d1 = core d2 -> pending d1 = pending d2 ->
  same_view d1 d2.
Proof.
  intros W1 W2 Hc Hp. split; [assumption|]. split; [|assumption].
  destruct (Wf_left d1 W1) as [_ ->]. destruct (Wf_left d2 W2) as [_ ->].
  rewrite <- (len_pending d1 W1), <- (len_pending d2 W2), Hp. reflexivity.
Qed.

(** A sequence of safe writes compresses the whole blocks of the buffered
    bytes followed by all the chunks, and buffers the rest. *)
Lemma write_all_safe ps : forall d,
  Wf d -> len (concat ps) < 2 ^ 61 ->
  safe_chunks (Z.shiftr (buflen d) 3) ps = true ->
  exists d',
    write_all ps d = Ok d' /\ Wf d'
    /\ core d' = core (compress_all (blocks_of (pending d ++ concat ps)) d)
    /\ pending d' = rest_of (pending d ++ concat ps).
Proof.
  induction ps as [|p ps IH]; intros d HWf Hlen Hsafe.
  - exists d. cbn [write_all concat]. rewrite app_nil_r.
    destruct (blocks_rest_short (pending d)) as [-> ->].
    { rewrite len_pending by assumption. destruct (Wf_left d HWf). lia. }
    auto.
  - cbn [safe_chunks] in Hsafe. apply andb_prop in Hsafe.
    destruct Hsafe as [Hs1 Hs2].
    cbn [concat] in *. rewrite len_app in Hlen.
    pose proof (len_nonneg p). pose proof (len_nonneg (concat ps)).
    destruct (Write_safe d p HWf ltac:(lia) Hs1) as (d1 & Hw & HWf1 & Hc1 & Hp1).
    assert (Hleft1 : Z.shiftr (buflen d1) 3 = (Z.shiftr (buflen d) 3 + len p) mod 64).
    { rewrite <- (len_pending d1 HWf1), Hp1, len_rest_of, len_app.
      rewrite (len_pending d HWf). reflexivity. }
    rewrite <- Hleft1 in Hs2.
    destruct (IH d1 HWf1 ltac:(lia) Hs2) as (d' & Hw' & HWf' & Hc' & Hp').
    exists d'. cbn [write_all]. rewrite Hw. cbn [bind].
    split; [assumption|]. split; [assumption|].
    destruct (blocks_rest_app (concat ps) (length (pending d ++ p))
                (pending d ++ p) eq_refl) as [Hb Hr].
    rewrite Hp1 in Hc', Hp'. rewrite <- app_assoc in Hb, Hr.
    split.
    + rewrite Hc', <- Hb, compress_all_app.
      apply core_compress_all. assumption.
    + rewrite Hp'. exact Hr.
Qed.

(** Safe chunks written one call at a time to a well-formed state have the
    digest of their concatenation written in one call. *)
Lemma sum_chunks_safe d ps :
  Wf d ->
  len (concat ps) < 2 ^ 61 ->
  safe_chunks (Z.shiftr (buflen d) 3) ps = true ->
  safe_write (Z.shiftr (buflen d) 3) (len (concat ps)) = true ->
  sum_chunks d ps = sum_chunks d [concat ps].
Proof.
  intros HWf Hlen Hs Hs1.
  destruct (write_all_safe ps d HWf Hlen Hs) as (e1 & H1 & W1 & C1 & P1).
  destruct (Write_safe d (concat ps) HWf Hlen Hs1) as (e2 & H2 & W2 & C2 & P2).
  rewrite !sum_chunks_Sum_bytes. cbn [write_all]. rewrite H1, H2. cbn [bind].
  apply Sum_bytes_cong; try assumption.
  apply same_view_intro; try assumption; congruence.
Qed.

(** X6.  Streaming equivalence holds over safe writes: from a state of a
    session, if every chunk is written safely and the single write of the
    whole message is safe too (as it always is on an empty buffer), then
    writing the chunks one call at a time gives the digest of writing
    their concatenation in one call. *)
Theorem streaming_on_safe_chunks d0 os d ps :
  constructed d0 -> run os d0 = Ok d ->
  len (concat ps) < 2 ^ 61 ->
  safe_chunks (Z.shiftr (buflen d) 3) ps = true ->
  safe_write (Z.shiftr (buflen d) 3) (len (concat ps)) = true ->
  sum_chunks d ps = sum_chunks d [concat ps].
Proof.
  intros Hc Hrun Hlen Hs Hs1.
  destruct (session_Inv d0 os d Hc Hrun) as ([_ _ HWf _ _ _] & _ & _).
  apply sum_chunks_safe; assumption.
Qed.

Lemma streaming_on_safe_chunks_witness :
  constructed New
  /\ run [] New = Ok New
  /\ len (concat [bytes_of "BLA"; repeat x41 61; repeat x42 64; bytes_of "KE"]) < 2 ^ 61
  /\ sum_chunks New [bytes_of "BLA"; repeat x41 61; repeat x42 64; bytes_of "KE"]
     = sum_chunks New [concat [bytes_of "BLA"; repeat x41 61; repeat x42 64; bytes_of "KE"]].
Proof.
  assert (Hc : constructed New) by (left; reflexivity).
  assert (Hl : len (concat [bytes_of "BLA"; repeat x41 61; repeat x42 64; bytes_of "KE"]) < 2 ^ 61)
    by (vm_compute; reflexivity).
  split; [exact Hc|]. split; [reflexivity|]. split; [exact Hl|].
  apply (streaming_on_safe_chunks New [] New _ Hc eq_refl Hl);
    vm_compute; reflexivity.
Defined.

Lemma short_chunks_safe ps : forall left,
  0 <= left < 64 ->
  Forall (fun p : list byte => 0 < len p < 64) ps ->
  safe_chunks left ps = true.
Proof.
  induction ps as [|p ps IH]; intros left Hl HF; [reflexivity|].
  inversion HF as [|? ? Hp HF']; subst. cbn [safe_chunks].
  apply andb_true_iff. split.
  - unfold safe_write. rewrite (Z.mod_small (len p) 64) by lia.
    destruct (Z.lt_ge_cases (len p) (64 - left)) as [H|H].
    + apply orb_true_iff. right. apply andb_true_iff.
      split; [apply Z.ltb_lt|apply Z.ltb_lt]; lia.
    + apply orb_true_iff. left. apply orb_true_iff. right.
      apply Z.leb_le. lia.
  - apply IH; [apply Z.mod_pos_bound; lia|assumption].
Qed.

(** X7.  On a freshly constructed instance, every chunking of a message
    into non-empty chunks shorter than 64 bytes gives the digest of the
    message written in one call. *)
Theorem streaming_short_chunks d0 ps :
  constructed d0 ->
  Forall (fun p : list byte => 0 < len p < 64) ps ->
  len (concat ps) < 2 ^ 61 ->
  sum_chunks d0 ps = sum_chunks d0 [concat ps].
Proof.
  intros Hc HF Hlen.
  destruct (constructed_fresh d0 Hc) as (_ & _ & _ & Hb).
  destruct (constructed_Inv d0 Hc) as [_ _ HWf _ _ _].
  apply (sum_chunks_safe d0 ps HWf Hlen).
  - rewrite Hb. apply short_chunks_safe; [cbn; lia|assumption].
  - rewrite Hb. reflexivity.
Qed.

Lemma streaming_short_chunks_witness :
  constructed New224
  /\ Forall (fun p : list byte => 0 < len p < 64)
            [bytes_of "Buffalo buffalo "; repeat x20 63; bytes_of "buffalo"]
  /\ sum_chunks New224 [bytes_of "Buffalo buffalo "; repeat x20 63; bytes_of "buffalo"]
     = sum_chunks New224
         [concat [bytes_of "Buffalo buffalo "; repeat x20 63; bytes_of "buffalo"]].
Proof.
  assert (Hc : constructed New224) by (right; left; reflexivity).
  assert (HF : Forall (fun p : list byte => 0 < len p < 64)
                 [bytes_of "Buffalo buffalo "; repeat x20 63; bytes_of "buffalo"])
    by (repeat constructor; vm_compute; reflexivity).
  split; [exact Hc|]. split; [exact HF|].
  apply (streaming_short_chunks New224 _ Hc HF). vm_compute. reflexivity.
Defined.

Lemma block_chunks_safe ps q :
  Forall (fun p : list byte => len p mod 64 = 0) ps ->
  safe_chunks 0 (ps ++ [q]) = true.
Proof.
  induction ps as [|p ps IH]; intros HF; [reflexivity|].
  inversion HF as [|? ? Hp HF']; subst. cbn [app safe_chunks].
  rewrite Z.add_0_l, Hp. apply IH. assumption.
Qed.

(** X8.  On a freshly constructed instance, writing chunks whose lengths
    are multiples of the block size and then one last chunk of any length
    gives the digest of the message written in one call. *)
Theorem streaming_block_multiples d0 ps q :
  constructed d0 ->
  Forall (fun p : list byte => len p mod 64 = 0) ps ->
  len (concat (ps ++ [q])) < 2 ^ 61 ->
  sum_chunks d0 (ps ++ [q]) = sum_chunks d0 [concat (ps ++ [q])].
Proof.
  intros Hc HF Hlen.
  destruct (constructed_fresh d0 Hc) as (_ & _ & _ & Hb).
  destruct (constructed_Inv d0 Hc) as [_ _ HWf _ _ _].
  apply (sum_chunks_safe d0 _ HWf Hlen).
  - rewrite Hb. apply block_chunks_safe. assumption.
  - rewrite Hb. reflexivity.
Qed.

Lemma streaming_block_multiples_witness :
  constructed New
  /\ Forall (fun p : list byte => len p mod 64 = 0) [repeat x61 128; repeat x62 64]
  /\ sum_chunks New ([repeat x61 128; repeat x62 64] ++ [bytes_of "tail"])
     = sum_chunks New [concat ([repeat x61 128; repeat x62 64] ++ [bytes_of "tail"])].
Proof.
  assert (Hc : constructed New) by (left; reflexivity).
  assert (HF : Forall (fun p : list byte => len p mod 64 = 0)
                 [repeat x61 128; repeat x62 64])
    by (repeat constructor).
  split; [exact Hc|]. split; [exact HF|].
  apply (streaming_block_multiples New _ _ Hc HF). vm_compute. reflexivity.
Defined.


(** * Properties of the revision with the [uint64] counter *)

(** ** The block function *)

Lemma nth_firstn_64 (p : list byte) (j : nat) :
  (j < 64)%nat -> nth j (firstn 64 p) x00 = nth j p x00.
Proof.
  intros Hj. rewrite nth_firstn.
  replace (j <? 64)%nat with true by (symmetry; apply Nat.ltb_lt; assumption).
  reflexivity.
Qed.

(** The compression reads the first 64 bytes of the slice it is given. *)
Lemma compress_firstn hh sl t0 t1 n p :
  compress hh sl t0 t1 n p = compress hh sl t0 t1 n (firstn 64 p).
Proof.
  unfold compress. f_equal. f_equal. unfold load_m.
  apply map_ext_in. intros i Hi. apply in_seq in Hi.
  rewrite !nth_firstn_64 by lia. reflexivity.
Qed.

Lemma core64_step d1 d2 b :
  Rev64.core d1 = Rev64.core d2 ->
  Rev64.core (Rev64.step d1 b) = Rev64.core (Rev64.step d2 b).
Proof.
  destruct d1, d2. unfold Rev64.core. cbn. intros [= -> -> -> -> ->].
  reflexivity.
Qed.

Lemma core64_compress_all bs : forall d1 d2,
  Rev64.core d1 = Rev64.core d2 ->
  Rev64.core (Rev64.compress_all bs d1) = Rev64.core (Rev64.compress_all bs d2).
Proof.
  induction bs as [|b bs IH]; intros d1 d2 E; cbn; [assumption|].
  apply IH. apply core64_step. assumption.
Qed.

Lemma x_compress_all64 bs : forall d,
  Rev64.x (Rev64.compress_all bs d) = Rev64.x d
  /\ Rev64.nx (Rev64.compress_all bs d) = Rev64.nx d.
Proof.
  induction bs as [|b bs IH]; intros d; cbn; [split; reflexivity|].
  destruct (IH (Rev64.step d b)) as [H1 H2].
  unfold Rev64.compress_all in *. rewrite H1, H2. split; reflexivity.
Qed.

Lemma compress_all64_app bs1 bs2 d :
  Rev64.compress_all (bs1 ++ bs2) d
  = Rev64.compress_all bs2 (Rev64.compress_all bs1 d).
Proof. unfold Rev64.compress_all. apply fold_left_app. Qed.

(** The loop of [_Block] compresses the whole blocks of [p] in order and
    counts their bytes. *)
Lemma block_loop_spec k : forall d p n,
  k = Z.to_nat (len p / 64) ->
  Rev64.block_loop k d p n
  = Ok (Rev64.compress_all (chunks k p) d, n + 64 * Z.of_nat k).
Proof.
  induction k as [|k IH]; intros d p n Hk.
  - cbn. rewrite Z.add_0_r. reflexivity.
  - pose proof (len_nonneg p) as Hp.
    assert (Hq : len p / 64 = Z.of_nat (S k)) by lia.
    pose proof (Z.div_mod (len p) 64 ltac:(lia)) as Hdm.
    pose proof (Z.mod_pos_bound (len p) 64 ltac:(lia)) as Hm.
    assert (H64 : 64 <= len p) by lia.
    cbn [Rev64.block_loop]. unfold BlockSize.
    replace (64 <=? len p) with true by (symmetry; apply Z.leb_le; lia).
    rewrite slice_from_ok by lia. cbn [bind].
    rewrite IH.
    + rewrite chunks_S. cbn [Rev64.compress_all fold_left].
      change (Z.to_nat 64) with 64%nat.
      unfold Rev64.step. rewrite compress_firstn. f_equal. f_equal. lia.
    + rewrite len_skipn by lia.
      replace (len p - 64) with (len p + (-1) * 64) by lia.
      rewrite Z.div_add by lia. lia.
Qed.

Lemma Block64_spec d p :
  Rev64._Block d p
  = Ok (Rev64.compress_all (blocks_of p) d, 64 * (len p / 64)).
Proof.
  unfold Rev64._Block, BlockSize, blocks_of.
  rewrite block_loop_spec by reflexivity.
  pose proof (len_nonneg p).
  assert (0 <= len p / 64) by (apply Z.div_pos; lia).
  rewrite Z2Nat.id by assumption. reflexivity.
Qed.

(** ** [Write] *)

Lemma Write64_unfold p d :
  Rev64.Write p d
  = ('(d1, p1) <- Write_head64 d p ;; Write_tail64 (len p) d1 p1).
Proof. reflexivity. Qed.

Lemma len_pending64 d : Rev64.Wf d -> len (Rev64.pending d) = Rev64.nx d.
Proof.
  intros (Hx & Hn). unfold Rev64.pending, len. rewrite length_firstn. lia.
Qed.

(** From an empty buffer, the second half of [Write] compresses the whole
    blocks of [p] and buffers the rest. *)
Lemma Write_tail64_spec nn d p :
  Rev64.Wf d -> Rev64.nx d = 0 ->
  exists d',
    Write_tail64 nn d p = Ok (d', nn) /\ Rev64.Wf d'
    /\ Rev64.core d' = Rev64.core (Rev64.compress_all (blocks_of p) d)
    /\ Rev64.pending d' = rest_of p.
Proof.
  intros (Hx & Hn) Hz. unfold Write_tail64.
  rewrite Block64_spec. cbn [bind].
  pose proof (len_nonneg p) as Hp.
  pose proof (Z.div_mod (len p) 64 ltac:(lia)) as Hdm.
  pose proof (Z.mod_pos_bound (len p) 64 ltac:(lia)) as Hm.
  assert (Hq : 0 <= len p / 64) by (apply Z.div_pos; lia).
  rewrite slice_from_ok by lia. cbn [bind].
  replace (Z.to_nat (64 * (len p / 64))) with (64 * Z.to_nat (len p / 64))%nat
    by lia.
  fold (rest_of p).
  pose proof (len_rest_of p) as Hlr.
  destruct (x_compress_all64 (blocks_of p) d) as [Hx1 Hn1].
  remember (Rev64.compress_all (blocks_of p) d) as d1 eqn:Hd1.
  destruct (0 <? len (rest_of p)) eqn:E.
  - apply Z.ltb_lt in E.
    rewrite copy_at_ok by (unfold len; rewrite Hx1, Hx; lia). cbn [bind].
    change (Z.to_nat 0) with 0%nat. cbn [firstn app Nat.add].
    rewrite Hx1, Hx.
    assert (Hlen : (length (rest_of p) < 64)%nat) by (unfold len in *; lia).
    rewrite (firstn_all2 (n := 64 - 0) (rest_of p)) by lia.
    set (B := rest_of p ++ skipn (length (rest_of p)) (Rev64.x d)).
    assert (HB : length B = 64%nat).
    { subst B. rewrite length_app, length_skipn, Hx. lia. }
    assert (HfB : firstn (length (rest_of p)) B = rest_of p).
    { subst B. rewrite firstn_app, firstn_all, Nat.sub_diag, firstn_O.
      apply app_nil_r. }
    eexists. split; [reflexivity|].
    unfold Rev64.Wf, Rev64.pending.
    cbn [Rev64.x Rev64.nx Rev64.set_x Rev64.set_nx].
    replace (Z.min (len B) (len (rest_of p))) with (len (rest_of p))
      by (unfold len; lia).
    split; [split; [assumption|lia]|]. split; [reflexivity|].
    unfold len. rewrite Nat2Z.id. exact HfB.
  - apply Z.ltb_ge in E.
    assert (Hnil : rest_of p = []).
    { apply length_zero_iff_nil. pose proof (len_nonneg (rest_of p)).
      unfold len in *. lia. }
    exists d1. split; [reflexivity|].
    unfold Rev64.Wf, Rev64.pending. rewrite Hx1, Hn1, Hz, Hnil.
    split; [split; [assumption|lia]|]. split; reflexivity.
Qed.

(** [Write] compresses the whole blocks of the buffered bytes followed by
    the new ones and buffers the rest, whatever the lengths. *)
Lemma Write64_spec p d :
  Rev64.Wf d ->
  exists d',
    Rev64.Write p d = Ok (d', len p) /\ Rev64.Wf d'
    /\ Rev64.core d'
       = Rev64.core (Rev64.compress_all (blocks_of (Rev64.pending d ++ p)) d)
    /\ Rev64.pending d' = rest_of (Rev64.pending d ++ p).
Proof.
  intros HWf. pose proof HWf as (Hx & Hn).
  pose proof (len_pending64 d HWf) as Hlp.
  pose proof (len_nonneg p) as Hp.
  rewrite Write64_unfold. unfold Write_head64, BlockSize.
  destruct (0 <? Rev64.nx d) eqn:E.
  - apply Z.ltb_lt in E.
    rewrite slice_from_ok by (unfold len; lia). cbn [bind].
    rewrite copy_at_ok by (unfold len; lia). cbn [bind].
    rewrite (len_skipn (Rev64.x d) (Rev64.nx d)) by (unfold len; lia).
    replace (len (Rev64.x d)) with 64 by (unfold len; lia).
    cbn [Rev64.nx Rev64.x Rev64.set_x Rev64.set_nx].
    rewrite Hx.
    set (b := firstn (Z.to_nat (Rev64.nx d)) (Rev64.x d) ++ _).
    assert (Hlb : length b = 64%nat).
    { subst b. rewrite !length_app, length_skipn, !length_firstn.
      unfold len in *. lia. }
    destruct (Z.lt_ge_cases (len p) (64 - Rev64.nx d)) as [Hs|Hs].
    + (* the bytes only join the buffer *)
      replace (Z.min (64 - Rev64.nx d) (len p)) with (len p) by lia.
      replace (Rev64.nx d + len p =? 64) with false
        by (symmetry; apply Z.eqb_neq; lia).
      replace (64 - Rev64.nx d <? len p) with false
        by (symmetry; apply Z.ltb_ge; lia).
      cbn [bind]. rewrite slice_from_ok by lia. cbn [bind].
      assert (Hnil : skipn (Z.to_nat (len p)) p = []).
      { apply skipn_all2. unfold len. lia. }
      rewrite Hnil. unfold Write_tail64.
      rewrite Block64_spec. cbn [bind].
      change (slice_from (@nil byte) (64 * (len (@nil byte) / 64))) with (Ok (@nil byte)).
      cbn [bind]. change (0 <? len (@nil byte)) with false. cbv iota.
      change (blocks_of []) with (@nil (list byte)).
      cbn [Rev64.compress_all fold_left].
      destruct (blocks_rest_short (Rev64.pending d ++ p)) as [-> ->].
      { rewrite len_app. lia. }
      eexists. split; [reflexivity|].
      unfold Rev64.Wf, Rev64.pending.
      cbn [Rev64.nx Rev64.x Rev64.set_x Rev64.set_nx Rev64.compress_all fold_left].
      split; [split; [assumption|lia]|]. split; [reflexivity|].
      subst b. rewrite Z2Nat.inj_add by lia.
      rewrite firstn_copied.
      * f_equal. apply firstn_all2. unfold len. lia.
      * lia.
      * lia.
      * unfold len. lia.
    + (* the buffer is completed and compressed *)
      replace (Z.min (64 - Rev64.nx d) (len p)) with (64 - Rev64.nx d) by lia.
      replace (Rev64.nx d + (64 - Rev64.nx d)) with 64 by lia.
      cbn [Z.eqb Pos.eqb bind].
      rewrite Block64_spec. cbn [bind].
      assert (Hn' : (if 64 - Rev64.nx d <? len p then 64 - Rev64.nx d else len p)
                    = 64 - Rev64.nx d).
      { destruct (64 - Rev64.nx d <? len p) eqn:E5; [reflexivity|].
        apply Z.ltb_ge in E5. lia. }
      rewrite Hn'.
      rewrite slice_from_ok by lia. cbn [bind].
      assert (Hb : b = Rev64.pending d ++ firstn (Z.to_nat (64 - Rev64.nx d)) p).
      { subst b. unfold Rev64.pending. f_equal.
        replace (64 - Z.to_nat (Rev64.nx d))%nat
          with (Z.to_nat (64 - Rev64.nx d)) by lia.
        rewrite length_firstn, skipn_all2 by (unfold len in *; lia).
        apply app_nil_r. }
      assert (Hbb : blocks_of b = [b]).
      { unfold blocks_of, len. rewrite Hlb. change (Z.to_nat (Z.of_nat 64 / 64)) with 1%nat.
        cbn [chunks]. rewrite <- Hlb, firstn_all. reflexivity. }
      rewrite Hbb.
      set (p1 := skipn (Z.to_nat (64 - Rev64.nx d)) p).
      set (d2 := Rev64.set_nx _ 0).
      assert (HWf2 : Rev64.Wf d2).
      { subst d2. unfold Rev64.Wf.
        cbn [Rev64.nx Rev64.x Rev64.set_nx Rev64.compress_all fold_left
             Rev64.step Rev64.set_h Rev64.set_t Rev64.set_x].
        split; [assumption|lia]. }
      destruct (Write_tail64_spec (len p) d2 p1 HWf2 eq_refl)
        as (d' & Hw & HWf' & Hc' & Hp').
      exists d'. split; [exact Hw|]. split; [exact HWf'|].
      destruct (blocks_rest_step (Rev64.pending d ++ p)) as [Hbl Hr].
      { rewrite len_app. lia. }
      assert (Hf : firstn 64 (Rev64.pending d ++ p) = b).
      { rewrite Hb, firstn_app. f_equal.
        - apply firstn_all2. unfold len in Hlp. lia.
        - f_equal. unfold len in Hlp. lia. }
      assert (Hk : skipn 64 (Rev64.pending d ++ p) = p1).
      { subst p1. rewrite skipn_app, skipn_all2 by (unfold len in Hlp; lia).
        cbn [app]. f_equal. unfold len in Hlp. lia. }
      rewrite Hbl, Hr, Hf, Hk. split; [|exact Hp'].
      rewrite Hc'. cbn [Rev64.compress_all fold_left].
      apply core64_compress_all. subst d2. destruct d. reflexivity.
  - apply Z.ltb_ge in E. assert (Hz : Rev64.nx d = 0) by lia.
    cbn [bind].
    assert (Hnil : Rev64.pending d = []).
    { unfold Rev64.pending. rewrite Hz. reflexivity. }
    rewrite Hnil. cbn [app]. apply Write_tail64_spec; assumption.
Qed.

(** ** The shape of a state and what the following calls see *)

Lemma compress_all64_frame bs : forall d,
  Rev64.hashSize (Rev64.compress_all bs d) = Rev64.hashSize d
  /\ Rev64.s (Rev64.compress_all bs d) = Rev64.s d
  /\ Rev64.nullt (Rev64.compress_all bs d) = Rev64.nullt d
  /\ (length (Rev64.h d) = 8%nat ->
      length (Rev64.h (Rev64.compress_all bs d)) = 8%nat).
Proof.
  induction bs as [|b bs IH]; intros d.
  - cbn. auto.
  - cbn [Rev64.compress_all fold_left].
    destruct (IH (Rev64.step d b)) as (H1 & H2 & H3 & H4).
    unfold Rev64.compress_all in *. rewrite H1, H2, H3.
    repeat split. intros _. apply H4. reflexivity.
Qed.

(** The counter advances by 512 for each block compressed. *)
Lemma compress_all64_t bs : forall d,
  0 <= Rev64.t d < 2 ^ 64 ->
  Rev64.t (Rev64.compress_all bs d) = wrap64 (Rev64.t d + 512 * len bs).
Proof.
  induction bs as [|b bs IH]; intros d Ht.
  - cbn. rewrite Z.add_0_r, wrap64_small by assumption. reflexivity.
  - cbn [Rev64.compress_all fold_left].
    unfold Rev64.compress_all in IH. rewrite IH.
    + cbn [Rev64.step Rev64.t Rev64.set_t Rev64.set_h].
      unfold wrap64. rewrite Z.add_mod_idemp_l by lia.
      f_equal. unfold len. cbn [length]. lia.
    + cbn [Rev64.step Rev64.t Rev64.set_t Rev64.set_h].
      unfold wrap64. apply Z.mod_pos_bound. lia.
Qed.

Lemma core64_fields d1 d2 :
  Rev64.core d1 = Rev64.core d2 ->
  Rev64.hashSize d1 = Rev64.hashSize d2 /\ Rev64.h d1 = Rev64.h d2
  /\ Rev64.s d1 = Rev64.s d2 /\ Rev64.t d1 = Rev64.t d2
  /\ Rev64.nullt d1 = Rev64.nullt d2.
Proof. unfold Rev64.core. intros [= -> -> -> -> ->]. repeat split. Qed.

Lemma Write64_Shape hs p d :
  Rev64.Shape hs d ->
  exists d',
    Rev64.Write p d = Ok (d', len p) /\ Rev64.Shape hs d'
    /\ Rev64.core d'
       = Rev64.core (Rev64.compress_all (blocks_of (Rev64.pending d ++ p)) d)
    /\ Rev64.pending d' = rest_of (Rev64.pending d ++ p).
Proof.
  intros (HWf & Hs & Hhs & Hh).
  destruct (Write64_spec p d HWf) as (d' & Hw & HWf' & Hc & Hp).
  exists d'. split; [assumption|]. split; [|split; assumption].
  destruct (compress_all64_frame (blocks_of (Rev64.pending d ++ p)) d)
    as (F1 & _ & _ & F4).
  apply core64_fields in Hc. destruct Hc as (C1 & C2 & _).
  split; [assumption|]. split; [congruence|]. split; [assumption|].
  rewrite C2. auto.
Qed.

Lemma same_view64_intro d1 d2 :
  Rev64.Wf d1 -> Rev64.Wf d2 ->
  Rev64.core d1 = Rev64.core d2 -> Rev64.pending d1 = Rev64.pending d2 ->
  Rev64.same_view d1 d2.
Proof.
  intros W1 W2 Hc Hp. split; [assumption|]. split; [|assumption].
  rewrite <- (len_pending64 d1 W1), <- (len_pending64 d2 W2), Hp. reflexivity.
Qed.

(** [Write] on two states that look alike gives two states that look
    alike. *)
Lemma write64_cong hs p d1 d2 :
  Rev64.Shape hs d1 -> Rev64.Shape hs d2 -> Rev64.same_view d1 d2 ->
  Rev64.ok_same hs (Rev64.write p d1) (Rev64.write p d2).
Proof.
  intros S1 S2 (Hc & Hn & Hp).
  destruct (Write64_Shape hs p d1 S1) as (e1 & H1 & S1' & C1 & P1).
  destruct (Write64_Shape hs p d2 S2) as (e2 & H2 & S2' & C2 & P2).
  exists e1, e2. unfold Rev64.write. rewrite H1, H2. cbn [bind].
  split; [reflexivity|]. split; [reflexivity|].
  split; [assumption|]. split; [assumption|].
  apply same_view64_intro.
  - destruct S1'; assumption.
  - destruct S2'; assumption.
  - rewrite C1, C2, Hp. apply core64_compress_all. assumption.
  - congruence.
Qed.

Lemma write64_cong_bind hs (B : Type) p d1 d2
      (k1 k2 : Rev64.digest -> result B) (P : result B -> result B -> Prop) :
  Rev64.Shape hs d1 -> Rev64.Shape hs d2 -> Rev64.same_view d1 d2 ->
  (forall e1 e2, Rev64.Shape hs e1 -> Rev64.Shape hs e2 -> Rev64.same_view e1 e2 ->
                 P (k1 e1) (k2 e2)) ->
  P (bind (Rev64.write p d1) k1) (bind (Rev64.write p d2) k2).
Proof.
  intros S1 S2 Hv Hk.
  destruct (write64_cong hs p d1 d2 S1 S2 Hv)
    as (e1 & e2 & -> & -> & S1' & S2' & Hv').
  cbn [bind]. apply Hk; assumption.
Qed.

Lemma Shape_back_off64 hs d n : Rev64.Shape hs d -> Rev64.Shape hs (Rev64.back_off d n).
Proof. intros H. exact H. Qed.

Lemma Shape_set_nullt64 hs d b : Rev64.Shape hs d -> Rev64.Shape hs (Rev64.set_nullt d b).
Proof. intros H. exact H. Qed.

Lemma same_view_back_off64 d1 d2 n :
  Rev64.same_view d1 d2 ->
  Rev64.same_view (Rev64.back_off d1 n) (Rev64.back_off d2 n).
Proof.
  intros (Hc & Hb & Hp). apply core64_fields in Hc.
  destruct Hc as (C1 & C2 & C3 & C4 & C5).
  unfold Rev64.same_view, Rev64.core, Rev64.pending, Rev64.back_off in *.
  cbn [Rev64.hashSize Rev64.h Rev64.s Rev64.t Rev64.nullt Rev64.x Rev64.nx
       Rev64.set_t].
  repeat split; congruence.
Qed.

Lemma same_view_set_nullt64 d1 d2 b :
  Rev64.same_view d1 d2 ->
  Rev64.same_view (Rev64.set_nullt d1 b) (Rev64.set_nullt d2 b).
Proof.
  intros (Hc & Hb & Hp). apply core64_fields in Hc.
  destruct Hc as (C1 & C2 & C3 & C4 & C5).
  unfold Rev64.same_view, Rev64.core, Rev64.pending in *.
  cbn [Rev64.hashSize Rev64.h Rev64.s Rev64.t Rev64.nullt Rev64.x Rev64.nx
       Rev64.set_nullt].
  repeat split; congruence.
Qed.

Lemma ok_same64_intro hs e1 e2 :
  Rev64.Shape hs e1 -> Rev64.Shape hs e2 -> Rev64.same_view e1 e2 ->
  Rev64.ok_same hs (Ok e1) (Ok e2).
Proof. intros. exists e1, e2. auto. Qed.

Lemma slice64_ok (l : list byte) a b :
  0 <= a <= b -> b <= len l ->
  Rev64.slice l a b = Ok (firstn (Z.to_nat (b - a)) (skipn (Z.to_nat a) l)).
Proof.
  intros H1 H2. unfold Rev64.slice.
  replace (0 <=? a) with true by (symmetry; apply Z.leb_le; lia).
  replace (a <=? b) with true by (symmetry; apply Z.leb_le; lia).
  replace (b <=? len l) with true by (symmetry; apply Z.leb_le; lia).
  reflexivity.
Qed.

(** The padding of [Sum] on two states that look alike. *)
Lemma Sum_pad64_cong hs d1 d2 :
  Rev64.Shape hs d1 -> Rev64.Shape hs d2 -> Rev64.same_view d1 d2 ->
  Rev64.ok_same hs (Rev64.Sum_pad d1) (Rev64.Sum_pad d2).
Proof.
  intros S1 S2 Hv.
  pose proof Hv as (Hc & Hn & Hp).
  pose proof (core64_fields _ _ Hc) as (Hs & _).
  pose proof S1 as ((_ & Hr) & _).
  assert (Hdom : forall e1 e2,
    Rev64.Shape hs e1 -> Rev64.Shape hs e2 -> Rev64.same_view e1 e2 ->
    Rev64.ok_same hs
      (d <- (if Rev64.hashSize e1 =? 224
             then Rev64.write [x00] e1 else Rev64.write [x01] e1) ;;
       Ok (Rev64.back_off d 8))
      (d <- (if Rev64.hashSize e2 =? 224
             then Rev64.write [x00] e2 else Rev64.write [x01] e2) ;;
       Ok (Rev64.back_off d 8))).
  { intros e1 e2 W1 W2 V. pose proof V as (Vc & _).
    apply core64_fields in Vc. destruct Vc as (Vs & _). rewrite <- Vs.
    destruct (Rev64.hashSize e1 =? 224);
      (apply (write64_cong_bind hs Rev64.digest _ _ _ _ _ (Rev64.ok_same hs));
       try assumption);
      intros f1 f2 F1 F2 FV; apply ok_same64_intro;
        try apply Shape_back_off64; try assumption;
        apply same_view_back_off64; assumption. }
  unfold Rev64.Sum_pad. rewrite <- Hn, (wrap64_small (Rev64.nx d1)) by lia.
  destruct (Rev64.nx d1 =? 55) eqn:E55.
  - change (Rev64.hashSize (Rev64.back_off d1 8)) with (Rev64.hashSize d1).
    change (Rev64.hashSize (Rev64.back_off d2 8)) with (Rev64.hashSize d2).
    rewrite <- Hs.
    destruct (Rev64.hashSize d1 =? 224);
      (apply write64_cong;
       [apply Shape_back_off64; assumption | apply Shape_back_off64; assumption
       | apply same_view_back_off64; assumption]).
  - apply Z.eqb_neq in E55.
    destruct (Rev64.nx d1 <? 55) eqn:Elt.
    + apply Z.ltb_lt in Elt.
      set (e1 := if Rev64.nx d1 =? 0 then Rev64.set_nullt d1 true else d1).
      set (e2 := if Rev64.nx d1 =? 0 then Rev64.set_nullt d2 true else d2).
      assert (He : Rev64.Shape hs e1 /\ Rev64.Shape hs e2 /\ Rev64.same_view e1 e2).
      { subst e1 e2. destruct (Rev64.nx d1 =? 0);
          (split; [|split]);
          first [ assumption
                | apply Shape_set_nullt64; assumption
                | apply same_view_set_nullt64; assumption ]. }
      destruct He as (W1 & W2 & V).
      rewrite (wrap64_small (55 - Rev64.nx d1)) by lia.
      rewrite slice64_ok by (change (len pad) with 64; lia).
      rewrite !bind_assoc. cbn [bind].
      apply (write64_cong_bind hs Rev64.digest _ _ _ _ _ (Rev64.ok_same hs));
        try (apply Shape_back_off64; assumption).
      * apply same_view_back_off64. assumption.
      * exact Hdom.
    + apply Z.ltb_ge in Elt.
      rewrite (wrap64_small (64 - Rev64.nx d1)) by lia.
      rewrite slice64_ok by (change (len pad) with 64; lia).
      rewrite !bind_assoc. cbn [bind]. rewrite !bind_assoc.
      apply (write64_cong_bind hs Rev64.digest _ _ _ _ _ (Rev64.ok_same hs));
        try (apply Shape_back_off64; assumption).
      * apply same_view_back_off64. assumption.
      * intros f1 f2 F1 F2 FV.
        rewrite slice64_ok by (change (len pad) with 64; lia).
        cbn [bind]. rewrite !bind_assoc.
        apply (write64_cong_bind hs Rev64.digest _ _ _ _ _ (Rev64.ok_same hs));
          try (apply Shape_back_off64; assumption).
        -- apply same_view_back_off64. assumption.
        -- intros g1 g2 G1 G2 GV. cbn [bind].
           apply Hdom; try (apply Shape_set_nullt64; assumption).
           apply same_view_set_nullt64. assumption.
Qed.

Lemma msglen64_cong d1 d2 :
  Rev64.same_view d1 d2 -> Rev64.msglen d1 = Rev64.msglen d2.
Proof.
  intros (Hc & Hb & _). apply core64_fields in Hc.
  destruct Hc as (_ & _ & _ & Ht & _). unfold Rev64.msglen. rewrite Hb, Ht.
  reflexivity.
Qed.

Lemma Sum_out64_ok hs d :
  Rev64.Shape hs d ->
  Rev64.Sum_out d
  = Ok (flat_map u32to8 (firstn (if hs =? 224 then 7 else 8) (Rev64.h d))).
Proof.
  intros (_ & Hs & Hhs & Hh). unfold Rev64.Sum_out, Rev64.Size. rewrite Hs.
  destruct (list8 _ _ Hh) as (a & b & c & e & f & g & i & j & ->).
  destruct Hhs as [->| ->]; reflexivity.
Qed.

(** [Sum] on a state of the right shape returns the state and a digest of
    [Size()] bytes; two states that look alike have the same digest. *)
Lemma Sum64_cong hs in_ d1 d2 :
  Rev64.Shape hs d1 -> Rev64.Shape hs d2 -> Rev64.same_view d1 d2 ->
  exists out,
    Rev64.Sum in_ d1 = Ok (d1, in_ ++ out)
    /\ Rev64.Sum in_ d2 = Ok (d2, in_ ++ out)
    /\ len out = Rev64.Size d1
    /\ Rev64.Size d1 = (if hs =? 224 then 28 else 32).
Proof.
  intros S1 S2 Hv. unfold Rev64.Sum.
  rewrite <- (msglen64_cong d1 d2 Hv).
  destruct (Sum_pad64_cong hs d1 d2 S1 S2 Hv)
    as (p1 & p2 & -> & -> & W1 & W2 & V).
  cbn [bind].
  destruct (write64_cong hs (Rev64.msglen d1) (Rev64.back_off p1 64)
              (Rev64.back_off p2 64))
    as (f1 & f2 & -> & -> & F1 & F2 & (FC & _)).
  { apply Shape_back_off64. assumption. }
  { apply Shape_back_off64. assumption. }
  { apply same_view_back_off64. assumption. }
  cbn [bind]. rewrite (Sum_out64_ok hs f1), (Sum_out64_ok hs f2) by assumption.
  cbn [bind].
  apply core64_fields in FC. destruct FC as (_ & FC2 & _). rewrite <- FC2.
  eexists. split; [reflexivity|]. split; [reflexivity|].
  destruct F1 as (_ & _ & _ & Hh). destruct S1 as (_ & Hs1 & Hhs & _).
  unfold len, Rev64.Size. rewrite length_flat_u32to8, length_firstn, Hh, Hs1.
  destruct Hhs as [->| ->]; split; reflexivity.
Qed.

(** ** Sessions *)

Lemma same_view64_refl d : Rev64.same_view d d.
Proof. repeat split. Qed.

Lemma Sum64_ok hs in_ d :
  Rev64.Shape hs d ->
  exists out,
    Rev64.Sum in_ d = Ok (d, in_ ++ out)
    /\ len out = Rev64.Size d
    /\ Rev64.Size d = (if hs =? 224 then 28 else 32).
Proof.
  intros S.
  destruct (Sum64_cong hs in_ d d S S (same_view64_refl d))
    as (out & H & _ & Hl & Hsz).
  exists out. auto.
Qed.

Lemma Reset64_Shape hs d : Rev64.Shape hs d -> Rev64.Shape hs (Rev64.Reset d).
Proof.
  intros ((Hx & Hn) & Hs & Hhs & Hh). unfold Rev64.Reset, Rev64.Shape, Rev64.Wf.
  rewrite Hs. destruct Hhs as [->| ->]; cbn; repeat split; auto; lia.
Qed.

Lemma run_op64_Shape hs o d :
  Rev64.Shape hs d ->
  exists d', run_op64 o d = Ok d' /\ Rev64.Shape hs d' /\ Rev64.s d' = Rev64.s d.
Proof.
  intros S. destruct o as [p|in_|]; cbn [run_op64].
  - destruct (Write64_Shape hs p d S) as (d' & Hw & S' & Hc & _).
    exists d'. unfold Rev64.write. rewrite Hw. cbn [bind].
    split; [reflexivity|]. split; [assumption|].
    apply core64_fields in Hc. destruct Hc as (_ & _ & -> & _).
    apply compress_all64_frame.
  - destruct (Sum64_ok hs in_ d S) as (out & H & _).
    exists d. rewrite H. cbn [bind]. auto.
  - exists (Rev64.Reset d). split; [reflexivity|].
    split; [apply Reset64_Shape; assumption|].
    unfold Rev64.Reset. destruct (Rev64.hashSize d =? 224); reflexivity.
Qed.

Lemma run64_Shape hs os : forall d,
  Rev64.Shape hs d ->
  exists d', run64 os d = Ok d' /\ Rev64.Shape hs d' /\ Rev64.s d' = Rev64.s d.
Proof.
  induction os as [|o os IH]; intros d S.
  - exists d. cbn. auto.
  - destruct (run_op64_Shape hs o d S) as (d1 & H1 & S1 & E1).
    destruct (IH d1 S1) as (d2 & H2 & S2 & E2).
    exists d2. cbn [run64]. rewrite H1. cbn [bind].
    split; [assumption|]. split; [assumption|]. congruence.
Qed.

Lemma setSalt64_spec d sl :
  Rev64.setSalt d sl
  = if len sl =? 16 then Ok (Rev64.set_s d (salt_words sl))
    else Panic InvalidSaltLength.
Proof. unfold Rev64.setSalt. destruct (len sl =? 16); reflexivity. Qed.

Lemma constructed64_Shape d0 :
  Rev64.constructed d0 ->
  Rev64.Shape (Rev64.hashSize d0) d0
  /\ Rev64.t d0 = 0 /\ Rev64.nx d0 = 0 /\ Rev64.nullt d0 = false
  /\ Rev64.h d0 = (if Rev64.hashSize d0 =? 224 then iv224 else iv256).
Proof.
  assert (H256 : forall w, Rev64.Shape 256 (Rev64.set_s Rev64.New w)).
  { intros w. unfold Rev64.Shape, Rev64.Wf. cbn. repeat split; auto; lia. }
  assert (H224 : forall w, Rev64.Shape 224 (Rev64.set_s Rev64.New224 w)).
  { intros w. unfold Rev64.Shape, Rev64.Wf. cbn. repeat split; auto; lia. }
  intros [->|[->|[[sl H]|[sl H]]]].
  - split; [exact (H256 (repeat 0 4))|repeat split].
  - split; [exact (H224 (repeat 0 4))|repeat split].
  - unfold Rev64.NewSalt in H. rewrite setSalt64_spec in H.
    destruct (len sl =? 16); [|discriminate]. injection H as <-.
    split; [apply H256|repeat split].
  - unfold Rev64.New224Salt in H. rewrite setSalt64_spec in H.
    destruct (len sl =? 16); [|discriminate]. injection H as <-.
    split; [apply H224|repeat split].
Qed.

Lemma session64_Shape d0 os d :
  Rev64.constructed d0 -> run64 os d0 = Ok d ->
  Rev64.Shape (Rev64.hashSize d0) d /\ Rev64.s d = Rev64.s d0.
Proof.
  intros Hc Hrun. destruct (constructed64_Shape d0 Hc) as (S0 & _).
  destruct (run64_Shape _ os d0 S0) as (d' & H & S & E).
  rewrite Hrun in H. injection H as <-. auto.
Qed.

(** A sequence of writes compresses the whole blocks of the buffered bytes
    followed by all the chunks, and buffers the rest. *)
Lemma write_all64_spec hs ps : forall d,
  Rev64.Shape hs d ->
  exists d',
    Rev64.write_all ps d = Ok d' /\ Rev64.Shape hs d'
    /\ Rev64.core d'
       = Rev64.core (Rev64.compress_all
                       (blocks_of (Rev64.pending d ++ concat ps)) d)
    /\ Rev64.pending d' = rest_of (Rev64.pending d ++ concat ps).
Proof.
  induction ps as [|p ps IH]; intros d S.
  - exists d. cbn [Rev64.write_all concat]. rewrite app_nil_r.
    destruct (blocks_rest_short (Rev64.pending d)) as [-> ->].
    { destruct S as (HWf & _). rewrite len_pending64 by assumption.
      destruct HWf. lia. }
    auto.
  - destruct (Write64_Shape hs p d S) as (d1 & Hw & S1 & Hc1 & Hp1).
    destruct (IH d1 S1) as (d' & Hw' & S' & Hc' & Hp').
    exists d'. cbn [Rev64.write_all concat]. unfold Rev64.write.
    rewrite Hw. cbn [bind].
    split; [assumption|]. split; [assumption|].
    destruct (blocks_rest_app (concat ps) (length (Rev64.pending d ++ p))
                (Rev64.pending d ++ p) eq_refl) as [Hb Hr].
    rewrite Hp1 in Hc', Hp'. rewrite <- app_assoc in Hb, Hr.
    split.
    + rewrite Hc', <- Hb, compress_all64_app.
      apply core64_compress_all. assumption.
    + rewrite Hp'. exact Hr.
Qed.

Lemma ex64_constructed : Rev64.constructed ex64_salted.
Proof. right; right; right. exists ex_salt. vm_compute. reflexivity. Qed.

Lemma ex64_run : run64 ex_session ex64_salted = Ok ex64_state.
Proof. vm_compute. reflexivity. Qed.

(** X9.  In the revision with the [uint64] counter no call on a constructed
    instance fails: every sequence of writes, sums and resets runs to the
    end, and [Sum(in)] on the state reached returns [in] followed by
    [Size()] bytes, 28 or 32 by the width, leaving the state unchanged. *)
Theorem Rev64_calls_never_fail d0 os in_ :
  Rev64.constructed d0 ->
  exists d out,
    run64 os d0 = Ok d
    /\ Rev64.Sum in_ d = Ok (d, in_ ++ out)
    /\ len out = Rev64.Size d
    /\ Rev64.Size d = (if Rev64.hashSize d0 =? 224 then 28 else 32)
    /\ Rev64.s d = Rev64.s d0.
Proof.
  intros Hc. destruct (constructed64_Shape d0 Hc) as (S0 & _).
  destruct (run64_Shape _ os d0 S0) as (d & Hrun & S & Hs).
  destruct (Sum64_ok _ in_ d S) as (out & Hsum & Hl & Hsz).
  exists d, out. auto 10.
Qed.

Lemma Rev64_calls_never_fail_witness :
  Rev64.constructed ex64_salted
  /\ exists d out, run64 ex_session ex64_salted = Ok d
                   /\ Rev64.Sum [] d = Ok (d, [] ++ out) /\ len out = 28.
Proof.
  split; [exact ex64_constructed|].
  destruct (Rev64_calls_never_fail ex64_salted ex_session [] ex64_constructed)
    as (d & out & H1 & H2 & H3 & H4 & _).
  exists d, out. split; [exact H1|]. split; [exact H2|].
  rewrite H3, H4. reflexivity.
Defined.

(** Chunks written one call at a time have the digest of their
    concatenation written in one call, from every state of the right
    shape. *)
Lemma sum_chunks64_concat hs d ps :
  Rev64.Shape hs d ->
  Rev64.sum_chunks d ps = Rev64.sum_chunks d [concat ps].
Proof.
  intros S.
  destruct (write_all64_spec _ ps d S) as (e1 & H1 & S1 & C1 & P1).
  destruct (write_all64_spec _ [concat ps] d S) as (e2 & H2 & S2 & C2 & P2).
  cbn [concat] in C2, P2. rewrite app_nil_r in C2, P2.
  unfold Rev64.sum_chunks. rewrite H1, H2. cbn [bind].
  destruct (Sum64_cong _ [] e1 e2 S1 S2) as (out & -> & -> & _).
  - apply same_view64_intro; try congruence.
    + destruct S1; assumption.
    + destruct S2; assumption.
  - reflexivity.
Qed.

(** X10.  Streaming equivalence in the revision with the [uint64] counter:
    from every state of a session and for every sequence of chunks, empty
    ones included, writing the chunks one call at a time gives the digest
    of writing their concatenation in one call. *)
Theorem Rev64_streaming d0 os d ps :
  Rev64.constructed d0 -> run64 os d0 = Ok d ->
  Rev64.sum_chunks d ps = Rev64.sum_chunks d [concat ps].
Proof.
  intros Hc Hrun.
  destruct (session64_Shape d0 os d Hc Hrun) as (S & _).
  exact (sum_chunks64_concat _ d ps S).
Qed.

Lemma Rev64_streaming_witness :
  Rev64.constructed ex64_salted
  /\ run64 ex_session ex64_salted = Ok ex64_state
  /\ Rev64.sum_chunks ex64_state [[x00]; repeat x00 64; []; bytes_of "tail"]
     = Rev64.sum_chunks ex64_state
         [concat [[x00]; repeat x00 64; []; bytes_of "tail"]].
Proof.
  split; [exact ex64_constructed|]. split; [exact ex64_run|].
  exact (Rev64_streaming ex64_salted ex_session ex64_state _
           ex64_constructed ex64_run).
Defined.

(** X11.  Summing in the middle does not disturb the stream in the
    revision with the [uint64] counter: write(m); sum(); write(m2); sum()
    returns from the second sum() the digest of write(m + m2); sum() on the
    same starting state. *)
Theorem Rev64_sum_write_sum d0 os d m m2 :
  Rev64.constructed d0 -> run64 os d0 = Ok d ->
  write_sum_write_sum64 d m m2 = Rev64.sum_chunks d [m ++ m2].
Proof.
  intros Hc Hrun.
  destruct (session64_Shape d0 os d Hc Hrun) as (S & _).
  rewrite <- (app_nil_r m2) at 2.
  change (m ++ m2 ++ []) with (concat [m; m2]).
  rewrite <- (sum_chunks64_concat _ d [m; m2] S).
  unfold write_sum_write_sum64, Rev64.sum_chunks, Rev64.Sum_bytes.
  cbn [Rev64.write_all].
  destruct (Write64_Shape _ m d S) as (d1 & Hw & S1 & _).
  unfold Rev64.write at 1 3. rewrite Hw. cbn [bind].
  destruct (Sum64_ok _ [] d1 S1) as (out & -> & _). cbn [bind].
  destruct (Rev64.write m2 d1); reflexivity.
Qed.

Lemma Rev64_sum_write_sum_witness :
  Rev64.constructed ex64_salted
  /\ run64 ex_session ex64_salted = Ok ex64_state
  /\ write_sum_write_sum64 ex64_state [x00] (repeat x00 64)
     = Rev64.sum_chunks ex64_state [[x00] ++ repeat x00 64].
Proof.
  split; [exact ex64_constructed|]. split; [exact ex64_run|].
  exact (Rev64_sum_write_sum ex64_salted ex_session ex64_state _ _
           ex64_constructed ex64_run).
Defined.

Lemma length_chunks k : forall x, length (chunks k x) = k.
Proof. induction k as [|k IH]; intros x; cbn; [reflexivity|]. rewrite IH. reflexivity. Qed.

(** X12.  Bit accounting in the revision with the [uint64] counter: after
    the chunks [ps] are written to a freshly constructed instance, the
    counter is 512 times the number of whole blocks of the message modulo
    2^64, the buffer holds the bytes of the message behind its last whole
    block, and so the counter plus 8 times the buffered byte count is the
    message length in bits modulo 2^64. *)
Theorem Rev64_bit_accounting d0 ps d :
  Rev64.constructed d0 -> Rev64.write_all ps d0 = Ok d ->
  Rev64.t d = wrap64 (512 * (len (concat ps) / 64))
  /\ Rev64.nx d = len (concat ps) mod 64
  /\ Rev64.pending d = rest_of (concat ps)
  /\ wrap64 (Rev64.t d + 8 * Rev64.nx d) = wrap64 (8 * len (concat ps)).
Proof.
  intros Hc Hw.
  destruct (constructed64_Shape d0 Hc) as (S0 & Ht0 & Hn0 & _).
  destruct (write_all64_spec _ ps d0 S0) as (d' & Hw' & S' & C & P).
  rewrite Hw in Hw'. injection Hw' as <-.
  assert (Hp0 : Rev64.pending d0 = []).
  { unfold Rev64.pending. rewrite Hn0. reflexivity. }
  rewrite Hp0 in C, P. cbn [app] in C, P.
  apply core64_fields in C. destruct C as (_ & _ & _ & Ct & _).
  pose proof (len_nonneg (concat ps)) as Hl.
  assert (Hq : 0 <= len (concat ps) / 64) by (apply Z.div_pos; lia).
  assert (Ht : Rev64.t d = wrap64 (512 * (len (concat ps) / 64))).
  { rewrite Ct, compress_all64_t by (rewrite Ht0; lia).
    rewrite Ht0. unfold blocks_of, len at 1. rewrite length_chunks.
    rewrite Z2Nat.id by assumption. reflexivity. }
  assert (Hn : Rev64.nx d = len (concat ps) mod 64).
  { destruct S' as (HWf & _). rewrite <- (len_pending64 d HWf), P.
    apply len_rest_of. }
  split; [exact Ht|]. split; [exact Hn|]. split; [exact P|].
  rewrite Ht, Hn. unfold wrap64. rewrite Z.add_mod_idemp_l by lia.
  f_equal. pose proof (Z.div_mod (len (concat ps)) 64 ltac:(lia)). lia.
Qed.

Lemma Rev64_bit_accounting_witness :
  Rev64.constructed Rev64.New
  /\ exists d,
       Rev64.write_all [repeat x61 100; repeat x62 100] Rev64.New = Ok d
       /\ Rev64.t d = 1536 /\ Rev64.nx d = 8.
Proof.
  assert (Hc : Rev64.constructed Rev64.New) by (left; reflexivity).
  split; [exact Hc|].
  destruct (Rev64.write_all [repeat x61 100; repeat x62 100] Rev64.New)
    as [d|e] eqn:Hw; [|vm_compute in Hw; discriminate].
  exists d. split; [reflexivity|].
  destruct (Rev64_bit_accounting Rev64.New _ d Hc Hw) as (H1 & H2 & _).
  split; [rewrite H1|rewrite H2]; reflexivity.
Defined.

(** X13.  [Reset] in the revision with the [uint64] counter brings an
    instance back to the behaviour of the freshly constructed one: chunks
    written after [Reset] have the digest they have on the instance as the
    constructor returned it, salt included. *)
Theorem Rev64_Reset_behaves_as_fresh d0 os d ps :
  Rev64.constructed d0 -> run64 os d0 = Ok d ->
  Rev64.sum_chunks (Rev64.Reset d) ps = Rev64.sum_chunks d0 ps.
Proof.
  intros Hc Hrun.
  destruct (session64_Shape d0 os d Hc Hrun) as (S & Hsalt).
  destruct (constructed64_Shape d0 Hc) as (S0 & Ht0 & Hn0 & Hnl0 & Hh0).
  pose proof (Reset64_Shape _ d S) as Sr.
  assert (Hv : Rev64.same_view (Rev64.Reset d) d0).
  { destruct S as (_ & Hs & _).
    unfold Rev64.same_view, Rev64.core, Rev64.pending, Rev64.Reset.
    rewrite Hn0, Ht0, Hnl0, Hh0, <- Hs.
    destruct (Rev64.hashSize d =? 224); cbn; rewrite Hsalt; repeat split. }
  destruct (write_all64_spec _ ps _ Sr) as (e1 & H1 & S1 & C1 & P1).
  destruct (write_all64_spec _ ps _ S0) as (e2 & H2 & S2 & C2 & P2).
  unfold Rev64.sum_chunks. rewrite H1, H2. cbn [bind].
  destruct Hv as (Hvc & _ & Hvp).
  destruct (Sum64_cong _ [] e1 e2 S1 S2) as (out & -> & -> & _).
  - apply same_view64_intro.
    + destruct S1; assumption.
    + destruct S2; assumption.
    + rewrite C1, C2, Hvp. apply core64_compress_all. assumption.
    + congruence.
  - reflexivity.
Qed.

Lemma Rev64_Reset_behaves_as_fresh_witness :
  Rev64.constructed ex64_salted
  /\ run64 ex_session ex64_salted = Ok ex64_state
  /\ Rev64.sum_chunks (Rev64.Reset ex64_state) [bytes_of "Go"]
     = Rev64.sum_chunks ex64_salted [bytes_of "Go"].
Proof.
  split; [exact ex64_constructed|]. split; [exact ex64_run|].
  exact (Rev64_Reset_behaves_as_fresh ex64_salted ex_session ex64_state _
           ex64_constructed ex64_run).
Defined.

(** ** The two revisions side by side *)

(** With [nullt] set the compression does not read the counter. *)
Lemma compress_nullt hh sl a b a' b' p :
  compress hh sl a b true p = compress hh sl a' b' true p.
Proof. reflexivity. Qed.

Lemma wrap64_range x : 0 <= wrap64 x < 2 ^ 64.
Proof. unfold wrap64. apply Z.mod_pos_bound. lia. Qed.

Lemma wrap32_wrap64 x : wrap32 (wrap64 x) = wrap32 x.
Proof.
  unfold wrap32, wrap64. apply Z.mod_mod_divide.
  exists (2 ^ 32). reflexivity.
Qed.

Lemma shiftr32 x : Z.shiftr x 32 = x / 2 ^ 32.
Proof. rewrite Z.shiftr_div_pow2 by lia. reflexivity. Qed.

(** The two counter words are the two halves of the 64-bit counter. *)
Lemma counter_words d :
  Tok d ->
  fst (t d) = wrap32 (counter64 d)
  /\ snd (t d) = wrap32 (Z.shiftr (counter64 d) 32).
Proof.
  intros ((H0 & _) & H1). unfold counter64, wrap32. rewrite shiftr32.
  split.
  - rewrite Z.add_comm, Z.mod_add by lia. symmetry. apply Z.mod_small. lia.
  - rewrite Z.div_add_l by lia. rewrite (Z.div_small (fst (t d))) by lia.
    rewrite Z.add_0_r. symmetry. apply Z.mod_small. lia.
Qed.

(** A short [update] only appends to the buffered bytes. *)
Lemma update_small d data k :
  Wf d -> 0 < k -> Z.shiftr (buflen d) 3 + k < 64 -> k <= len data ->
  exists d',
    update d data (8 * k) = Ok d' /\ Wf d' /\ core d' = core d
    /\ pending d' = pending d ++ firstn (Z.to_nat k) data.
Proof.
  intros HWf Hk Hlt Hle.
  destruct (Wf_left d HWf) as [Hl Hbl].
  pose proof HWf as (Hbuf & _).
  destruct (update_buffer_props d data k HWf Hk Hlt)
    as (d' & Hu & HWf' & Hbl' & Hc & _).
  exists d'. split; [exact Hu|]. split; [exact HWf'|]. split; [exact Hc|].
  rewrite (update_buffer d data k HWf Hk Hlt) in Hu.
  match type of Hu with Ok ?e = _ => assert (E : buf d' = buf e) by congruence end.
  cbn [buf set_buf set_buflen] in E.
  unfold pending. rewrite E, Hbl'.
  replace (Z.shiftr (buflen d + 8 * k) 3) with (Z.shiftr (buflen d) 3 + k)
    by (rewrite !shiftr3 in *; apply Z.div_unique with (r := 0); lia).
  rewrite Z2Nat.inj_add by lia.
  apply firstn_copied; unfold len in Hle; lia.
Qed.

(** An [update] that completes the buffer compresses it. *)
Lemma update_complete d data k :
  Wf d -> Z.shiftr (buflen d) 3 <> 0 -> Z.shiftr (buflen d) 3 + k = 64 ->
  k <= len data ->
  exists d',
    update d data (8 * k) = Ok d' /\ Wf d' /\ buflen d' = 0
    /\ core d'
       = core (_Block (bump d) (pending d ++ firstn (Z.to_nat k) data)).
Proof.
  intros HWf Hne Hsum Hle.
  replace k with (64 - Z.shiftr (buflen d) 3) in * by lia.
  destruct (update_fill_props d data HWf Hne Hle) as (d' & Hu & HWf' & Hbl' & _).
  exists d'. split; [exact Hu|]. split; [exact HWf'|]. split; [exact Hbl'|].
  rewrite (update_fill d data HWf Hne Hle) in Hu. cbv zeta in Hu.
  match type of Hu with Ok ?e = _ => assert (E : core d' = core e) by congruence end.
  rewrite E. unfold pending.
  set (b := firstn _ (buf d) ++ _).
  change (core (set_buflen (_Block (bump (set_buf d b)) b) 0))
    with (core (_Block (bump (set_buf d b)) b)).
  apply core_step. reflexivity.
Qed.

Lemma write64_small c p :
  Rev64.Wf c -> Rev64.nx c + len p < 64 ->
  exists c',
    Rev64.write p c = Ok c' /\ Rev64.Wf c' /\ Rev64.core c' = Rev64.core c
    /\ Rev64.pending c' = Rev64.pending c ++ p.
Proof.
  intros HWf Hlt.
  destruct (Write64_spec p c HWf) as (c' & Hw & HWf' & Hc & Hp).
  assert (Hs : len (Rev64.pending c ++ p) < 64)
    by (rewrite len_app, len_pending64 by assumption; lia).
  destruct (blocks_rest_short _ Hs) as [Hb Hr]. rewrite Hb in Hc. rewrite Hr in Hp.
  exists c'. unfold Rev64.write. rewrite Hw. cbn [bind]. auto.
Qed.

Lemma write64_complete c p :
  Rev64.Wf c -> Rev64.nx c + len p = 64 ->
  exists c',
    Rev64.write p c = Ok c' /\ Rev64.Wf c'
    /\ Rev64.core c' = Rev64.core (Rev64.step c (Rev64.pending c ++ p))
    /\ Rev64.nx c' = 0.
Proof.
  intros HWf Hsum.
  destruct (Write64_spec p c HWf) as (c' & Hw & HWf' & Hc & Hp).
  assert (Hs : len (Rev64.pending c ++ p) = 64)
    by (rewrite len_app, len_pending64 by assumption; lia).
  destruct (blocks_rest_step (Rev64.pending c ++ p) ltac:(lia)) as [Hb Hr].
  assert (Hf : firstn 64 (Rev64.pending c ++ p) = Rev64.pending c ++ p)
    by (apply firstn_all2; unfold len in Hs; lia).
  assert (Hk : skipn 64 (Rev64.pending c ++ p) = [])
    by (apply skipn_all2; unfold len in Hs; lia).
  rewrite Hf, Hk in Hb. rewrite Hk in Hr.
  change (blocks_of []) with (@nil (list byte)) in Hb.
  change (rest_of []) with (@nil byte) in Hr.
  rewrite Hb in Hc. rewrite Hr in Hp.
  exists c'. unfold Rev64.write. rewrite Hw. cbn [bind].
  split; [reflexivity|]. split; [exact HWf'|]. split; [exact Hc|].
  rewrite <- (len_pending64 c' HWf'), Hp. reflexivity.
Qed.

Lemma bump_words d :
  fst (t (bump d)) = add32 (fst (t d)) 512
  /\ (add32 (fst (t d)) 512 <> 0 -> snd (t (bump d)) = snd (t d)).
Proof.
  unfold bump. cbn [t set_t fst snd].
  destruct (add32 (fst (t d)) 512 =? 0) eqn:E; cbn [t set_t fst snd].
  - apply Z.eqb_eq in E. split; [reflexivity|]. intros H. contradiction.
  - split; reflexivity.
Qed.

Lemma alike_nx L off d c :
  alike L off d c -> Z.shiftr (buflen d) 3 = Rev64.nx c.
Proof.
  intros (W & W' & _ & _ & _ & _ & Hp & _).
  rewrite <- (len_pending d W), <- (len_pending64 c W'), Hp. reflexivity.
Qed.

(** Backing the counter off by the same amount in the two revisions. *)
Lemma alike_back_off L off d c k :
  alike L off d c -> alike L (off + k) (back_off d k) (Rev64.back_off c k).
Proof.
  intros (W & W' & Hs & Hh & Hsalt & Hn & Hp & HV & Hlo & Hhi).
  unfold alike.
  split; [apply Wf_back_off; exact W|]. split; [exact W'|].
  split; [exact Hs|]. split; [exact Hh|]. split; [exact Hsalt|].
  split; [exact Hn|]. split; [exact Hp|].
  cbn [back_off Rev64.back_off t set_t Rev64.t Rev64.set_t Rev64.nx nullt fst snd].
  split; [|split].
  - rewrite <- HV. unfold wrap64.
    rewrite <- !Z.add_assoc, Z.add_mod_idemp_l by lia. f_equal. lia.
  - rewrite wrap32_wrap64, Hlo. unfold sub32, wrap32.
    rewrite Zminus_mod_idemp_l. reflexivity.
  - exact Hhi.
Qed.

Lemma alike_set_nullt L off d c :
  alike L off d c -> alike L off (set_nullt d true) (Rev64.set_nullt c true).
Proof.
  intros (W & W' & Hs & Hh & Hsalt & Hn & Hp & HV & Hlo & Hhi).
  unfold alike.
  split; [apply Wf_set_nullt; exact W|]. split; [exact W'|].
  split; [exact Hs|]. split; [exact Hh|]. split; [exact Hsalt|].
  split; [reflexivity|]. split; [exact Hp|].
  split; [exact HV|]. split; [exact Hlo|].
  cbn [set_nullt nullt]. intros H. discriminate.
Qed.

(** The same short write in the two revisions. *)
Lemma alike_small L off d c data k :
  alike L off d c -> 0 < k -> Rev64.nx c + k < 64 -> k <= len data ->
  exists d' c',
    update d data (8 * k) = Ok d'
    /\ Rev64.write (firstn (Z.to_nat k) data) c = Ok c'
    /\ alike L (off - 8 * k) d' c' /\ Rev64.nx c' = Rev64.nx c + k.
Proof.
  intros A Hk Hlt Hle. pose proof (alike_nx _ _ _ _ A) as Hnx.
  destruct A as (W & W' & Hs & Hh & Hsalt & Hn & Hp & HV & Hlo & Hhi).
  assert (Hlf : len (firstn (Z.to_nat k) data) = k)
    by (apply len_firstn; lia).
  destruct (update_small d data k W Hk ltac:(lia) Hle)
    as (d' & Hu & Wd & Cd & Pd).
  destruct (write64_small c (firstn (Z.to_nat k) data) W' ltac:(lia))
    as (c' & Hw & Wc & Cc & Pc).
  exists d', c'. split; [exact Hu|]. split; [exact Hw|].
  apply core_fields in Cd. destruct Cd as (D1 & D2 & D3 & D4 & D5).
  apply core64_fields in Cc. destruct Cc as (C1 & C2 & C3 & C4 & C5).
  assert (Hnx' : Rev64.nx c' = Rev64.nx c + k).
  { rewrite <- (len_pending64 c' Wc), Pc, len_app, Hlf.
    rewrite (len_pending64 c W'). reflexivity. }
  split; [|exact Hnx'].
  unfold alike. rewrite D1, D2, D3, D4, D5, C1, C2, C3, C4, C5, Pd, Pc, Hp, Hnx'.
  split; [exact Wd|]. split; [exact Wc|].
  split; [exact Hs|]. split; [exact Hh|]. split; [exact Hsalt|].
  split; [exact Hn|]. split; [reflexivity|].
  split; [|split; [exact Hlo|exact Hhi]].
  rewrite <- HV. f_equal. lia.
Qed.

(** The same write, completing the buffer, in the two revisions: the block
    is compressed to the same chain value. *)
Lemma alike_complete L d c data k :
  alike L (8 * k) d c -> Rev64.nx c <> 0 -> Rev64.nx c + k = 64 ->
  k <= len data ->
  exists d' c',
    update d data (8 * k) = Ok d'
    /\ Rev64.write (firstn (Z.to_nat k) data) c = Ok c'
    /\ alike L 0 d' c' /\ Rev64.nx c' = 0.
Proof.
  intros A Hne Hsum Hle. pose proof (alike_nx _ _ _ _ A) as Hnx.
  destruct A as (W & W' & Hs & Hh & Hsalt & Hn & Hp & HV & Hlo & Hhi).
  pose proof W' as (_ & Hr).
  assert (Hlf : len (firstn (Z.to_nat k) data) = k)
    by (apply len_firstn; lia).
  destruct (update_complete d data k W ltac:(lia) ltac:(lia) Hle)
    as (d' & Hu & Wd & Bd & Cd).
  destruct (write64_complete c (firstn (Z.to_nat k) data) W' ltac:(lia))
    as (c' & Hw & Wc & Cc & Nc).
  exists d', c'. split; [exact Hu|]. split; [exact Hw|].
  apply core_fields in Cd. destruct Cd as (D1 & D2 & D3 & D4 & D5).
  apply core64_fields in Cc. destruct Cc as (C1 & C2 & C3 & C4 & C5).
  destruct (core_bump_frame d) as (F1 & F2 & F3 & F4).
  destruct (bump_words d) as (T1 & T2).
  unfold _Block in D1, D2, D3, D4, D5.
  cbn [hashSize h salt t nullt set_h] in D1, D2, D3, D4, D5.
  rewrite F1 in D1. rewrite F3 in D5. rewrite F2 in D3.
  rewrite F4, F2, F3, T1 in D2.
  unfold Rev64.step in C1, C2, C3, C4, C5.
  cbn [Rev64.hashSize Rev64.h Rev64.s Rev64.t Rev64.nullt Rev64.set_h
       Rev64.set_t] in C1, C2, C3, C4, C5.
  assert (HL : wrap64 (Rev64.t c + 512) = L).
  { rewrite <- HV. f_equal. lia. }
  rewrite HL in C2, C4.
  assert (HLr : 0 <= L < 2 ^ 64) by (rewrite <- HL; apply wrap64_range).
  assert (Hlow : add32 (fst (t d)) 512 = wrap32 L).
  { rewrite Hlo, <- HL, wrap32_wrap64. unfold add32, wrap32.
    rewrite Zplus_mod_idemp_l. reflexivity. }
  assert (Hhigh : wrap32 (Z.shiftr L 32) = Z.shiftr L 32).
  { apply wrap32_small. rewrite shiftr32. split.
    - apply Z.div_pos; lia.
    - apply Z.div_lt_upper_bound; lia. }
  assert (Hpd : pending d' = []).
  { unfold pending. rewrite Bd. reflexivity. }
  assert (Hpc : Rev64.pending c' = []).
  { unfold Rev64.pending. rewrite Nc. reflexivity. }
  split; [|exact Nc].
  unfold alike.
  split; [exact Wd|]. split; [exact Wc|].
  split; [congruence|].
  split.
  { rewrite D2, C2, Hp, Hh, Hsalt, Hn, Hlow.
    destruct (Rev64.nullt c) eqn:En.
    - apply compress_nullt.
    - rewrite Hn in Hhi. destruct (Hhi eq_refl) as (H1 & H2).
      rewrite Hlow in T2. rewrite (T2 H2), H1, Hhigh. reflexivity. }
  split; [congruence|]. split; [congruence|]. split; [congruence|].
  split.
  { rewrite C4, Nc. rewrite Z.mul_0_r, !Z.add_0_r. apply wrap64_small. exact HLr. }
  split.
  { rewrite D4, T1, Hlow, C4. reflexivity. }
  intros Hnl. rewrite D5 in Hnl. destruct (Hhi Hnl) as (H1 & H2).
  split; [|exact H2].
  rewrite D4. rewrite Hlow in T2. rewrite (T2 H2). exact H1.
Qed.

Lemma Tok_low d : Tok d -> 0 <= fst (t d) <= 2 ^ 32 - 512.
Proof.
  intros ((Hr & Hm) & _).
  pose proof (Z.div_mod (fst (t d)) 512 ltac:(lia)) as H. rewrite Hm in H. lia.
Qed.

(** At the start of [Sum] the two private copies are alike, once [nullt]
    is set for an empty buffer. *)
Lemma agree_alike d c :
  agree d c ->
  let L := wrap64 (Rev64.t c + 8 * Rev64.nx c) in
  (Rev64.nx c <> 0 -> alike L 0 d c)
  /\ alike L 0 (set_nullt d true) (Rev64.set_nullt c true).
Proof.
  intros (I & S & Hh & Hsalt & Hn & Ht & Hp) L.
  destruct I as [Isz Ih IWf (It0 & It0m) It1 Inl].
  pose proof S as (SWf & Shs & _).
  assert (HT : Tok d) by (split; [split|]; assumption).
  destruct (counter_words d HT) as (Hlo & Hhi).
  pose proof (Tok_low d HT) as Hlow.
  pose proof SWf as (_ & Hr).
  assert (A : (Rev64.nx c <> 0 -> snd (t d) = Z.shiftr L 32 /\ wrap32 L <> 0)).
  { intros Hne. subst L. rewrite <- Ht. unfold counter64.
    rewrite wrap64_small by lia.
    replace (snd (t d) * 2 ^ 32 + fst (t d) + 8 * Rev64.nx c)
      with (fst (t d) + 8 * Rev64.nx c + snd (t d) * 2 ^ 32) by lia.
    rewrite shiftr32. unfold wrap32.
    rewrite Z.div_add, Z.mod_add by lia.
    rewrite Z.div_small, Z.mod_small by lia. lia. }
  assert (B : forall b,
            (b = false -> Rev64.nx c <> 0) ->
            alike L 0 (set_nullt d b) (Rev64.set_nullt c b)).
  { intros b Hb. unfold alike.
    split; [apply Wf_set_nullt; exact IWf|]. split; [exact SWf|].
    split; [symmetry; exact Shs|]. split; [exact Hh|]. split; [exact Hsalt|].
    split; [reflexivity|]. split; [exact Hp|].
    split; [subst L; f_equal; cbn [Rev64.set_nullt Rev64.t Rev64.nx]; lia|].
    split; [cbn [set_nullt t]; rewrite Hlo, Ht; reflexivity|].
    cbn [set_nullt nullt t]. intros E. apply A. apply Hb. exact E. }
  split.
  - intros Hne.
    assert (E1 : set_nullt d false = d).
    { unfold set_nullt. rewrite <- Inl. destruct d; reflexivity. }
    assert (E2 : Rev64.set_nullt c false = c).
    { unfold Rev64.set_nullt. rewrite <- Hn. destruct c; reflexivity. }
    rewrite <- E1, <- E2. apply B. intros _. exact Hne.
  - apply B. intros E. discriminate.
Qed.
Lemma dom_step L dA cA :
  alike L 0 dA cA -> Rev64.nx cA = 55 ->
  exists dp cp,
    (d0 <- (if hashSize dA =? 224 then update dA [x00] 8 else update dA [x01] 8) ;;
     Ok (back_off d0 8)) = Ok dp
    /\ (d0 <- (if Rev64.hashSize cA =? 224
               then Rev64.write [x00] cA else Rev64.write [x01] cA) ;;
        Ok (Rev64.back_off d0 8)) = Ok cp
    /\ alike L 0 dp cp /\ Rev64.nx cp = 56.
Proof.
  intros A Hn. pose proof A as (_ & _ & Hs & _). rewrite <- Hs.
  destruct (hashSize dA =? 224).
  - destruct (alike_small L 0 dA cA [x00] 1 A) as (d' & c' & Hu & Hw & A' & N');
      [lia | lia | unfold len; cbn; lia |].
    change (8 * 1) with 8 in Hu. change (firstn (Z.to_nat 1) [x00]) with [x00] in Hw.
    rewrite Hu, Hw. cbn [bind]. eexists. eexists.
    split; [reflexivity|]. split; [reflexivity|].
    split; [exact (alike_back_off _ _ _ _ 8 A')|].
    cbn [Rev64.back_off Rev64.set_t Rev64.nx]. lia.
  - destruct (alike_small L 0 dA cA [x01] 1 A) as (d' & c' & Hu & Hw & A' & N');
      [lia | lia | unfold len; cbn; lia |].
    change (8 * 1) with 8 in Hu. change (firstn (Z.to_nat 1) [x01]) with [x01] in Hw.
    rewrite Hu, Hw. cbn [bind]. eexists. eexists.
    split; [reflexivity|]. split; [reflexivity|].
    split; [exact (alike_back_off _ _ _ _ 8 A')|].
    cbn [Rev64.back_off Rev64.set_t Rev64.nx]. lia.
Qed.

Lemma Sum_pad_alike d c :
  agree d c ->
  exists dp cp,
    Sum_pad d = Ok dp /\ Rev64.Sum_pad c = Ok cp
    /\ alike (wrap64 (Rev64.t c + 8 * Rev64.nx c)) 0 dp cp
    /\ Rev64.nx cp = 56.
Proof.
  intros Ag. destruct (agree_alike d c Ag) as (A1 & A0). cbv zeta in A1, A0.
  set (L := wrap64 (Rev64.t c + 8 * Rev64.nx c)) in *.
  pose proof (alike_nx _ _ _ _ A0) as Hnx. cbn [set_nullt buflen Rev64.set_nullt Rev64.nx] in Hnx.
  pose proof Ag as (I & S & _).
  destruct I as [_ _ IWf _ _ _]. destruct (Wf_left d IWf) as (Hl & Hbl).
  pose proof S as ((_ & Hr) & Shs & _).
  unfold Sum_pad, Rev64.Sum_pad. cbv zeta.
  rewrite (wrap64_small (Rev64.nx c)) by lia.
  rewrite (wrap32_small (buflen d)) by lia.
  assert (Hb : buflen d = 8 * Rev64.nx c) by lia.
  rewrite shiftl3.
  destruct (Z.eq_dec (Rev64.nx c) 55) as [E55|N55].
  - replace (buflen d =? 440) with true by (symmetry; apply Z.eqb_eq; lia).
    replace (Rev64.nx c =? 55) with true by (symmetry; apply Z.eqb_eq; lia).
    change (hashSize (back_off d 8)) with (hashSize d).
    change (Rev64.hashSize (Rev64.back_off c 8)) with (Rev64.hashSize c).
    rewrite Shs.
    pose proof (alike_back_off _ _ _ _ 8 (A1 ltac:(lia))) as A8.
    destruct (hashSize d =? 224).
    + destruct (alike_small _ _ _ _ [x80] 1 A8) as (d' & c' & Hu & Hw & A' & N');
        [lia | cbn [Rev64.back_off Rev64.set_t Rev64.nx]; lia
         | unfold len; cbn; lia |].
      change (8 * 1) with 8 in Hu.
      change (firstn (Z.to_nat 1) [x80]) with [x80] in Hw.
      exists d', c'. split; [exact Hu|]. split; [exact Hw|].
      split; [exact A'|].
      cbn [Rev64.back_off Rev64.set_t Rev64.nx] in N'. lia.
    + destruct (alike_small _ _ _ _ [x81] 1 A8) as (d' & c' & Hu & Hw & A' & N');
        [lia | cbn [Rev64.back_off Rev64.set_t Rev64.nx]; lia
         | unfold len; cbn; lia |].
      change (8 * 1) with 8 in Hu.
      change (firstn (Z.to_nat 1) [x81]) with [x81] in Hw.
      exists d', c'. split; [exact Hu|]. split; [exact Hw|].
      split; [exact A'|].
      cbn [Rev64.back_off Rev64.set_t Rev64.nx] in N'. lia.
  - replace (buflen d =? 440) with false by (symmetry; apply Z.eqb_neq; lia).
    replace (Rev64.nx c =? 55) with false by (symmetry; apply Z.eqb_neq; lia).
    replace (buflen d =? 0) with (Rev64.nx c =? 0)
      by (destruct (Z.eqb_spec (Rev64.nx c) 0);
          symmetry; [apply Z.eqb_eq | apply Z.eqb_neq]; lia).
    replace (buflen d <? 440) with (Rev64.nx c <? 55)
      by (destruct (Z.ltb_spec (Rev64.nx c) 55);
          symmetry; [apply Z.ltb_lt | apply Z.ltb_ge]; lia).
    assert (Hdom : forall dA cA,
      (exists d' c', dA = Ok d' /\ cA = Ok c' /\ alike L 0 d' c'
                     /\ Rev64.nx c' = 55) ->
      exists dp cp,
        (d0 <- dA ;;
         d1 <- (if hashSize d0 =? 224 then update d0 [x00] 8
                else update d0 [x01] 8) ;;
         Ok (back_off d1 8)) = Ok dp
        /\ (d0 <- cA ;;
            d1 <- (if Rev64.hashSize d0 =? 224 then Rev64.write [x00] d0
                   else Rev64.write [x01] d0) ;;
            Ok (Rev64.back_off d1 8)) = Ok cp
        /\ alike L 0 dp cp /\ Rev64.nx cp = 56).
    { intros dA cA (d' & c' & -> & -> & A' & N'). cbn [bind].
      apply dom_step; assumption. }
    apply Hdom.
    destruct (Z.ltb_spec (Rev64.nx c) 55) as [Hlt|Hge].
    + set (d1 := if Rev64.nx c =? 0 then set_nullt d true else d).
      set (c1 := if Rev64.nx c =? 0 then Rev64.set_nullt c true else c).
      assert (A : alike L 0 d1 c1).
      { subst d1 c1. destruct (Z.eqb_spec (Rev64.nx c) 0);
          [exact A0 | apply A1; assumption]. }
      assert (Hb1 : buflen d1 = buflen d)
        by (subst d1; destruct (Rev64.nx c =? 0); reflexivity).
      assert (Hn1 : Rev64.nx c1 = Rev64.nx c)
        by (subst c1; destruct (Rev64.nx c =? 0); reflexivity).
      cbn [back_off set_t buflen]. rewrite Hb1.
      replace (sub32 440 (buflen d)) with (8 * (55 - Rev64.nx c))
        by (unfold sub32; rewrite wrap32_small by lia; lia).
      replace (wrap64 (440 - buflen d)) with (8 * (55 - Rev64.nx c))
        by (rewrite wrap64_small by lia; lia).
      rewrite (wrap64_small (55 - Rev64.nx c)) by lia.
      rewrite (wrap64_small (Rev64.nx c * 8)) by lia.
      replace (wrap64 (440 - Rev64.nx c * 8)) with (8 * (55 - Rev64.nx c))
        by (rewrite wrap64_small by lia; lia).
      rewrite slice64_ok by (change (len pad) with 64; lia).
      cbn [bind]. rewrite Z.sub_0_r. change (skipn (Z.to_nat 0) pad) with pad.
      pose proof (alike_back_off _ _ _ _ (8 * (55 - Rev64.nx c)) A) as Ab.
      destruct (alike_small _ _ _ _ pad (55 - Rev64.nx c) Ab)
        as (d' & c' & Hu & Hw & A' & N');
        [lia | cbn [Rev64.back_off Rev64.set_t Rev64.nx]; lia
         | change (len pad) with 64; lia |].
      exists d', c'. split; [exact Hu|]. split; [exact Hw|].
      split.
      * replace 0 with (0 + 8 * (55 - Rev64.nx c) - 8 * (55 - Rev64.nx c))
          at 1 by lia. exact A'.
      * cbn [Rev64.back_off Rev64.set_t Rev64.nx] in N'. lia.
    + cbn [back_off set_t buflen].
      replace (sub32 512 (buflen d)) with (8 * (64 - Rev64.nx c))
        by (unfold sub32; rewrite wrap32_small by lia; lia).
      replace (wrap64 (512 - buflen d)) with (8 * (64 - Rev64.nx c))
        by (rewrite wrap64_small by lia; lia).
      rewrite (wrap64_small (64 - Rev64.nx c)) by lia.
      rewrite (wrap64_small (Rev64.nx c * 8)) by lia.
      replace (wrap64 (512 - Rev64.nx c * 8)) with (8 * (64 - Rev64.nx c))
        by (rewrite wrap64_small by lia; lia).
      rewrite slice64_ok by (change (len pad) with 64; lia).
      cbn [bind]. rewrite Z.sub_0_r. change (skipn (Z.to_nat 0) pad) with pad.
      pose proof (alike_back_off _ _ _ _ (8 * (64 - Rev64.nx c))
                    (A1 ltac:(lia))) as Ab.
      destruct (alike_complete L _ _ pad (64 - Rev64.nx c) Ab)
        as (d' & c' & Hu & Hw & A' & N');
        [cbn [Rev64.back_off Rev64.set_t Rev64.nx]; lia
         | cbn [Rev64.back_off Rev64.set_t Rev64.nx]; lia
         | change (len pad) with 64; lia |].
      rewrite Hu, Hw. cbn [bind].
      change (slice_from pad 1) with (Ok (skipn 1 pad)).
      rewrite slice64_ok by (change (len pad) with 64; lia).
      cbn [bind]. change (Z.to_nat (56 - 1)) with (Z.to_nat 55).
      change (skipn (Z.to_nat 1) pad) with (skipn 1 pad).
      pose proof (alike_back_off _ _ _ _ 440 A') as Ab'.
      destruct (alike_small _ _ _ _ (skipn 1 pad) 55 Ab')
        as (d2 & c2 & Hu2 & Hw2 & A2 & N2);
        [lia | cbn [Rev64.back_off Rev64.set_t Rev64.nx]; lia
         | vm_compute; discriminate |].
      change (8 * 55) with 440 in Hu2. rewrite Hu2, Hw2. cbn [bind].
      eexists. eexists. split; [reflexivity|]. split; [reflexivity|].
      split; [exact (alike_set_nullt _ _ _ _ A2)|].
      cbn [Rev64.back_off Rev64.set_t Rev64.set_nullt Rev64.nx] in *. lia.
Qed.

Lemma byte_of_Z_mod a b : a mod 256 = b mod 256 -> byte_of_Z a = byte_of_Z b.
Proof. intros H. unfold byte_of_Z. rewrite H. reflexivity. Qed.

Lemma low_bytes V s :
  0 <= s -> s + 8 <= 32 ->
  Z.shiftr (V mod 2 ^ 32) s mod 256 = Z.shiftr V s mod 256.
Proof.
  intros H0 H1. change 256 with (2 ^ 8).
  apply Z.bits_inj'. intros i Hi.
  rewrite !Z.testbit_mod_pow2 by lia.
  rewrite !Z.shiftr_spec by lia.
  rewrite Z.testbit_mod_pow2 by lia.
  destruct (i <? 8) eqn:E; [|reflexivity].
  apply Z.ltb_lt in E.
  replace (i + s <? 32) with true by (symmetry; apply Z.ltb_lt; lia).
  reflexivity.
Qed.

(** The eight length bytes of the two revisions. *)
Lemma len_bytes_eq V :
  0 <= V ->
  u32to8 (V / 2 ^ 32) ++ u32to8 (V mod 2 ^ 32)
  = [byte_of_Z (Z.shiftr V 56); byte_of_Z (Z.shiftr V 48);
     byte_of_Z (Z.shiftr V 40); byte_of_Z (Z.shiftr V 32);
     byte_of_Z (Z.shiftr V 24); byte_of_Z (Z.shiftr V 16);
     byte_of_Z (Z.shiftr V 8); byte_of_Z V].
Proof.
  intros HV. unfold u32to8. cbn [app].
  rewrite <- (shiftr32 V), !Z.shiftr_shiftr by lia.
  change (32 + 24) with 56. change (32 + 16) with 48. change (32 + 8) with 40.
  rewrite (byte_of_Z_mod _ _ (low_bytes V 24 ltac:(lia) ltac:(lia))).
  rewrite (byte_of_Z_mod _ _ (low_bytes V 16 ltac:(lia) ltac:(lia))).
  rewrite (byte_of_Z_mod _ _ (low_bytes V 8 ltac:(lia) ltac:(lia))).
  pose proof (low_bytes V 0 ltac:(lia) ltac:(lia)) as H.
  rewrite !Z.shiftr_0_r in H.
  rewrite (byte_of_Z_mod _ _ H). reflexivity.
Qed.

Lemma msglen_agree d c : agree d c -> msglen d = Rev64.msglen c.
Proof.
  intros Ag. pose proof Ag as (I & S & _ & _ & _ & Ht & Hp).
  destruct (agree_alike d c Ag) as (_ & A0). cbv zeta in A0.
  pose proof (alike_nx _ _ _ _ A0) as Hnx.
  cbn [set_nullt buflen Rev64.set_nullt Rev64.nx] in Hnx.
  destruct I as [_ _ IWf (It0 & _) It1 _].
  destruct (Wf_left d IWf) as (Hl & Hbl).
  pose proof S as ((_ & Hr) & _).
  rewrite msglen_value by lia.
  unfold Rev64.msglen. cbv zeta.
  rewrite (wrap64_small (Rev64.nx c)), shiftl3 by lia.
  rewrite (wrap64_small (Rev64.nx c * 8)) by lia.
  replace (counter64 d + buflen d) with (Rev64.t c + Rev64.nx c * 8) by lia.
  fold (wrap64 (Rev64.t c + Rev64.nx c * 8)).
  apply len_bytes_eq. apply wrap64_range.
Qed.

(** [Sum] on two states that agree returns the same bytes. *)
Lemma Sum_agree in_ d c :
  agree d c ->
  exists out,
    Sum in_ d = Ok (d, in_ ++ out) /\ Rev64.Sum in_ c = Ok (c, in_ ++ out).
Proof.
  intros Ag. pose proof Ag as (_ & S & _).
  destruct (Sum64_ok _ in_ c S) as (out & H64 & _).
  destruct (Sum_pad_alike d c Ag) as (dp & cp & Hp & Hp64 & A & N).
  pose proof (alike_back_off _ _ _ _ 64 A) as Ab.
  destruct (alike_complete _ _ _ (Rev64.msglen c) 8 Ab)
    as (d' & c' & Hu & Hw & A' & _);
    [cbn [Rev64.back_off Rev64.set_t Rev64.nx]; lia
     | cbn [Rev64.back_off Rev64.set_t Rev64.nx]; lia
     | unfold len; cbn; lia |].
  change (8 * 8) with 64 in Hu.
  change (firstn (Z.to_nat 8) (Rev64.msglen c)) with (Rev64.msglen c) in Hw.
  destruct A' as (_ & _ & Hs & Hh & _).
  assert (Hout : Sum_out d' = Rev64.Sum_out c').
  { unfold Sum_out, Rev64.Sum_out, Size, Rev64.Size. rewrite Hs, Hh. reflexivity. }
  unfold Rev64.Sum in H64. cbv zeta in H64.
  rewrite Hp64 in H64. cbn [bind] in H64. rewrite Hw in H64. cbn [bind] in H64.
  unfold Sum, Sum_state, Rev64.Sum. cbv zeta.
  rewrite (msglen_agree d c Ag), Hp, Hp64. cbn [bind].
  rewrite Hu, Hw. cbn [bind]. rewrite Hout.
  destruct (Rev64.Sum_out c') as [o|e]; cbn [bind] in *; [|discriminate].
  exists o. split; reflexivity.
Qed.

(** The same blocks compressed in the two revisions from counters that
    agree give the same chain value. *)
Lemma compress_all_agree bs : forall d c,
  Tok d -> nullt d = Rev64.nullt c -> h d = Rev64.h c ->
  salt d = Rev64.s c -> counter64 d = Rev64.t c ->
  h (compress_all bs d) = Rev64.h (Rev64.compress_all bs c).
Proof.
  induction bs as [|b bs IH]; intros d c HT Hn Hh Hs Ht; [exact Hh|].
  change (compress_all (b :: bs) d) with (compress_all bs (_Block (bump d) b)).
  change (Rev64.compress_all (b :: bs) c)
    with (Rev64.compress_all bs (Rev64.step c b)).
  destruct (bump_counter64 d HT) as (HT' & Hc').
  destruct (core_bump_frame d) as (F1 & F2 & F3 & F4).
  destruct (counter_words (bump d) HT') as (W0 & W1).
  apply IH.
  - unfold Tok. rewrite t_Block. exact HT'.
  - unfold _Block. cbn [nullt set_h]. rewrite F3. exact Hn.
  - unfold _Block, Rev64.step.
    cbn [h set_h Rev64.h Rev64.set_h Rev64.set_t Rev64.s Rev64.t Rev64.nullt].
    rewrite F4, F2, F3, W0, W1, Hc', Ht, Hh, Hs, Hn. reflexivity.
  - unfold _Block. cbn [salt set_h]. rewrite F2. exact Hs.
  - unfold counter64. rewrite t_Block. fold (counter64 (bump d)).
    rewrite Hc', Ht. reflexivity.
Qed.

(** Safe chunks written to two states that agree lead to states that
    agree. *)
Lemma write_all_agree ps d c :
  agree d c -> len (concat ps) < 2 ^ 61 ->
  safe_chunks (Z.shiftr (buflen d) 3) ps = true ->
  exists d' c',
    write_all ps d = Ok d' /\ Rev64.write_all ps c = Ok c' /\ agree d' c'.
Proof.
  intros (I & S & Hh & Hsalt & Hn & Ht & Hp) Hlen Hsafe.
  destruct I as [Isz Ih IWf It0 It1 Inl].
  assert (HT : Tok d) by (split; assumption).
  destruct (write_all_safe ps d IWf Hlen Hsafe) as (d' & Hw & Wd & Cd & Pd).
  destruct (write_all64_spec _ ps c S) as (c' & Hw' & S' & Cc & Pc).
  exists d', c'. split; [exact Hw|]. split; [exact Hw'|].
  rewrite <- Hp in Cc, Pc.
  set (bs := blocks_of (pending d ++ concat ps)) in *.
  apply core_fields in Cd. destruct Cd as (D1 & D2 & D3 & D4 & D5).
  apply core64_fields in Cc. destruct Cc as (C1 & C2 & C3 & C4 & C5).
  destruct (compress_all_frame bs d) as (F1 & F2 & F3 & F4).
  destruct (compress_all64_frame bs c) as (G1 & G2 & G3 & G4).
  destruct (compress_all_counter bs d HT) as ((T0 & T1) & Tc).
  pose proof S as ((_ & _) & Shs & _).
  assert (Hd1 : hashSize d' = hashSize d) by congruence.
  unfold agree. rewrite Hd1.
  split.
  { constructor.
    - rewrite Hd1. exact Isz.
    - rewrite D2. apply F4. exact Ih.
    - exact Wd.
    - rewrite D4. exact T0.
    - rewrite D4. exact T1.
    - congruence. }
  split; [exact S'|].
  split.
  { rewrite D2, C2. apply compress_all_agree; try assumption. congruence. }
  split; [congruence|]. split; [congruence|].
  split.
  { unfold counter64. rewrite D4. fold (counter64 (compress_all bs d)).
    rewrite Tc, C4, compress_all64_t.
    - rewrite Ht. reflexivity.
    - rewrite <- Ht. unfold counter64. lia. }
  congruence.
Qed.

(** The instances that the same constructor returns in the two revisions
    agree. *)
Lemma same_constructor_agree d c : same_constructor d c -> agree d c.
Proof.
  intros H.
  assert (Hc : constructed d /\ Rev64.constructed c).
  { destruct H as [(-> & ->)|[(-> & ->)|[(s & H1 & H2)|(s & H1 & H2)]]].
    - split; left; reflexivity.
    - split; right; left; reflexivity.
    - split; right; right; left; exists s; assumption.
    - split; right; right; right; exists s; assumption. }
  destruct Hc as (Hc & Hc64).
  pose proof (constructed_Inv d Hc) as I.
  destruct (constructed64_Shape c Hc64) as (S & _).
  assert (E : hashSize d = Rev64.hashSize c /\ h d = Rev64.h c
              /\ salt d = Rev64.s c /\ Rev64.nullt c = false
              /\ counter64 d = Rev64.t c /\ pending d = Rev64.pending c).
  { destruct H as [(-> & ->)|[(-> & ->)|[(s & H1 & H2)|(s & H1 & H2)]]].
    - repeat split.
    - repeat split.
    - unfold NewSalt, setSalt in H1. unfold Rev64.NewSalt, Rev64.setSalt in H2.
      destruct (negb (len s =? 16)); [discriminate|].
      cbv zeta in H1, H2.
      match type of H1 with Ok ?e = _ => assert (E1 : d = e) by congruence end.
      match type of H2 with Ok ?e = _ => assert (E2 : c = e) by congruence end.
      rewrite E1, E2. repeat split.
    - unfold New224Salt, setSalt in H1. unfold Rev64.New224Salt, Rev64.setSalt in H2.
      destruct (negb (len s =? 16)); [discriminate|].
      cbv zeta in H1, H2.
      match type of H1 with Ok ?e = _ => assert (E1 : d = e) by congruence end.
      match type of H2 with Ok ?e = _ => assert (E2 : c = e) by congruence end.
      rewrite E1, E2. repeat split. }
  destruct E as (E1 & E2 & E3 & E4 & E5 & E6).
  unfold agree. rewrite E1. auto 10.
Qed.

(** X14.  The two revisions compute the same digest.  From the same
    constructor with the same salt, every sequence of chunks on which
    [update] is safe (each write finds the buffer empty, or completes it
    with its length modulo 64, or only adds to it), shorter than 2^61
    bytes in all, is accepted by both revisions and [Sum] returns the same
    bytes in both. *)
Theorem revisions_agree_on_safe_chunks d0 c0 ps :
  same_constructor d0 c0 ->
  len (concat ps) < 2 ^ 61 ->
  safe_chunks 0 ps = true ->
  exists out,
    sum_chunks d0 ps = Ok out /\ Rev64.sum_chunks c0 ps = Ok out.
Proof.
  intros Hc Hlen Hsafe.
  pose proof (same_constructor_agree d0 c0 Hc) as Ag.
  assert (Hb : Z.shiftr (buflen d0) 3 = 0).
  { destruct Ag as (I & S & _ & _ & _ & _ & Hp).
    destruct I as [_ _ IWf _ _ _]. pose proof S as (SWf & _).
    rewrite <- (len_pending d0 IWf), Hp, (len_pending64 c0 SWf).
    destruct Hc as [(-> & ->)|[(-> & ->)|[(s & H1 & H2)|(s & H1 & H2)]]];
      try reflexivity.
    - unfold Rev64.NewSalt, Rev64.setSalt in H2.
      destruct (negb (len s =? 16)); [discriminate|].
      cbv zeta in H2.
      match type of H2 with Ok ?e = _ => assert (E2 : c0 = e) by congruence end.
      rewrite E2. reflexivity.
    - unfold Rev64.New224Salt, Rev64.setSalt in H2.
      destruct (negb (len s =? 16)); [discriminate|].
      cbv zeta in H2.
      match type of H2 with Ok ?e = _ => assert (E2 : c0 = e) by congruence end.
      rewrite E2. reflexivity. }
  destruct (write_all_agree ps d0 c0 Ag Hlen) as (d & c & Hw & Hw64 & Ag').
  { rewrite Hb. exact Hsafe. }
  destruct (Sum_agree [] d c Ag') as (out & Hs & Hs64).
  exists out. unfold sum_chunks, Rev64.sum_chunks.
  rewrite Hw, Hw64. cbn [bind]. rewrite Hs, Hs64. split; reflexivity.
Qed.

Lemma revisions_agree_on_safe_chunks_witness :
  same_constructor New224 Rev64.New224
  /\ len (concat [bytes_of "BLA"; repeat x41 61; repeat x42 64; bytes_of "KE"])
     < 2 ^ 61
  /\ safe_chunks 0 [bytes_of "BLA"; repeat x41 61; repeat x42 64; bytes_of "KE"]
     = true
  /\ exists out,
       sum_chunks New224
         [bytes_of "BLA"; repeat x41 61; repeat x42 64; bytes_of "KE"] = Ok out
       /\ Rev64.sum_chunks Rev64.New224
            [bytes_of "BLA"; repeat x41 61; repeat x42 64; bytes_of "KE"]
          = Ok out.
Proof.
  assert (Hc : same_constructor New224 Rev64.New224)
    by (right; left; split; reflexivity).
  assert (Hl : len (concat [bytes_of "BLA"; repeat x41 61; repeat x42 64;
                            bytes_of "KE"]) < 2 ^ 61)
    by (vm_compute; reflexivity).
  assert (Hs : safe_chunks 0 [bytes_of "BLA"; repeat x41 61; repeat x42 64;
                              bytes_of "KE"] = true)
    by (vm_compute; reflexivity).
  split; [exact Hc|]. split; [exact Hl|]. split; [exact Hs|].
  exact (revisions_agree_on_safe_chunks New224 Rev64.New224 _ Hc Hl Hs).
Defined.

(** X15.  What a write does when bytes are buffered and its length modulo
    64 is positive but does not complete the buffer: the whole blocks of
    the new bytes are compressed as they are, ahead of the buffered bytes,
    and the buffered bytes stay in the buffer, followed by what is left
    of the new ones.  For a write of 64 bytes or more the bytes are thus
    hashed out of order. *)
Theorem Write_jumps_the_buffer d0 os d p :
  constructed d0 -> run os d0 = Ok d ->
  len p < 2 ^ 61 ->
  0 < buflen d ->
  0 < len p mod 64 < 64 - Z.shiftr (buflen d) 3 ->
  exists d',
    Write p d = Ok (d', len p)
    /\ core d' = core (compress_all (blocks_of p) d)
    /\ buflen d' = buflen d + 8 * (len p mod 64)
    /\ pending d' = pending d ++ rest_of p.
Proof.
  intros Hc Hrun Hlen Hbuf Hmod.
  destruct (session_Inv d0 os d Hc Hrun) as (I & _).
  destruct I as [_ _ HWf _ _ _].
  destruct (Wf_left d HWf) as [Hl Hbl].
  pose proof (len_nonneg p) as Hp.
  assert (D1 : 0 <= 8 * len p < 2 ^ 64) by lia.
  assert (D2 : (8 * len p) mod 8 = 0)
    by (rewrite Z.mul_comm; apply Z.mod_mul; lia).
  assert (D3 : 8 * len p <= 8 * len p) by lia.
  destruct (update_spec d p _ HWf D1 D2 D3) as (d' & Hu & HWf' & Hcore).
  pose proof (update_view_spec d p _ d' HWf D1 D2 D3 Hu) as Hv.
  unfold update_blocks in Hcore. unfold update_view in Hv.
  rewrite shiftr3_8, land63 in Hcore, Hv.
  replace (negb (Z.shiftr (buflen d) 3 =? 0)
           && (64 - Z.shiftr (buflen d) 3 <=? len p mod 64)) with false
    in Hcore, Hv
    by (symmetry; apply andb_false_iff; right; apply Z.leb_gt; lia).
  rewrite div512 in Hcore, Hv. rewrite mod512 in Hv.
  replace (0 <? 8 * (len p mod 64)) with true in Hv
    by (symmetry; apply Z.ltb_lt; lia).
  replace (8 * (len p mod 64) / 8) with (len p mod 64) in Hv
    by (rewrite Z.mul_comm, Z.div_mul; lia).
  fold (rest_of p) in Hv. rewrite firstn_rest_of in Hv.
  fold (blocks_of p) in Hcore.
  exists d'. unfold Write. rewrite datalen_small, Hu by assumption.
  cbn [bind]. split; [reflexivity|]. split; [exact Hcore|].
  split; [|congruence].
  assert (E : buflen d' = 8 * Z.shiftr (buflen d) 3 + 8 * (len p mod 64))
    by congruence.
  lia.
Qed.

Lemma Write_jumps_the_buffer_witness :
  constructed New
  /\ run [OpWrite (bytes_of "abc")] New = Ok ex_abc
  /\ len (repeat x42 70) < 2 ^ 61
  /\ 0 < buflen ex_abc
  /\ 0 < len (repeat x42 70) mod 64 < 64 - Z.shiftr (buflen ex_abc) 3
  /\ exists d',
       Write (repeat x42 70) ex_abc = Ok (d', 70)
       /\ pending d' = bytes_of "abc" ++ repeat x42 6.
Proof.
  assert (Hc : constructed New) by (left; reflexivity).
  assert (Hrun : run [OpWrite (bytes_of "abc")] New = Ok ex_abc)
    by (vm_compute; reflexivity).
  assert (Hl : len (repeat x42 70) < 2 ^ 61) by (vm_compute; reflexivity).
  assert (Hb : 0 < buflen ex_abc) by (vm_compute; reflexivity).
  assert (Hm : 0 < len (repeat x42 70) mod 64 < 64 - Z.shiftr (buflen ex_abc) 3)
    by (vm_compute; split; reflexivity).
  split; [exact Hc|]. split; [exact Hrun|]. split; [exact Hl|].
  split; [exact Hb|]. split; [exact Hm|].
  destruct (Write_jumps_the_buffer New [OpWrite (bytes_of "abc")] ex_abc
              (repeat x42 70) Hc Hrun Hl Hb Hm) as (d' & Hw & _ & _ & Hp).
  exists d'. split; [exact Hw|]. rewrite Hp. vm_compute. reflexivity.
Defined.

(** ** The first revision of blake256.go and the canonical one *)

Lemma old_known_answer :
  hex_result (d <- Old.run [Old.OWrite (bytes_of "BLAKE")] Old.New ;; Old.Sum_bytes d)
  = Ok "07663e00cf96fbc136cf7b1ee099c95346ba3920893d18cc8851f22ee2e36aa6"%string.
Proof. vm_compute. reflexivity. Qed.

Lemma lift_bump d : lift (Old.bump d) = bump (lift d).
Proof.
  unfold Old.bump, bump, lift.
  cbn [Old.t Old.set_t t set_t fst snd].
  destruct (add32 (fst (Old.t d)) 512 =? 0); reflexivity.
Qed.

Lemma old_Block d p :
  64 <= len p ->
  exists d', Old._Block d p = Ok d' /\ lift d' = _Block (lift d) (firstn 64 p).
Proof.
  intros H. unfold Old._Block.
  replace (64 <=? len p) with true by (symmetry; apply Z.leb_le; assumption).
  eexists. split; [reflexivity|].
  unfold _Block, lift, set_h, Old.set_h.
  cbn [Old.h Old.salt Old.t Old.nullt Old.buf Old.buflen
       hashSize h salt t nullt buf buflen].
  rewrite <- compress_firstn. reflexivity.
Qed.

Lemma old_update_loop n : forall d data datalen r,
  update_loop n (lift d) data datalen = Ok r ->
  exists d',
    Old.update_loop n d data datalen = Ok (d', snd (fst r), snd r)
    /\ lift d' = fst (fst r).
Proof.
  induction n as [|n IH]; intros d data datalen r H.
  - cbn in H. injection H as <-. exists d. split; reflexivity.
  - cbn [update_loop Old.update_loop] in *.
    destruct (512 <=? datalen); [|injection H as <-; exists d; split; reflexivity].
    unfold slice_to in H.
    destruct ((0 <=? 64) && (64 <=? len data)) eqn:E; [|discriminate].
    apply andb_prop in E. destruct E as [_ E]. apply Z.leb_le in E.
    cbn [bind] in H.
    destruct (old_Block (Old.bump d) data E) as (d1 & Hb & Hl).
    rewrite Hb. cbn [bind].
    rewrite lift_bump in Hl. change (Z.to_nat 64) with 64%nat in H.
    rewrite <- Hl in H.
    destruct (slice_from data 64) as [data'|e]; [|discriminate].
    cbn [bind] in *. apply IH. exact H.
Qed.

Lemma old_buf_bump d : Old.buf (Old.bump d) = Old.buf d.
Proof.
  unfold Old.bump. cbn [Old.t Old.set_t fst snd].
  destruct (add32 (fst (Old.t d)) 512 =? 0); reflexivity.
Qed.

Lemma old_update_tail d data datalen left d1 :
  ('(e, data, datalen) <-
     update_loop (Z.to_nat (datalen / 512)) (lift d) data datalen ;;
   if 0 <? datalen then
     b <- copy_at (buf e) left data ;;
     let e := set_buf e b in
     Ok (set_buflen e (Z.shiftl left 3 + datalen))
   else Ok (set_buflen e 0)) = Ok d1 ->
  exists d',
    ('(e, data, datalen) <-
       Old.update_loop (Z.to_nat (datalen / 512)) d data datalen ;;
     if 0 <? datalen then
       b <- copy_at (Old.buf e) left data ;;
       let e := Old.set_buf e b in
       Ok (Old.set_buflen e (Z.shiftl left 3 + datalen))
     else Ok (Old.set_buflen e 0)) = Ok d'
    /\ lift d' = d1.
Proof.
  intros H.
  destruct (update_loop (Z.to_nat (datalen / 512)) (lift d) data datalen)
    as [[[e data'] datalen']|err] eqn:EL; [|discriminate].
  destruct (old_update_loop _ _ _ _ _ EL) as (e' & HL & Hl).
  cbn [fst snd] in HL, Hl. rewrite HL. cbn [bind] in *.
  subst e.
  destruct (0 <? datalen').
  - change (buf (lift e')) with (Old.buf e') in H.
    destruct (copy_at (Old.buf e') left data') as [b|]; [|discriminate].
    cbn [bind] in *. eexists. split; [reflexivity|].
    injection H as <-. reflexivity.
  - eexists. split; [reflexivity|]. injection H as <-. reflexivity.
Qed.

(** [update] of the first revision does what the canonical one does. *)
Lemma old_update d data datalen d1 :
  length (Old.buf d) = 64%nat ->
  update (lift d) data datalen = Ok d1 ->
  exists d', Old.update d data datalen = Ok d' /\ lift d' = d1.
Proof.
  intros Hbuf H. unfold update in H. unfold Old.update.
  change (buflen (lift d)) with (Old.buflen d) in H.
  change (buf (lift d)) with (Old.buf d) in H.
  set (left := Z.shiftr (Old.buflen d) 3) in *.
  destruct (negb (left =? 0) && (64 - left <=? Z.land (Z.shiftr datalen 3) 63)).
  - destruct (slice_to data (64 - left)) as [src|]; [|discriminate].
    cbn [bind] in *.
    destruct (copy_at (Old.buf d) left src) as [b|] eqn:Hc; [|discriminate].
    cbn [bind] in *.
    pose proof (copy_at_length _ _ _ _ Hc) as Hb. rewrite Hbuf in Hb.
    rewrite buf_bump in H. cbn [set_buf buf] in H.
    rewrite old_buf_bump. cbn [Old.set_buf Old.buf].
    destruct (old_Block (Old.bump (Old.set_buf d b)) b) as (d2 & HB & Hl).
    { unfold len. lia. }
    rewrite HB. cbn [bind].
    rewrite firstn_all2, lift_bump in Hl by lia.
    change (lift (Old.set_buf d b)) with (set_buf (lift d) b) in Hl.
    rewrite <- Hl in H.
    destruct (slice_from data (64 - left)) as [data'|]; [|discriminate].
    cbn [bind] in *.
    apply old_update_tail. exact H.
  - cbn [bind] in *. apply old_update_tail. exact H.
Qed.

Lemma old_Write p d r :
  length (Old.buf d) = 64%nat ->
  Write p (lift d) = Ok r ->
  exists d', Old.Write p d = Ok (d', snd r) /\ lift d' = fst r.
Proof.
  intros Hbuf H. unfold Write in H. unfold Old.Write.
  destruct (update (lift d) p (wrap64 (wrap64 (len p) * 8))) as [d1|] eqn:E;
    [|discriminate].
  destruct (old_update _ _ _ _ Hbuf E) as (d' & -> & Hl).
  cbn [bind] in *. injection H as <-. exists d'. split; [reflexivity|exact Hl].
Qed.

Lemma update_loop_buf n : forall d data datalen r,
  update_loop n d data datalen = Ok r -> buf (fst (fst r)) = buf d.
Proof.
  induction n as [|n IH]; intros d data datalen r H.
  - cbn in H. injection H as <-. reflexivity.
  - cbn [update_loop] in H.
    destruct (512 <=? datalen); [|injection H as <-; reflexivity].
    destruct (slice_to data 64) as [blk|]; [|discriminate].
    cbn [bind] in H.
    destruct (slice_from data 64) as [data'|]; [|discriminate].
    cbn [bind] in H. rewrite (IH _ _ _ _ H).
    unfold _Block. cbn [set_h buf]. apply buf_bump.
Qed.

Lemma update_buf_length d data datalen d' :
  update d data datalen = Ok d' -> length (buf d') = length (buf d).
Proof.
  unfold update. intros H.
  set (left := Z.shiftr (buflen d) 3) in *.
  assert (T : forall e data datalen left,
    length (buf e) = length (buf d) ->
    ('(e, data, datalen) <-
       update_loop (Z.to_nat (datalen / 512)) e data datalen ;;
     if 0 <? datalen then
       b <- copy_at (buf e) left data ;;
       let e := set_buf e b in
       Ok (set_buflen e (Z.shiftl left 3 + datalen))
     else Ok (set_buflen e 0)) = Ok d' ->
    length (buf d') = length (buf d)).
  { clear H. intros e data0 dl0 left0 He H.
    destruct (update_loop (Z.to_nat (dl0 / 512)) e data0 dl0)
      as [[[e1 data1] dl1]|] eqn:EL; [|discriminate].
    apply update_loop_buf in EL. cbn [fst snd] in EL. cbn [bind] in H.
    destruct (0 <? dl1).
    - destruct (copy_at (buf e1) left0 data1) as [b|] eqn:Hc; [|discriminate].
      cbn [bind] in H. injection H as <-. cbn [set_buflen set_buf buf].
      rewrite (copy_at_length _ _ _ _ Hc). congruence.
    - injection H as <-. cbn [set_buflen buf]. congruence. }
  destruct (negb (left =? 0) && (64 - left <=? Z.land (Z.shiftr datalen 3) 63)).
  - destruct (slice_to data (64 - left)) as [src|]; [|discriminate].
    cbn [bind] in H.
    destruct (copy_at (buf d) left src) as [b|] eqn:Hc; [|discriminate].
    cbn [bind] in H.
    destruct (slice_from data (64 - left)) as [data'|]; [|discriminate].
    cbn [bind] in H. eapply T; [|exact H].
    unfold _Block. cbn [set_h buf]. rewrite buf_bump. cbn [set_buf buf].
    exact (copy_at_length _ _ _ _ Hc).
  - cbn [bind] in H. eapply T; [|exact H]. reflexivity.
Qed.

Lemma old_Sum_pad d d1 :
  length (Old.buf d) = 64%nat ->
  Sum_pad (lift d) = Ok d1 ->
  exists d', Old.Sum_pad d = Ok d' /\ lift d' = d1
             /\ length (Old.buf d') = 64%nat.
Proof.
  intros Hbuf H.
  assert (G : forall r : result digest, r = Ok d1 ->
            forall r' : result Old.digest,
            (forall x, r = Ok x ->
               exists y, r' = Ok y /\ lift y = x /\ length (Old.buf y) = 64%nat) ->
            exists d', r' = Ok d' /\ lift d' = d1
                       /\ length (Old.buf d') = 64%nat).
  { intros r Hr r' Hx. apply Hx. exact Hr. }
  apply (G _ H). clear G H. intros x H.
  assert (U : forall e data datalen x,
    length (Old.buf e) = 64%nat ->
    update (lift e) data datalen = Ok x ->
    exists y, Old.update e data datalen = Ok y /\ lift y = x
              /\ length (Old.buf y) = 64%nat).
  { intros e data datalen x0 He Hu.
    pose proof (update_buf_length _ _ _ _ Hu) as Hlen.
    destruct (old_update _ _ _ _ He Hu) as (y & Hy & Hl).
    exists y. split; [exact Hy|]. split; [exact Hl|].
    subst x0. change (buf (lift y)) with (Old.buf y) in Hlen.
    change (buf (lift e)) with (Old.buf e) in Hlen. congruence. }
  unfold Sum_pad in H. unfold Old.Sum_pad.
  change (buflen (lift d)) with (Old.buflen d) in H.
  destruct (Old.buflen d =? 440).
  - change (hashSize (back_off (lift d) 8) =? 224) with false in H.
    cbv iota in H.
    apply (U (Old.back_off d 8)); assumption.
  - assert (D : forall e x,
      length (Old.buf e) = 64%nat ->
      (d0 <- (if hashSize (lift e) =? 224 then update (lift e) [x00] 8
              else update (lift e) [x01] 8) ;;
       Ok (back_off d0 8)) = Ok x ->
      exists y, (d0 <- Old.update e [x01] 8 ;; Ok (Old.back_off d0 8)) = Ok y
                /\ lift y = x /\ length (Old.buf y) = 64%nat).
    { intros e x0 He Hx.
      change (hashSize (lift e) =? 224) with false in Hx. cbv iota in Hx.
      destruct (update (lift e) [x01] 8) as [e1|] eqn:E; [|discriminate].
      destruct (U _ _ _ _ He E) as (y & -> & Hl & Hy).
      cbn [bind] in *. injection Hx as <-.
      eexists. split; [reflexivity|]. split; [|exact Hy].
      rewrite <- Hl. reflexivity. }
    destruct (Old.buflen d <? 440).
    + set (e := if Old.buflen d =? 0 then Old.set_nullt d true else d).
      assert (He : length (Old.buf e) = 64%nat)
        by (subst e; destruct (Old.buflen d =? 0); assumption).
      assert (Hle : (if Old.buflen d =? 0 then set_nullt (lift d) true else lift d)
                    = lift e)
        by (subst e; destruct (Old.buflen d =? 0); reflexivity).
      cbv zeta in H. rewrite Hle in H.
      change (buflen (back_off (lift e) (sub32 440 (wrap32 (Old.buflen d)))))
        with (Old.buflen e) in H.
      assert (Hbe : Old.buflen e = Old.buflen d)
        by (subst e; destruct (Old.buflen d =? 0); reflexivity).
      cbv zeta.
      change (Old.buflen (Old.back_off e (sub32 440 (wrap32 (Old.buflen d)))))
        with (Old.buflen e).
      destruct (update (back_off (lift e) (sub32 440 (wrap32 (Old.buflen d))))
                  pad (wrap64 (440 - Old.buflen e))) as [e1|] eqn:E;
        [|discriminate].
      destruct (U (Old.back_off e (sub32 440 (wrap32 (Old.buflen d)))) _ _ _ He E)
        as (y & Hy & Hl & Hyb).
      change Old.padding with pad. rewrite Hy. cbn [bind] in *.
      rewrite <- Hl in H. apply D; assumption.
    + cbv zeta in H. cbv zeta.
      change (buflen (back_off (lift d) (sub32 512 (wrap32 (Old.buflen d)))))
        with (Old.buflen d) in H.
      change (Old.buflen (Old.back_off d (sub32 512 (wrap32 (Old.buflen d)))))
        with (Old.buflen d).
      destruct (update (back_off (lift d) (sub32 512 (wrap32 (Old.buflen d))))
                  pad (wrap64 (512 - Old.buflen d))) as [e1|] eqn:E;
        [|discriminate].
      destruct (U (Old.back_off d (sub32 512 (wrap32 (Old.buflen d)))) _ _ _
                  Hbuf E) as (y & Hy & Hl & Hyb).
      change Old.padding with pad. rewrite Hy. cbn [bind] in *.
      destruct (slice_from pad 1) as [pad1|]; [|discriminate].
      cbn [bind] in *. rewrite <- Hl in H.
      destruct (update (back_off (lift y) 440) pad1 440) as [e2|] eqn:E2;
        [|discriminate].
      destruct (U (Old.back_off y 440) _ _ _ Hyb E2) as (y2 & Hy2 & Hl2 & Hyb2).
      rewrite Hy2. cbn [bind] in *. rewrite <- Hl2 in H.
      apply (D (Old.set_nullt y2 true)); assumption.
Qed.

(** [Sum()] of the first revision returns what [Sum(nil)] returns in the
    canonical one. *)
Lemma old_Sum d :
  Inv (lift d) ->
  exists out,
    Old.Sum d = Ok (d, out) /\ Sum [] (lift d) = Ok (lift d, out)
    /\ len out = 32.
Proof.
  intros I. pose proof I as [_ _ (Hbuf & _) _ _ _].
  change (buf (lift d)) with (Old.buf d) in Hbuf.
  destruct (Sum_ok (lift d) [] I) as (dfin & Hst & Hh & HS).
  change (hashSize (lift d) =? 224) with false in HS. cbv iota in HS.
  rewrite app_nil_l in HS.
  exists (flat_map u32to8 (firstn 8 (h dfin))).
  split; [|split; [exact HS|]].
  - unfold Sum in HS. rewrite Hst in HS. cbn [bind] in HS.
    unfold Sum_state in Hst. cbv zeta in Hst.
    destruct (Sum_pad (lift d)) as [d1|] eqn:EP; [|discriminate].
    destruct (old_Sum_pad d d1 Hbuf EP) as (d' & HP & Hl & Hb').
    cbn [bind] in Hst. rewrite <- Hl in Hst.
    change (back_off (lift d') 64) with (lift (Old.back_off d' 64)) in Hst.
    destruct (old_update (Old.back_off d' 64) _ _ _ Hb' Hst) as (y & Hy & Hly).
    unfold Old.Sum. cbv zeta. rewrite HP. cbn [bind].
    change (Old.msglen d) with (msglen (lift d)). rewrite Hy. cbn [bind].
    assert (Hout : Sum_out dfin
                   = (out <- make_bytes 32 ;; put_words out 0 (Old.h y))).
    { rewrite <- Hly. unfold Sum_out, Size.
      change (hashSize (lift y)) with 256. change (h (lift y)) with (Old.h y).
      change (Z.shiftr 256 3) with 32. change (Z.shiftr 256 5) with 8.
      assert (H8 : length (Old.h y) = 8%nat) by (rewrite <- Hh, <- Hly; reflexivity).
      unfold slice_to.
      replace ((0 <=? 8) && (8 <=? len (Old.h y))) with true
        by (unfold len; rewrite H8; reflexivity).
      cbn [bind]. rewrite firstn_all2 by lia.
      destruct (make_bytes 32); reflexivity. }
    rewrite Hout in HS.
    destruct (make_bytes 32) as [o|]; [|discriminate]. cbn [bind] in *.
    destruct (put_words o 0 (Old.h y)) as [o'|]; [|discriminate].
    cbn [bind] in *.
    rewrite app_nil_l in HS.
    assert (E : o' = flat_map u32to8 (firstn 8 (h dfin))) by congruence.
    rewrite E. reflexivity.
  - unfold len. rewrite length_flat_u32to8, length_firstn, Hh. reflexivity.
Qed.

Lemma lift_Reset d :
  Old.salt d = [0; 0; 0; 0] -> lift (Old.Reset d) = Reset (lift d).
Proof. intros H. unfold lift, Old.Reset, Reset. cbn. rewrite H. reflexivity. Qed.

(** A session of the first revision, call by call beside the canonical
    one. *)
Lemma old_run os : forall d,
  Inv (lift d) -> Old.salt d = [0; 0; 0; 0] ->
  exists d',
    Old.run os d = Ok d' /\ run (map as_op os) (lift d) = Ok (lift d')
    /\ Inv (lift d').
Proof.
  induction os as [|o os IH]; intros d I Hs.
  - exists d. split; [reflexivity|]. split; [reflexivity|exact I].
  - cbn [Old.run run map].
    assert (Step : exists d1,
      Old.run_op o d = Ok d1 /\ run_op (as_op o) (lift d) = Ok (lift d1)
      /\ Inv (lift d1) /\ Old.salt d1 = [0; 0; 0; 0]).
    { destruct o as [p| |]; cbn [Old.run_op run_op as_op].
      - destruct (Write_ok (lift d) p I) as (e & Hw & Ie & Hsalt & _).
        pose proof I as [_ _ (Hbuf & _) _ _ _].
        destruct (old_Write p d _ Hbuf Hw) as (d1 & Hw' & Hl).
        cbn [fst snd] in Hw', Hl. rewrite Hw, Hw'. cbn [bind].
        exists d1. rewrite Hl. split; [reflexivity|]. split; [reflexivity|].
        split; [exact Ie|].
        rewrite <- Hl in Hsalt. exact (eq_trans Hsalt Hs).
      - destruct (old_Sum d I) as (out & H1 & H2 & _).
        rewrite H1, H2. cbn [bind]. exists d. auto.
      - exists (Old.Reset d). rewrite (lift_Reset d Hs).
        split; [reflexivity|]. split; [reflexivity|].
        split; [|reflexivity].
        pose proof I as [_ _ (Hbuf & _) _ _ _].
        apply Reset_Inv; [exact Hbuf|right; reflexivity]. }
    destruct Step as (d1 & H1 & H2 & I1 & S1).
    rewrite H1, H2. cbn [bind]. apply IH; assumption.
Qed.

(** X16.  The first revision of blake256.go and the canonical revision
    agree call by call: every sequence of Write, Sum() and Reset calls on
    [New()] is accepted by both, and a following [Sum()] returns in the
    first revision the 32 bytes that [Sum(nil)] returns in the canonical
    one after the same calls. *)
Theorem first_revision_agrees os :
  exists d d' out,
    Old.run os Old.New = Ok d
    /\ run (map as_op os) New = Ok d'
    /\ Old.Sum_bytes d = Ok out
    /\ Sum_bytes [] d' = Ok out
    /\ len out = 32.
Proof.
  assert (I : Inv (lift Old.New)).
  { change (lift Old.New) with New. apply constructed_Inv. left. reflexivity. }
  destruct (old_run os Old.New I eq_refl) as (d & H1 & H2 & I').
  destruct (old_Sum d I') as (out & S1 & S2 & Hl).
  exists d, (lift d), out.
  split; [exact H1|]. split; [exact H2|].
  unfold Old.Sum_bytes, Sum_bytes. rewrite S1, S2. cbn [bind].
  split; [reflexivity|]. split; [reflexivity|exact Hl].
Qed.

(** ** Rotations *)

Lemma testbit_u32_high x i : 0 <= x < 2 ^ 32 -> 32 <= i -> Z.testbit x i = false.
Proof.
  intros Hx Hi. rewrite <- (Z.mod_small x (2 ^ 32)) by assumption.
  rewrite Z.testbit_mod_pow2 by lia.
  replace (i <? 32) with false by (symmetry; apply Z.ltb_ge; assumption).
  reflexivity.
Qed.

(** The bits of [x<<(32-n) | x>>n] on a 32-bit word. *)
Lemma rot_bits x n i :
  0 <= x < 2 ^ 32 -> 0 < n < 32 -> 0 <= i ->
  Z.testbit (rot x n) i =
  if i <? 32 - n then Z.testbit x (i + n)
  else if i <? 32 then Z.testbit x (i - (32 - n)) else false.
Proof.
  intros Hx Hn Hi. unfold rot, shl32, wrap32.
  rewrite Z.lor_spec, Z.testbit_mod_pow2, Z.shiftl_spec, Z.shiftr_spec by lia.
  destruct (Z.ltb_spec i (32 - n)) as [H1|H1].
  - replace (i <? 32) with true by (symmetry; apply Z.ltb_lt; lia).
    rewrite (Z.testbit_neg_r x (i - (32 - n))) by lia. reflexivity.
  - rewrite (testbit_u32_high x (i + n)) by lia. rewrite orb_false_r.
    destruct (i <? 32); reflexivity.
Qed.

Lemma rot_range x n : 0 <= x < 2 ^ 32 -> 0 < n < 32 -> 0 <= rot x n < 2 ^ 32.
Proof.
  intros Hx Hn.
  assert (H0 : 0 <= rot x n).
  { unfold rot. apply Z.lor_nonneg. split.
    - apply wrap32_range.
    - apply Z.shiftr_nonneg. lia. }
  split; [exact H0|].
  destruct (Z.eq_dec (rot x n) 0) as [->|Hne]; [lia|].
  apply Z.log2_lt_pow2; [lia|].
  destruct (Z.lt_ge_cases (Z.log2 (rot x n)) 32) as [Hl|Hl]; [exact Hl|].
  exfalso.
  pose proof (Z.bit_log2 (rot x n) ltac:(lia)) as Hb.
  rewrite rot_bits in Hb by lia.
  replace (Z.log2 (rot x n) <? 32 - n) with false in Hb
    by (symmetry; apply Z.ltb_ge; lia).
  replace (Z.log2 (rot x n) <? 32) with false in Hb
    by (symmetry; apply Z.ltb_ge; lia).
  discriminate.
Qed.

(** X17.  The rotation [x<<(32-n) | x>>n] of the round body loses no bit:
    for a 32-bit word [x] and [0 < n < 32] the result is a 32-bit word,
    and rotating it by [32 - n] gives [x] back. *)
Theorem rot_roundtrip x n :
  0 <= x < 2 ^ 32 -> 0 < n < 32 ->
  0 <= rot x n < 2 ^ 32 /\ rot (rot x n) (32 - n) = x.
Proof.
  intros Hx Hn. pose proof (rot_range x n Hx Hn) as Hr.
  split; [exact Hr|].
  apply Z.bits_inj'. intros i Hi.
  rewrite rot_bits by lia.
  replace (32 - (32 - n)) with n by lia.
  destruct (Z.ltb_spec i n) as [H1|H1].
  - rewrite rot_bits by lia.
    replace (i + (32 - n) <? 32 - n) with false by (symmetry; apply Z.ltb_ge; lia).
    replace (i + (32 - n) <? 32) with true by (symmetry; apply Z.ltb_lt; lia).
    f_equal. lia.
  - destruct (Z.ltb_spec i 32) as [H2|H2].
    + rewrite rot_bits by lia.
      replace (i - n <? 32 - n) with true by (symmetry; apply Z.ltb_lt; lia).
      f_equal. lia.
    + symmetry. apply testbit_u32_high; assumption.
Qed.

Lemma rot_roundtrip_witness :
  0 <= 0x80000001 < 2 ^ 32 /\ 0 < 7 < 32
  /\ rot 0x80000001 7 = 0x03000000
  /\ rot (rot 0x80000001 7) (32 - 7) = 0x80000001.
Proof.
  assert (Hx : 0 <= 0x80000001 < 2 ^ 32) by lia.
  assert (Hn : 0 < 7 < 32) by lia.
  split; [exact Hx|]. split; [exact Hn|]. split; [reflexivity|].
  exact (proj2 (rot_roundtrip 0x80000001 7 Hx Hn)).
Defined.
